(** * ScannerProjectNoBarcode: the file-arrival-to-classification pipeline

    A shallow embedding of [scannertest.py] and [scanner.py]: the PO token
    parser (a backtracking regular-expression search), the image
    extractor with its retry loop, the readiness gate, the filer and the
    per-event handler [POFileHandler.on_created], followed by the
    properties of the written specification that hold of them and the
    inputs at which the others fail; then the start of the two programs
    ([check_dependencies], the [__main__] blocks) and more properties of
    the whole. *)

From Stdlib Require Import NArith Lia Ascii String.
From stdpp Require Import gmap strings list.

Local Open Scope N_scope.

(** ** Python strings

    A Python [str] is a sequence of Unicode code points. *)

Abbreviation str := (list N).

(** A literal, written as an ASCII string. *)
Fixpoint u (s : string) : str :=
  match s with
  | EmptyString => []
  | String a s' => N_of_ascii a :: u s'
  end.

(** [s.endswith(suffix)] *)
Definition endswith (s suffix : str) : bool :=
  bool_decide (drop (length s - length suffix)%nat s = suffix).

(** [s.startswith(prefix)] *)
Definition startswith (s prefix : str) : bool :=
  bool_decide (take (length prefix) s = prefix).

(** [s.rfind(c)] for a one-character [c]: the highest index, or -1. *)
Fixpoint rfind (s : str) (c : N) : Z :=
  match s with
  | [] => (-1)%Z
  | x :: s' =>
      let r := rfind s' c in
      if (0 <=? r)%Z then (r + 1)%Z
      else if x =? c then 0%Z else (-1)%Z
  end.

(** [s[i:]], [s[:i]] and [s[i:j]] for indices that are not negative. *)
Definition slice_from (s : str) (i : Z) : str := drop (Z.to_nat i) s.
Definition slice_to (s : str) (i : Z) : str := take (Z.to_nat i) s.
Definition slice (s : str) (i j : Z) : str :=
  take (Z.to_nat j - Z.to_nat i)%nat (drop (Z.to_nat i) s).

Module Unicode.

(** The ranges of the code points of category Nd (decimal digit), the
    ones [str.isdecimal] accepts and the ones the [re] module's [\d]
    matches in a [str] pattern (Unicode 14). *)
Definition Nd_ranges : list (N * N) :=
  [ (48, 57); (1632, 1641); (1776, 1785); (1984, 1993); (2406, 2415);
    (2534, 2543); (2662, 2671); (2790, 2799); (2918, 2927); (3046, 3055);
    (3174, 3183); (3302, 3311); (3430, 3439); (3558, 3567); (3664, 3673);
    (3792, 3801); (3872, 3881); (4160, 4169); (4240, 4249); (6112, 6121);
    (6160, 6169); (6470, 6479); (6608, 6617); (6784, 6793); (6800, 6809);
    (6992, 7001); (7088, 7097); (7232, 7241); (7248, 7257); (42528, 42537);
    (43216, 43225); (43264, 43273); (43472, 43481); (43504, 43513);
    (43600, 43609); (44016, 44025); (65296, 65305); (66720, 66729);
    (68912, 68921); (69734, 69743); (69872, 69881); (69942, 69951);
    (70096, 70105); (70384, 70393); (70736, 70745); (70864, 70873);
    (71248, 71257); (71360, 71369); (71472, 71481); (71904, 71913);
    (72016, 72025); (72784, 72793); (73040, 73049); (73120, 73129);
    (92768, 92777); (92864, 92873); (93008, 93017); (120782, 120831);
    (123200, 123209); (123632, 123641); (125264, 125273);
    (130032, 130041) ].

Definition in_range (c : N) (r : N * N) : bool :=
  (fst r <=? c) && (c <=? snd r).

Definition is_decimal (c : N) : bool := existsb (in_range c) Nd_ranges.

(** [[0-9]] *)
Definition is_ascii_digit (c : N) : bool := (48 <=? c) && (c <=? 57).

(** [[A-Z]] *)
Definition is_ascii_upper (c : N) : bool := (65 <=? c) && (c <=? 90).

(** [str.lower], one code point at a time.  Basic Latin and Latin-1 are
    lowered as Python lowers them.  Code points from 256 on are kept as
    they are: Python lowers some of them, but never to a string that
    holds one of the characters of [".png"], and every code point
    lowers to at least one code point, so the only use the handler makes
    of [lower], the test [endswith('.png')], is not affected. *)
Definition lower_cp (c : N) : N :=
  if (65 <=? c) && (c <=? 90) then c + 32
  else if (192 <=? c) && (c <=? 214) then c + 32
  else if (216 <=? c) && (c <=? 222) then c + 32
  else c.

Definition lower (s : str) : str := lower_cp <$> s.

End Unicode.

(** ** The [re] module: backtracking search

    The part of Python's regular expressions the scanner uses: a pattern is
    a sequence of one-character atoms, each taken once or repeated
    greedily. *)
Module Re.

Inductive atom :=
| Lit (c : N)      (* a literal character *)
| Upper            (* [A-Z] *)
| Digit            (* \d *)
| Ascii_digit.     (* [0-9] *)

Inductive quant :=
| One              (* x  *)
| Star             (* x* *)
| Plus.            (* x+ *)

Abbreviation pattern := (list (atom * quant)).

Definition atom_matches (a : atom) (c : N) : bool :=
  match a with
  | Lit c' => c =? c'
  | Upper => Unicode.is_ascii_upper c
  | Digit => Unicode.is_decimal c
  | Ascii_digit => Unicode.is_ascii_digit c
  end.

(** A greedy repetition of [a] followed by the continuation [k]: take a
    character while one matches, and give characters back one at a time
    when the continuation fails. The result is the length matched. *)
Fixpoint greedy (a : atom) (k : str → option nat) (s : str) : option nat :=
  match s with
  | c :: s' =>
      if atom_matches a c then
        match greedy a k s' with
        | Some n => Some (S n)
        | None => k s
        end
      else k s
  | [] => k []
  end.

(** [pattern.match(s)]: the match anchored at the start of [s], as the
    length of the matched prefix. *)
Fixpoint match_here (p : pattern) (s : str) {struct p} : option nat :=
  match p with
  | [] => Some 0%nat
  | (a, One) :: p' =>
      match s with
      | c :: s' => if atom_matches a c then S <$> match_here p' s' else None
      | [] => None
      end
  | (a, Star) :: p' => greedy a (match_here p') s
  | (a, Plus) :: p' =>
      match s with
      | c :: s' =>
          if atom_matches a c then S <$> greedy a (match_here p') s'
          else None
      | [] => None
      end
  end.

(** [re.search(p, s)]: the first start position, from the left, at which
    the anchored match succeeds; the result is the start and
    [match.group()]. *)
Fixpoint search_from (p : pattern) (s : str) (pos : nat)
  : option (nat * str) :=
  match match_here p s with
  | Some n => Some (pos, take n s)
  | None =>
      match s with
      | [] => None
      | _ :: s' => search_from p s' (S pos)
      end
  end.

Definition search (p : pattern) (s : str) : option (nat * str) :=
  search_from p s 0.

(** [m.group() if m else None] *)
Definition group_or_None (m : option (nat * str)) : option str :=
  snd <$> m.

(** The words of a pattern. *)
Fixpoint lang (p : pattern) (m : str) : Prop :=
  match p with
  | [] => m = []
  | (a, One) :: p' =>
      ∃ c m', m = c :: m' ∧ atom_matches a c = true ∧ lang p' m'
  | (a, Star) :: p' =>
      ∃ r m', m = r ++ m' ∧ Forall (λ c, atom_matches a c = true) r
              ∧ lang p' m'
  | (a, Plus) :: p' =>
      ∃ c r m', m = c :: r ++ m' ∧ atom_matches a c = true
                ∧ Forall (λ c, atom_matches a c = true) r ∧ lang p' m'
  end.

End Re.

(** ** The PO token parser *)

Definition chr_P : N := 80.
Definition chr_O : N := 79.

(** [r'[A-Z]*PO\d+'] (scannertest.py) *)
Definition po_pattern : Re.pattern :=
  [ (Re.Upper, Re.Star); (Re.Lit chr_P, Re.One); (Re.Lit chr_O, Re.One);
    (Re.Digit, Re.Plus) ].

(** The pattern as the specification writes it, [[A-Z]*PO[0-9]+]. *)
Definition po_pattern_spec : Re.pattern :=
  [ (Re.Upper, Re.Star); (Re.Lit chr_P, Re.One); (Re.Lit chr_O, Re.One);
    (Re.Ascii_digit, Re.Plus) ].

(** [r'PO\d+'] (scanner.py) *)
Definition po_pattern_plain : Re.pattern :=
  [ (Re.Lit chr_P, Re.One); (Re.Lit chr_O, Re.One); (Re.Digit, Re.Plus) ].

(** [t] holds [m] at offset [i]. *)
Definition occurs_at (t : str) (i : nat) (m : str) : Prop :=
  ∃ post, drop i t = m ++ post ∧ (i ≤ length t)%nat.

(** [r] is what a leftmost, greedy search for a word of [p] in [t] finds:
    a word of [p] in [t] such that no word of [p] starts before it and none
    that starts with it is longer; nothing, when [t] holds no word of
    [p]. *)
Definition leftmost_match (p : Re.pattern) (t : str) (r : option str)
  : Prop :=
  match r with
  | Some m =>
      ∃ i, occurs_at t i m ∧ Re.lang p m ∧
           ∀ i' m', occurs_at t i' m' → Re.lang p m' →
                    (i < i')%nat ∨ (i = i' ∧ length m' ≤ length m)%nat
  | None => ∀ i m, occurs_at t i m → ¬ Re.lang p m
  end.

(** scannertest.py, [get_PO_number_from_text] *)
Definition get_PO_number_from_text (ocr_text : str) : option str :=
  let po_number_match := Re.search po_pattern ocr_text in
  Re.group_or_None po_number_match.

(** ** [os.path] (posixpath) *)
Module OsPath.

Definition sep : N := 47.      (* '/' *)
Definition extsep : N := 46.   (* '.' *)

(** [os.path.basename(p)]: [i = p.rfind('/') + 1; return p[i:]] *)
Definition basename (p : str) : str :=
  let i := (rfind p sep + 1)%Z in
  slice_from p i.

(** [os.path.join(a, b)] *)
Definition join (a b : str) : str :=
  if startswith b [sep] then b
  else if bool_decide (a = []) || endswith a [sep] then a ++ b
  else a ++ [sep] ++ b.

(** The loop of [genericpath._splitext] that skips the leading dots of
    the file name: it answers whether some character of
    [p[filenameIndex:dotIndex]] is not a dot. *)
Fixpoint has_non_dot (segment : str) : bool :=
  match segment with
  | [] => false
  | c :: segment' =>
      if negb (c =? extsep) then true else has_non_dot segment'
  end.

(** [os.path.splitext(p)] *)
Definition splitext (p : str) : str * str :=
  let sepIndex := rfind p sep in
  let dotIndex := rfind p extsep in
  if (dotIndex >? sepIndex)%Z then
    let filenameIndex := (sepIndex + 1)%Z in
    if has_non_dot (slice p filenameIndex dotIndex)
    then (slice_to p dotIndex, slice_from p dotIndex)
    else (p, [])
  else (p, []).

End OsPath.

(** ** [uuid.uuid4().hex] *)
Module Uuid.

Definition hex_char (d : N) : N := if d <? 10 then 48 + d else 87 + d.

(** The [k] low hexadecimal digits of [v], most significant first:
    ['%032x' % v] when [k] is 32 and [v] is below [2^128]. *)
Fixpoint hex_digits (k : nat) (v : N) : str :=
  match k with
  | O => []
  | S k' => hex_digits k' (v / 16) ++ [hex_char (v mod 16)]
  end.

(** [UUID(bytes=os.urandom(16), version=4).int] *)
Definition uuid4_int (random16 : N) : N :=
  let int := random16 mod 2 ^ 128 in
  let int := N.ldiff int (N.shiftl 0xc000 48) in
  let int := N.lor int (N.shiftl 0x8000 48) in
  let int := N.ldiff int (N.shiftl 0xf000 64) in
  N.lor int (N.shiftl 4 76).

Definition hex (int : N) : str := hex_digits 32 int.

(** [[0-9a-f]] *)
Definition is_hex_char (c : N) : bool :=
  ((48 <=? c) && (c <=? 57)) || ((97 <=? c) && (c <=? 102)).

End Uuid.

(** ** The world outside the program *)

(** The exception classes the handler tells apart.  All of them derive
    from [Exception]; [IOError] is Python 3's alias of [OSError], of
    which [PermissionError], [FileNotFoundError], [FileExistsError] and
    [shutil.Error] are subclasses. *)
Inductive exn :=
| PermissionError
| FileNotFoundError
| FileExistsError
| ShutilError
| OSError
| OtherException.

Definition isinstance_OSError (e : exn) : bool :=
  match e with OtherException => false | _ => true end.

Definition isinstance_PermissionError (e : exn) : bool :=
  match e with PermissionError => true | _ => false end.

Definition isinstance_Exception (e : exn) : bool := true.

(** A decoded PIL image. *)
Inductive image := Image (id : N).

Inductive level := INFO | WARNING | ERROR.

(** The log messages, one constructor for each format string. *)
Inductive message :=
| New_file_detected (file_path : str)
| Waiting_for_file_access (file_path : str)
| Waiting_for_file_to_finish_writing (file_path : str)
| Extracted_PO_Number (po_number : str)
| PO_Number_could_not_be_extracted
| Permission_error_while_processing (file_path : str) (e : exn)
| Unsupported_file_format (file_path : str)
| Created_finished_directory (d : str)
| File_renamed_and_moved (new_file_name destination_path : str)
| Created_error_directory (d : str)
| File_with_no_PO_number_moved (error_file_path : str)
| Image_is_locked_Retrying (image_path : str) (attempt total : nat)
| Max_retries_reached (image_path : str)
| OCR_raw_output (ocr_result : str)
| PO_Number_found_in_image (po_number image_path : str)
| No_PO_Number_found_in_image (image_path : str)
| Error_processing_image (image_path : str) (e : exn).

(** What the program does to the world, in the order it does it. *)
Inductive event :=
| Ev_log (l : level) (m : message)
| Ev_sleep (seconds : nat)
| Ev_open_append (path : str)
| Ev_stat (path : str)
| Ev_image_open (path : str)
| Ev_image_to_string (img : image)
| Ev_uuid4
| Ev_makedirs (path : str)
| Ev_move (src dst : str).

(** What the handler sees of a path that another process may be writing:
    [os.path.exists], [os.path.isfile] and [os.stat(...).st_size]. *)
Record observation := {
  obs_exists : bool;
  obs_isfile : bool;
  obs_st_size : exn + N
}.

(** The environment: the answers of everything the program does not
    control.  Attempts are numbered from 0. *)
Record env := {
  (** the [n]-th [open(file_path, 'a')] of the gate: [None] when it opens *)
  open_for_append : nat → option exn;
  (** the [n]-th look of scanner.py's gate at the path *)
  observe : nat → observation;
  (** the [n]-th [Image.open] and decode of the image *)
  image_open : nat → exn + image;
  (** [pytesseract.image_to_string] *)
  image_to_string : image → exn + str;
  (** [os.urandom(16)], as an integer *)
  urandom16 : N;
  (** the failures of the file-system calls that do not follow from the
      files themselves: locks, permissions, a full or another volume *)
  fault_makedirs : option exn;
  fault_rename : option exn;
  fault_copy : option exn;
  fault_unlink : option exn;
  (** when the copy fails: how many bytes of the content it had written to
      the destination before, [None] when it had not opened it *)
  copy_written : option nat
}.

Abbreviation file_map := (gmap str (list Byte.byte)).

(** The state: the files and directories, every file map the files went
    through, and the events so far (both oldest first). *)
Record world := {
  files : file_map;
  dirs : gset str;
  history : list file_map;
  trace : list event
}.

(** ** The monad of the program: state, exceptions, and a loop that may
    not end *)

Inductive outcome (A : Type) :=
| Ret (a : A)
| Raise (e : exn)
| OutOfFuel.
Arguments Ret {A} a.
Arguments Raise {A} e.
Arguments OutOfFuel {A}.

Definition M (A : Type) : Type := world → outcome A * world.

#[export] Instance M_ret : MRet M := λ A a w, (Ret a, w).

#[export] Instance M_bind : MBind M := λ A B f m w,
  match m w with
  | (Ret a, w') => f a w'
  | (Raise e, w') => (Raise e, w')
  | (OutOfFuel, w') => (OutOfFuel, w')
  end.

Definition raise {A} (e : exn) : M A := λ w, (Raise e, w).

Definition out_of_fuel {A} : M A := λ w, (OutOfFuel, w).

(** [try: m  except C as e: h e], where [catches] is [isinstance(e, C)] *)
Definition try_except {A} (m : M A) (catches : exn → bool) (h : exn → M A)
  : M A := λ w,
  match m w with
  | (Raise e, w') => if catches e then h e w' else (Raise e, w')
  | r => r
  end.

(** The world after the events [evs]. *)
Definition add_events (evs : list event) (w : world) : world :=
  {| files := files w; dirs := dirs w; history := history w;
     trace := trace w ++ evs |}.

Definition emit (ev : event) : M unit := λ w, (Ret (), add_events [ev] w).

Definition log (l : level) (m : message) : M unit := emit (Ev_log l m).

Definition sleep (seconds : nat) : M unit := emit (Ev_sleep seconds).

Definition get_files : M file_map := λ w, (Ret (files w), w).

(** The world once the files have become [fs]. *)
Definition put_files (fs : file_map) (w : world) : world :=
  {| files := fs; dirs := dirs w; history := history w ++ [fs];
     trace := trace w |}.

Definition set_files (fs : file_map) : M unit := λ w,
  (Ret (), put_files fs w).

Definition add_dir (d : str) : M unit := λ w,
  (Ret (), {| files := files w; dirs := {[d]} ∪ dirs w;
              history := history w; trace := trace w |}).

(** The result of an external call that may raise. *)
Definition lift {A} (r : exn + A) : M A :=
  match r with
  | inl e => raise e
  | inr a => mret a
  end.

Definition fault (f : option exn) : M unit :=
  match f with
  | Some e => raise e
  | None => mret ()
  end.

(** [os.path.exists(p)] and [os.path.isdir(p)] *)
Definition path_exists (p : str) : M bool := λ w,
  (Ret (bool_decide (p ∈ dirs w) || bool_decide (is_Some (files w !! p))), w).

Definition path_isdir (p : str) : M bool := λ w,
  (Ret (bool_decide (p ∈ dirs w)), w).

(** ** The calls into the operating system and the libraries *)

Section Calls.

Context (E : env).

(** The gate's [with open(file_path, 'a'): break].  Opening for append
    leaves the content of a file as it is, and creates the file, empty, when
    there is none. *)
Definition open_append (file_path : str) (attempt : nat) : M unit :=
  emit (Ev_open_append file_path);;
  fault (open_for_append E attempt);;
  fs ← get_files;
  match fs !! file_path with
  | Some _ => mret ()
  | None => set_files (<[file_path := []]> fs)
  end.

(** [Image.open(image_path)] followed by the decoding of the data *)
Definition Image_open (image_path : str) (attempt : nat) : M image :=
  emit (Ev_image_open image_path);;
  lift (image_open E attempt).

(** [pytesseract.image_to_string(img)] *)
Definition pytesseract_image_to_string (img : image) : M str :=
  emit (Ev_image_to_string img);;
  lift (image_to_string E img).

(** [uuid.uuid4().hex] *)
Definition uuid4_hex : M str :=
  emit Ev_uuid4;;
  mret (Uuid.hex (Uuid.uuid4_int (urandom16 E))).

(** [os.makedirs(d)]: of the directories it makes, [d] itself is recorded;
    those above [d], which it makes when they are missing, are not *)
Definition os_makedirs (d : str) : M unit :=
  emit (Ev_makedirs d);;
  fault (fault_makedirs E);;
  there ← path_exists d;
  if (there : bool) then raise FileExistsError else add_dir d.

(** [os.rename(src, dst)] of a file: [dst] is replaced when it is there *)
Definition os_rename (src dst : str) : M unit :=
  fault (fault_rename E);;
  fs ← get_files;
  match fs !! src with
  | None => raise FileNotFoundError
  | Some content =>
      d ← path_isdir dst;
      if (d : bool) then raise OSError
      else set_files (<[dst := content]> (delete src fs))
  end.

(** [shutil.copy2(src, dst)] of a regular file:
<<
    if os.path.isdir(dst):
        dst = os.path.join(dst, os.path.basename(src))
    copyfile(src, dst)
    copystat(src, dst)
>>
    where [copyfile] raises [SameFileError] for the same file, opens
    [src] for reading and [dst] for writing, which empties it, and copies.
    The copy can fail before the destination is opened, or after a part of
    the content has been written there (all of it, when it is [copystat]
    that fails); the part stays. *)
Definition shutil_copy2 (src dst : str) : M unit :=
  d ← path_isdir dst;
  let dst := if (d : bool) then OsPath.join dst (OsPath.basename src)
             else dst in
  fs ← get_files;
  match fs !! src with
  | None => raise FileNotFoundError
  | Some content =>
      if bool_decide (src = dst) then raise ShutilError   (* SameFileError *)
      else
        match fault_copy E with
        | None => set_files (<[dst := content]> fs)
        | Some e =>
            match copy_written E with
            | None => raise e
            | Some k => set_files (<[dst := take k content]> fs);; raise e
            end
        end
  end.

(** [os.unlink(src)] *)
Definition os_unlink (src : str) : M unit :=
  fault (fault_unlink E);;
  fs ← get_files;
  match fs !! src with
  | None => raise FileNotFoundError
  | Some _ => set_files (delete src fs)
  end.

(** The last step of [shutil.move], for a regular file [src]:
<<
    try:
        os.rename(src, real_dst)
    except OSError:
        copy_function(src, real_dst)
        os.unlink(src)
>> *)
Definition rename_or_copy (src real_dst : str) : M unit :=
  try_except (os_rename src real_dst) isinstance_OSError
    (λ _, shutil_copy2 src real_dst;; os_unlink src).

(** [shutil.move(src, dst)] of a regular file [src]:
<<
    real_dst = dst
    if os.path.isdir(dst):
        real_dst = os.path.join(dst, _basename(src))
        if os.path.exists(real_dst):
            raise Error("Destination path '%s' already exists" % real_dst)
    (the last step)
    return real_dst
>> *)
Definition shutil_move (src dst : str) : M str :=
  emit (Ev_move src dst);;
  d ← path_isdir dst;
  real_dst ←
    (if (d : bool) then
       let real_dst := OsPath.join dst (OsPath.basename src) in
       there ← path_exists real_dst;
       if (there : bool) then raise ShutilError else mret real_dst
     else mret dst);
  rename_or_copy src real_dst;;
  mret real_dst.

End Calls.

(** ** The program *)

(** [watchdog]'s event *)
Record file_system_event := {
  src_path : str;
  is_directory : bool
}.

(** [POFileHandler]'s attributes *)
Record POFileHandler := {
  parent_directory : str;
  finished_directory : str;
  error_directory : str
}.

(** The truth value of [m.group() if m else None] in [if po_number:] *)
Definition truthy (po_number : option str) : bool :=
  match po_number with
  | Some (_ :: _) => true
  | _ => false
  end.

(** A local variable that may not be bound yet; reading it unbound raises
    [UnboundLocalError]. *)
Definition read_local {A} (x : option A) : M A :=
  match x with
  | Some a => mret a
  | None => raise OtherException
  end.

Section Program.

Context (E : env).

(** *** The filer: the same text in scanner.py (lines 60 to 81) and
    scannertest.py (lines 86 to 107) *)

Definition rename_and_move (self : POFileHandler) (file_path po_number : str)
  : M unit :=
  let file_extension := (OsPath.splitext file_path).2 in
  uuid_hex ← uuid4_hex E;
  let new_file_name := po_number ++ u "_" ++ take 6 uuid_hex ++ file_extension in
  let destination_path := OsPath.join (finished_directory self) new_file_name in
  there ← path_exists (finished_directory self);
  (if negb (there : bool) then
     os_makedirs E (finished_directory self);;
     log INFO (Created_finished_directory (finished_directory self))
   else mret ());;
  shutil_move E file_path destination_path;;
  log INFO (File_renamed_and_moved new_file_name destination_path).

Definition handle_no_po_numbers (self : POFileHandler) (file_path : str)
  : M unit :=
  there ← path_exists (error_directory self);
  (if negb (there : bool) then
     os_makedirs E (error_directory self);;
     log INFO (Created_error_directory (error_directory self))
   else mret ());;
  let error_file_path :=
    OsPath.join (error_directory self) (OsPath.basename file_path) in
  shutil_move E file_path error_file_path;;
  log WARNING (File_with_no_PO_number_moved error_file_path).

End Program.

(** *** scannertest.py *)
Module Scannertest.
Section Program.

Context (E : env).

(** The loop of [extract_po_number_from_image],
<<
        for tries in range(file_access_tries):
            try:
                img = Image.open(image_path)
                img.load()
                break
            except IOError:
                logging.info(f"Image '{image_path}' is locked. Retrying ...")
                time.sleep(1)
>>
    over what is left of the range; [tries] and [img] are the two local
    variables as the loop leaves them. *)
Fixpoint load_image_loop (image_path : str) (file_access_tries : nat)
    (range : list nat) (tries : option nat) (img : option image)
  : M (option nat * option image) :=
  match range with
  | [] => mret (tries, img)
  | t :: range' =>
      loaded ←
        try_except
          (i ← Image_open E image_path t; mret (Some i))
          isinstance_OSError
          (λ _, log INFO (Image_is_locked_Retrying image_path (t + 1)
                            file_access_tries);;
                sleep 1;;
                mret None);
      match loaded with
      | Some i => mret (Some t, Some i)       (* break *)
      | None =>
          load_image_loop image_path file_access_tries range' (Some t) img
      end
  end.

Definition extract_po_number_from_image (image_path : str) : M (option str) :=
  try_except
    (let file_access_tries := 5%nat in
     locals ← load_image_loop image_path file_access_tries
                (seq 0 file_access_tries) None None;
     tries ← read_local (fst (locals : option nat * option image));
     if bool_decide (tries = (file_access_tries - 1)%nat) then
       log ERROR (Max_retries_reached image_path);;
       mret None
     else
       img ← read_local (snd locals);
       ocr_result ← pytesseract_image_to_string E img;
       log INFO (OCR_raw_output ocr_result);;
       let po_number := Re.search po_pattern ocr_result in
       mret (Re.group_or_None po_number))
    isinstance_Exception
    (λ e, log ERROR (Error_processing_image image_path e);; mret None).

(** The gate of [on_created],
<<
            while True:
                try:
                    with open(file_path, 'a'):
                        break
                except IOError:
                    logging.info(f"Waiting for file access: {file_path}")
                    time.sleep(2)
>>
    Every turn of the loop takes one unit of [fuel]. *)
Fixpoint wait_for_file_access (fuel : nat) (file_path : str) (attempt : nat)
  : M unit :=
  match fuel with
  | O => out_of_fuel
  | S fuel' =>
      opened ←
        try_except
          (open_append E file_path attempt;; mret true)
          isinstance_OSError
          (λ _, log INFO (Waiting_for_file_access file_path);;
                sleep 2;;
                mret false);
      if (opened : bool) then mret ()     (* break *)
      else wait_for_file_access fuel' file_path (S attempt)
  end.

(** What [on_created] does once the gate is passed (lines 67 to 84):
<<
            if file_path.lower().endswith('.png'):
                try:
                    po_number = extract_po_number_from_image(file_path)
                    if po_number:
                        logging.info(f"Extracted PO Number: {po_number}")
                        self.rename_and_move(file_path, po_number)
                    else:
                        logging.info("PO Number could not be extracted.")
                        self.handle_no_po_numbers(file_path)
                except PermissionError as e:
                    logging.error(f"permission error while processing ...")
            else:
                logging.warning(f"Unsupported file format detected: ...")
>> *)
Definition classify_and_file (self : POFileHandler) (file_path : str)
  : M unit :=
  if endswith (Unicode.lower file_path) (u ".png") then
    try_except
      (po_number ← extract_po_number_from_image file_path;
       if truthy po_number then
         log INFO (Extracted_PO_Number (default [] po_number));;
         rename_and_move E self file_path (default [] po_number)
       else
         log INFO PO_Number_could_not_be_extracted;;
         handle_no_po_numbers E self file_path)
      isinstance_PermissionError
      (λ e, log ERROR (Permission_error_while_processing file_path e))
  else
    log WARNING (Unsupported_file_format file_path).

Definition on_created (fuel : nat) (self : POFileHandler)
    (event : file_system_event) : M unit :=
  if negb (is_directory event) then
    let file_path := src_path event in
    log INFO (New_file_detected file_path);;
    sleep 3;;
    wait_for_file_access fuel file_path 0;;
    classify_and_file self file_path
  else mret ().

End Program.
End Scannertest.

(** *** scanner.py *)
Module Scanner.
Section Program.

Context (E : env).

Definition extract_po_number_from_image (image_path : str) : M (option str) :=
  try_except
    (img ← Image_open E image_path 0;
     ocr_result ← pytesseract_image_to_string E img;
     let po_number_match := Re.search po_pattern_plain ocr_result in
     match po_number_match with
     | Some m =>
         log INFO (PO_Number_found_in_image (snd m) image_path);;
         mret (Some (snd m))
     | None =>
         log WARNING (No_PO_Number_found_in_image image_path);;
         mret None
     end)
    isinstance_Exception
    (λ e, log ERROR (Error_processing_image image_path e);; mret None).

(** The condition of the gate's loop,
    [not os.path.exists(file_path) or (os.path.isfile(file_path) and
     os.stat(file_path).st_size == 0)] *)
Definition not_written_yet (file_path : str) (attempt : nat) : M bool :=
  emit (Ev_stat file_path);;
  let o := observe E attempt in
  if negb (obs_exists o) then mret true
  else if obs_isfile o then
    st_size ← lift (obs_st_size o);
    mret (st_size =? 0)
  else mret false.

(** The gate of [on_created],
<<
            while not os.path.exists(file_path) or (...):
                logging.info(f"Waiting for file to finish writing: ...")
                time.sleep(1)
>>
    Every test of the condition takes one unit of [fuel]. *)
Fixpoint wait_for_file (fuel : nat) (file_path : str) (attempt : nat)
  : M unit :=
  match fuel with
  | O => out_of_fuel
  | S fuel' =>
      waiting ← not_written_yet file_path attempt;
      if (waiting : bool) then
        log INFO (Waiting_for_file_to_finish_writing file_path);;
        sleep 1;;
        wait_for_file fuel' file_path (S attempt)
      else mret ()
  end.

(** What [on_created] does once the gate is passed (lines 48 to 58):
<<
            if file_path.lower().endswith('.png'):
                po_number = extract_po_number_from_image(file_path)
                if po_number:
                    logging.info(f"Extracted PO Number: {po_number}")
                    self.rename_and_move(file_path, po_number)
                else:
                    logging.info("PO Number could not be extracted.")
                    self.handle_no_po_numbers(file_path)
            else:
                logging.warning(f"Unsupported file format detected: ...")
>> *)
Definition classify_and_file (self : POFileHandler) (file_path : str)
  : M unit :=
  if endswith (Unicode.lower file_path) (u ".png") then
    po_number ← extract_po_number_from_image file_path;
    if truthy po_number then
      log INFO (Extracted_PO_Number (default [] po_number));;
      rename_and_move E self file_path (default [] po_number)
    else
      log INFO PO_Number_could_not_be_extracted;;
      handle_no_po_numbers E self file_path
  else
    log WARNING (Unsupported_file_format file_path).

Definition on_created (fuel : nat) (self : POFileHandler)
    (event : file_system_event) : M unit :=
  if negb (is_directory event) then
    let file_path := src_path event in
    log INFO (New_file_detected file_path);;
    wait_for_file fuel file_path 0;;
    classify_and_file self file_path
  else mret ().

End Program.
End Scanner.

(** ** Observations on runs *)

Definition is_image_open (ev : event) : bool :=
  match ev with Ev_image_open _ => true | _ => false end.

Definition is_ocr (ev : event) : bool :=
  match ev with Ev_image_to_string _ => true | _ => false end.

Definition is_sleep (ev : event) : bool :=
  match ev with Ev_sleep _ => true | _ => false end.

Definition is_unsupported (ev : event) : bool :=
  match ev with
  | Ev_log _ (Unsupported_file_format _) => true
  | _ => false
  end.

(** How many events of a kind a trace holds. *)
Definition count (kind : event → bool) (t : list event) : nat :=
  length (filter (λ ev, kind ev = true) t).

(** The events of one failed attempt of the loop that loads the image, and
    of the first [n] of them. *)
Definition load_retry (image_path : str) (total : nat) (t : nat)
  : list event :=
  [ Ev_image_open image_path;
    Ev_log INFO (Image_is_locked_Retrying image_path (t + 1) total);
    Ev_sleep 1 ].

Definition load_retries (image_path : str) (total : nat) (n : nat)
  : list event :=
  flat_map (load_retry image_path total) (seq 0 n).

(** The events of [n] failed attempts of the gate of scannertest.py, and of
    scanner.py. *)
Fixpoint access_waits (file_path : str) (n : nat) : list event :=
  match n with
  | O => []
  | S n' =>
      [ Ev_open_append file_path;
        Ev_log INFO (Waiting_for_file_access file_path);
        Ev_sleep 2 ] ++ access_waits file_path n'
  end.

Fixpoint writing_waits (file_path : str) (n : nat) : list event :=
  match n with
  | O => []
  | S n' =>
      [ Ev_stat file_path;
        Ev_log INFO (Waiting_for_file_to_finish_writing file_path);
        Ev_sleep 1 ] ++ writing_waits file_path n'
  end.

(** A world with the given files and directories and nothing done yet. *)
Definition initial_world (fs : file_map) (ds : gset str) : world :=
  {| files := fs; dirs := ds; history := []; trace := [] |}.

(** ** Reasoning about runs *)

(** [m], started in a world of [P], leaves a world of [Q], however it
    ends. *)
Definition triple {A} (P : world → Prop) (m : M A) (Q : world → Prop)
  : Prop :=
  ∀ w, P w → Q (m w).2.

(** [m] ends by returning, or in one of the ways of [S]: [Some e] stands
    for raising [e], [None] for running out of fuel. *)
Definition exits {A} (S : option exn → Prop) (m : M A) : Prop :=
  ∀ w, match (m w).1 with
       | Ret _ => True
       | Raise e => S (Some e)
       | OutOfFuel => S None
       end.

Definition no_exit : option exn → Prop := λ _, False.

Definition only_raise : option exn → Prop := λ x, x ≠ None.

Definition not_raising (bad : exn → bool) : option exn → Prop :=
  λ x, ∀ e, x = Some e → bad e = false.

(** The handler has returned. *)
Definition is_ret {A : Type} (o : outcome A) : bool :=
  match o with Ret _ => true | _ => false end.

(** When [m] returns, [φ] holds of what it returns and of the world it
    leaves. *)
Definition on_return {A : Type} (φ : A → world → Prop) (m : M A) : Prop :=
  ∀ w, match (m w).1 with
       | Ret a => φ a (m w).2
       | _ => True
       end.

(** An invariant that does not look at the events, at the directories, at
    the files. *)
Definition events_blind (I : world → Prop) : Prop :=
  ∀ ev w, I w → I (add_events [ev] w).

Definition dirs_blind (I : world → Prop) : Prop :=
  ∀ d w, I w → I (add_dir d w).2.

Definition files_blind (I : world → Prop) : Prop :=
  ∀ fs w, I w → I (put_files fs w).

(** ** The properties of the search *)

(** A pattern whose anchored match is the longest word at its offset. *)
Definition longest_first (p : Re.pattern) : Prop :=
  ∀ s n m rest, Re.match_here p s = Some n → s = m ++ rest → Re.lang p m →
                (length m ≤ n)%nat.

(** [PO] and one or more of the digits [dg]. *)
Definition po_tail (dg : Re.atom) : Re.pattern :=
  [ (Re.Lit chr_P, Re.One); (Re.Lit chr_O, Re.One); (dg, Re.Plus) ].

(** The first character of [s] that is not an uppercase letter is at
    offset [i]. *)
Definition upper_run (s : str) (i : nat) : Prop :=
  Forall (λ c, Re.atom_matches Re.Upper c = true) (take i s) ∧
  ∃ c, s !! i = Some c ∧ Unicode.is_ascii_upper c = false.

(** What an extractor returns: nothing, or a word of its pattern. *)
Definition token_or_None (p : Re.pattern) (r : option str) : Prop :=
  match r with
  | Some t => Re.lang p t
  | None => True
  end.

(** ** The properties of the runs *)

(** The [t]-th attempt to load the image fails in the way the loop of the
    extractor retries. *)
Definition load_fails (E : env) (t : nat) : Prop :=
  ∃ e, image_open E t = inl e ∧ isinstance_OSError e = true.

(** The [n]-th probe of the gate of scannertest.py fails. *)
Definition access_fails (E : env) (n : nat) : Prop :=
  ∃ e, open_for_append E n = Some e ∧ isinstance_OSError e = true.

(** The [n]-th look of the gate of scanner.py finds no file, or an empty
    one; it finds a file that is written. *)
Definition not_written (E : env) (n : nat) : Prop :=
  obs_exists (observe E n) = false
  ∨ (obs_exists (observe E n) = true ∧ obs_isfile (observe E n) = true
     ∧ obs_st_size (observe E n) = inr 0).

Definition written (E : env) (n : nat) : Prop :=
  obs_exists (observe E n) = true
  ∧ (obs_isfile (observe E n) = false
     ∨ ∃ size, obs_st_size (observe E n) = inr size ∧ size ≠ 0).

(** The first events of the handler of scanner.py, and of
    scannertest.py. *)
Definition seen (file_path : str) : list event :=
  [ Ev_log INFO (New_file_detected file_path) ].

Definition settled (file_path : str) : list event :=
  [ Ev_log INFO (New_file_detected file_path); Ev_sleep 3 ].

(** The trace is [t0]; it has grown from [t0]. *)
Definition at_trace (t0 : list event) (w : world) : Prop := trace w = t0.

Definition grown_from (t0 : list event) (w : world) : Prop :=
  ∃ evs, trace w = t0 ++ evs.

(** The last event is an entry of the log; it is the entry of the handler
    that caught a [PermissionError]. *)
Definition ends_with_log (w : world) : Prop :=
  ∃ l m, last (trace w) = Some (Ev_log l m).

Definition ends_with_permission_error (t : list event) : bool :=
  match last t with
  | Some (Ev_log ERROR (Permission_error_while_processing _ _)) => true
  | _ => false
  end.

(** The events that neither read the image nor file it. *)
Definition quiet (ev : event) : bool :=
  match ev with
  | Ev_log _ _ | Ev_sleep _ | Ev_open_append _ | Ev_stat _ => true
  | _ => false
  end.

(** Since the trace [t0] the directories are the same and only quiet
    events have happened. *)
Definition quiet_since (t0 : list event) (d0 : gset str) (w : world) : Prop :=
  dirs w = d0 ∧ ∃ evs, trace w = t0 ++ evs ∧ Forall (λ ev, quiet ev = true) evs.

(** The eight spellings of the extension. *)
Definition png_spellings : list str :=
  c1 ← [112; 80]; c2 ← [110; 78]; c3 ← [103; 71]; [[46; c1; c2; c3]].

(** *** Where the file is *)

(** Nothing has been done to the files [fs0] yet. *)
Definition unmoved (fs0 : file_map) (h0 : list file_map) (w : world) : Prop :=
  files w = fs0 ∧ history w = h0.

(** The files once the content [b] of [src] has been copied to [dst], and
    once it has been moved there. *)
Definition copied (fs0 : file_map) (dst : str) (b : list Byte.byte)
  : file_map := <[dst := b]> fs0.

Definition moved (fs0 : file_map) (src dst : str) (b : list Byte.byte)
  : file_map := <[dst := b]> (delete src fs0).

(** The files once the first [k] bytes of the content [b] of [src] have
    been written to [dst] by a copy that then failed. *)
Definition partly_copied (fs0 : file_map) (dst : str) (b : list Byte.byte)
    (k : nat) : file_map := <[dst := take k b]> fs0.

(** [os.rename] fails with an error after which [shutil.move] copies. *)
Definition renaming_falls_back (E : env) : Prop :=
  ∃ e, fault_rename E = Some e ∧ isinstance_OSError e = true.

(** The path [shutil.move(src, dst)] settles on in the world [w], its
    [real_dst]: inside [dst] when [dst] is a directory. *)
Definition real_destination (w : world) (src dst : str) : str :=
  if bool_decide (dst ∈ dirs w) then OsPath.join dst (OsPath.basename src)
  else dst.

(** The states [hs] that the files [fs0] go through, oldest first, when
    the file [src], of content [b], is filed at [dst]:
    - none: the file is not touched;
    - the file moved, when [os.rename] works;
    - when [os.rename] fails and [shutil.move] copies: a part of the file
      copied, when the copy fails having written it; or the file copied,
      when [os.unlink] then fails; or the file copied and then moved. *)
Definition filing_states (E : env) (fs0 : file_map) (src dst : str)
    (b : list Byte.byte) (hs : list file_map) : Prop :=
  hs = []
  ∨ (hs = [moved fs0 src dst b] ∧ fault_rename E = None)
  ∨ (src ≠ dst ∧ renaming_falls_back E
     ∧ ((∃ k, hs = [partly_copied fs0 dst b k]
              ∧ is_Some (fault_copy E) ∧ copy_written E = Some k)
        ∨ (hs = [copied fs0 dst b]
           ∧ fault_copy E = None ∧ is_Some (fault_unlink E))
        ∨ (hs = [copied fs0 dst b; moved fs0 src dst b]
           ∧ fault_copy E = None ∧ fault_unlink E = None))).

(** The file [src], of content [b], has been filed at [dst] at most once
    since the files were [fs0] and their history [h0]: the files have gone
    through the states of one filing at [dst], they are in the last of
    them, and the file is moved when [returned] holds. *)
Definition filed (E : env) (fs0 : file_map) (h0 : list file_map)
    (src dst : str) (b : list Byte.byte) (returned : bool) (w : world)
  : Prop :=
  ∃ hs,
    history w = h0 ++ hs
    ∧ files w = default fs0 (last hs)
    ∧ filing_states E fs0 src dst b hs
    ∧ (returned = true → files w = moved fs0 src dst b).

(** Nothing has been done to the files [fs0] yet, and [d] is a directory
    or not as [isd] says. *)
Definition unmoved_with (fs0 : file_map) (h0 : list file_map) (d : str)
    (isd : bool) (w : world) : Prop :=
  files w = fs0 ∧ history w = h0 ∧ bool_decide (d ∈ dirs w) = isd.

(** [m], run on files nothing has been done to, files the file [src] at
    most once, and where [shutil.move] settles when it is asked for [d];
    it has moved it when it returns and [c] holds of the trace. *)
Definition filing {A : Type} (E : env) (fs0 : file_map) (h0 : list file_map)
    (src d : str) (isd : bool) (b : list Byte.byte) (c : list event → bool)
    (m : M A) : Prop :=
  ∀ w, unmoved_with fs0 h0 d isd w →
       filed E fs0 h0 src
         (if isd then OsPath.join d (OsPath.basename src) else d) b
         (c (trace (m w).2) && is_ret (m w).1) (m w).2.

(** ** Example data *)

Definition example_handler : POFileHandler :=
  {| parent_directory := u "/renamescans";
     finished_directory := u "/renamescans/wavesfinished";
     error_directory := u "/renamescans/wavesfinished/UncapturedPO" |}.

Definition example_png : str := u "/renamescans/waves/scan1.png".

Definition example_PNG : str := u "/renamescans/waves/scan2.PNG".

Definition example_txt : str := u "/renamescans/waves/notes.txt".

Definition example_content : list Byte.byte :=
  [Byte.x89; Byte.x50; Byte.x4e; Byte.x47].

Definition created (file_path : str) : file_system_event :=
  {| src_path := file_path; is_directory := false |}.

(** The intake directory holds the one file [file_path]; the three
    directories are there. *)
Definition example_world (file_path : str) : world :=
  initial_world {[ file_path := example_content ]}
    {[ u "/renamescans"; u "/renamescans/waves";
       u "/renamescans/wavesfinished";
       u "/renamescans/wavesfinished/UncapturedPO" ]}.

Definition file_written : observation :=
  {| obs_exists := true; obs_isfile := true; obs_st_size := inr 4 |}.

Definition file_missing : observation :=
  {| obs_exists := false; obs_isfile := false;
     obs_st_size := inl FileNotFoundError |}.

Definition example_env (opens : nat → option exn) (sees : nat → observation)
    (loads : nat → exn + image) (text : exn + str)
    (rename copy unlink : option exn) : env :=
  {| open_for_append := opens;
     observe := sees;
     image_open := loads;
     image_to_string := λ _, text;
     urandom16 := 0xabcdef0123456789abcdef0123456789;
     fault_makedirs := None;
     fault_rename := rename;
     fault_copy := copy;
     fault_unlink := unlink;
     copy_written := Some 2%nat |}.

(** Everything works, and the engine reads a PO number. *)
Definition env_fine : env :=
  example_env (λ _, None) (λ _, file_written) (λ _, inr (Image 1))
    (inr (u "Invoice for PO904821")) None None None.

(** The engine reads the text of the example of the specification. *)
Definition env_ref : env :=
  example_env (λ _, None) (λ _, file_written) (λ _, inr (Image 1))
    (inr (u "Ref: 99 APO1023 see PO55")) None None None.

(** The file stays locked, and unseen, for ever. *)
Definition env_locked : env :=
  example_env (λ _, Some PermissionError) (λ _, file_missing)
    (λ _, inr (Image 1)) (inr (u "Invoice for PO904821")) None None None.

(** The file is locked for the first two probes. *)
Definition env_locked_twice : env :=
  example_env (λ n, if (n <? 2)%nat then Some PermissionError else None)
    (λ n, if (n <? 2)%nat then file_missing else file_written)
    (λ _, inr (Image 1)) (inr (u "Invoice for PO904821")) None None None.

(** The image loads at the fifth attempt, the last one. *)
Definition env_loads_last : env :=
  example_env (λ _, None) (λ _, file_written)
    (λ t, if (t <? 4)%nat then inl OSError else inr (Image 1))
    (inr (u "Invoice for PO904821")) None None None.

(** The image never loads. *)
Definition env_never_loads : env :=
  example_env (λ _, None) (λ _, file_written) (λ _, inl OSError)
    (inr (u "Invoice for PO904821")) None None None.

(** The finished directory is on another volume, which is full. *)
Definition env_disk_full : env :=
  example_env (λ _, None) (λ _, file_written) (λ _, inr (Image 1))
    (inr (u "Invoice for PO904821")) (Some OSError) (Some OSError) None.

(** The scanner still holds the file: it can be read, hence copied, but
    neither renamed nor removed. *)
Definition env_held : env :=
  example_env (λ _, None) (λ _, file_written) (λ _, inr (Image 1))
    (inr (u "Invoice for PO904821")) (Some PermissionError) None
    (Some PermissionError).

(** The finished directory is on another volume: [os.rename] fails, and
    [shutil.move] copies the file and removes it. *)
Definition env_other_volume : env :=
  example_env (λ _, None) (λ _, file_written) (λ _, inr (Image 1))
    (inr (u "Invoice for PO904821")) (Some OSError) None None.

(** The image is too large for the decoder: it raises an error that is no
    [IOError] (Pillow's [DecompressionBombError]). *)
Definition env_image_too_large : env :=
  example_env (λ _, None) (λ _, file_written) (λ _, inl OtherException)
    (inr (u "Invoice for PO904821")) None None None.

Definition file_empty : observation :=
  {| obs_exists := true; obs_isfile := true; obs_st_size := inr 0 |}.

(** The file stays empty. *)
Definition env_empty_file : env :=
  example_env (λ _, None) (λ _, file_empty) (λ _, inr (Image 1))
    (inr (u "Invoice for PO904821")) None None None.

(** ** More about the parser *)

(** The text [t] has "PO" and a decimal digit at offset [i]. *)
Definition po_digit_at (t : str) (i : nat) : Prop :=
  t !! i = Some chr_P ∧ t !! S i = Some chr_O
  ∧ ∃ c, t !! S (S i) = Some c ∧ Unicode.is_decimal c = true.

(** The search of scanner.py, as [extract_po_number_from_image] has it. *)
Definition plain_PO_number_from_text (ocr_text : str) : option str :=
  Re.group_or_None (Re.search po_pattern_plain ocr_text).

(** A character of a token: an ASCII capital or a decimal digit. *)
Definition is_token_char (c : N) : bool :=
  Unicode.is_ascii_upper c || Unicode.is_decimal c.

(** ** More about the names *)

(** The first three of the sixteen random bytes of a [uuid4], as a
    number. *)
Definition first_three_bytes (random16 : N) : N :=
  (random16 mod 2 ^ 128) / 2 ^ 104.

(** The six characters [rename_and_move] puts into the name:
    [uuid.uuid4().hex[:6]]. *)
Definition name_suffix (E : env) : str :=
  take 6 (Uuid.hex (Uuid.uuid4_int (urandom16 E))).

(** ** More about the handlers *)

Definition is_move (ev : event) : bool :=
  match ev with
  | Ev_move _ _ => true
  | _ => false
  end.

Definition is_makedirs (ev : event) : bool :=
  match ev with
  | Ev_makedirs _ => true
  | _ => false
  end.

(** Since the trace [t0], [shutil.move] has only been asked for moves
    that [ok] allows. *)
Definition moves_within (ok : str → str → Prop) (t0 : list event)
    (w : world) : Prop :=
  ∃ evs, trace w = t0 ++ evs ∧ ∀ s d, Ev_move s d ∈ evs → ok s d.

(** The moves of a handler whose extractor searches [pattern]: of the file
    [p] of the event, to a file of the finished directory named after a
    word of [pattern], or to the file of the error directory that has the
    base name of [p]; the destination has no directory between it and the
    one of the two it is joined to. *)
Definition handler_move (E : env) (pattern : Re.pattern)
    (self : POFileHandler) (p s d : str) : Prop :=
  s = p
  ∧ ∃ name,
      OsPath.basename d = name
      ∧ ((d = OsPath.join (finished_directory self) name
          ∧ ∃ po, Re.lang pattern po
                  ∧ name = po ++ u "_" ++ name_suffix E
                           ++ (OsPath.splitext p).2)
         ∨ (d = OsPath.join (error_directory self) name
            ∧ name = OsPath.basename p)).

(** Since the directories were [d0], only directories of [allowed] have
    been made, and none has been removed. *)
Definition dirs_within (d0 allowed : gset str) (w : world) : Prop :=
  d0 ⊆ dirs w ∧ dirs w ⊆ d0 ∪ allowed.

(** Since the trace [t0], [os.makedirs] has only been called for
    directories of [allowed]. *)
Definition makedirs_within (allowed : gset str) (t0 : list event)
    (w : world) : Prop :=
  ∃ evs, trace w = t0 ++ evs ∧ ∀ d, Ev_makedirs d ∈ evs → d ∈ allowed.

(** The directories and the calls of [os.makedirs], together. *)
Definition made_within (d0 allowed : gset str) (t0 : list event)
    (w : world) : Prop :=
  dirs_within d0 allowed w ∧ makedirs_within allowed t0 w.

(** ** The answer of the extractors *)

(** scanner.py: the token of the text the engine reads in the image, when
    both the image and the text are there. *)
Definition Scanner_answer (E : env) : option str :=
  match image_open E 0 with
  | inl _ => None
  | inr img =>
      match image_to_string E img with
      | inl _ => None
      | inr text => plain_PO_number_from_text text
      end
  end.

(** The attempt of [range] that ends the loop of scannertest.py: the first
    that loads the image, or fails otherwise than with an [IOError]. *)
Fixpoint ending_attempt (E : env) (range : list nat)
  : option (nat * (exn + image)) :=
  match range with
  | [] => None
  | t :: range' =>
      match image_open E t with
      | inl e =>
          if isinstance_OSError e then ending_attempt E range'
          else Some (t, inl e)
      | inr img => Some (t, inr img)
      end
  end.

(** scannertest.py: the token of the text the engine reads in the image,
    when the image has loaded at one of the first four attempts. *)
Definition Scannertest_answer (E : env) : option str :=
  match ending_attempt E (seq 0 5) with
  | Some (t, inr img) =>
      if bool_decide (t = 4%nat) then None
      else
        match image_to_string E img with
        | inl _ => None
        | inr text => get_PO_number_from_text text
        end
  | _ => None
  end.

(** Where the handlers file the file [file_path] when the extractor has
    answered [po_number]. *)
Definition destination (E : env) (self : POFileHandler) (file_path : str)
    (po_number : option str) : str :=
  if truthy po_number then
    OsPath.join (finished_directory self)
      (default [] po_number ++ u "_" ++ name_suffix E
       ++ (OsPath.splitext file_path).2)
  else
    OsPath.join (error_directory self) (OsPath.basename file_path).

(** The directory of that destination, which the filer makes when it is
    missing. *)
Definition target_directory (self : POFileHandler) (po_number : option str)
  : str :=
  if truthy po_number then finished_directory self else error_directory self.

(** [not os.path.exists(d)] in the world [w] *)
Definition missing (w : world) (d : str) : bool :=
  negb (bool_decide (d ∈ dirs w) || bool_decide (is_Some (files w !! d))).

(** The exception that leaves [shutil.move] of a regular file to a free
    path: the one of [os.rename] when it is no [OSError]; else the one of
    the copy, or of [os.unlink] after it. *)
Definition move_error (E : env) : option exn :=
  match fault_rename E with
  | None => None
  | Some e =>
      if isinstance_OSError e then
        match fault_copy E with
        | Some e' => Some e'
        | None => fault_unlink E
        end
      else Some e
  end.

(** The exception that leaves the filer: the one of [os.makedirs], which
    is called when the directory is missing, else the one of
    [shutil.move]. *)
Definition filing_error (E : env) (directory_missing : bool) : option exn :=
  if directory_missing then
    match fault_makedirs E with
    | Some e => Some e
    | None => move_error E
    end
  else move_error E.

(** The exception that reaches the [except Exception] of the extractor
    of scanner.py, and of scannertest.py. *)
Definition Scanner_raised (E : env) : option exn :=
  match image_open E 0 with
  | inl e => Some e
  | inr img =>
      match image_to_string E img with
      | inl e => Some e
      | inr _ => None
      end
  end.

Definition Scannertest_raised (E : env) : option exn :=
  match ending_attempt E (seq 0 5) with
  | Some (t, inl e) => Some e
  | Some (t, inr img) =>
      if bool_decide (t = 4%nat) then None
      else
        match image_to_string E img with
        | inl e => Some e
        | inr _ => None
        end
  | None => None
  end.

(** The files and the directories of [w] are those of [w0]. *)
Definition same_files_and_dirs (w0 w : world) : Prop :=
  files w = files w0 ∧ dirs w = dirs w0.

(** ** The start of the programs

    [check_dependencies] and the part of the [__main__] block that runs
    before the observer is started: the layout of the directories, the
    search for Tesseract, the making of the directories.  What follows in
    the source, the observer's thread and the loop that sleeps until a
    [KeyboardInterrupt], is the library's and is not modelled; the
    observer calls [on_created] above for the events of the directory it
    is scheduled on. *)
Module Startup.

(** [s.rstrip(c)] for a one-character [c] *)
Fixpoint rstrip (s : str) (c : N) : str :=
  match s with
  | [] => []
  | x :: s' =>
      match rstrip s' c with
      | [] => if x =? c then [] else [x]
      | r => x :: r
      end
  end.

(** [os.path.dirname(p)] (posixpath):
<<
    i = p.rfind(sep) + 1
    head = p[:i]
    if head and head != sep*len(head):
        head = head.rstrip(sep)
    return head
>> *)
Definition dirname (p : str) : str :=
  let i := (rfind p OsPath.sep + 1)%Z in
  let head := slice_to p i in
  if negb (bool_decide (head = []))
     && negb (bool_decide (head = replicate (length head) OsPath.sep))
  then rstrip head OsPath.sep
  else head.

(** The log messages of the start. *)
Inductive startup_message :=
| Tesseract_executable_not_found
| Tessdata_directory_not_found (tessdata_dir : str)
| Tesseract_successfully_loaded (cmd : option str)
| Tesseract_not_found
| Directory_does_not_exist_Creating (folder : str)
| Monitoring_directory (waves_directory : str).

(** What ends the start before the observer runs: [sys.exit(code)], the
    [TypeError] of [os.path.dirname(None)], an exception of
    [os.makedirs]. *)
Inductive ending :=
| SystemExit (code : Z)
| TypeError
| Raised (e : exn).

(** The machine the program is started on. *)
Record system := {
  (** [getattr(sys, 'frozen', False)] *)
  frozen : bool;
  (** [sys._MEIPASS] *)
  MEIPASS : str;
  (** [shutil.which("tesseract")] *)
  which_tesseract : option str;
  (** the failures of [os.makedirs] that do not follow from the paths *)
  makedirs_fault : str → option exn
}.

(** The state of the process: the paths of the file system, the global
    [TESSERACT_CMD], [os.environ["TESSDATA_PREFIX"]],
    [pytesseract.pytesseract.tesseract_cmd], and the log. *)
Record process := {
  regular_files : gset str;
  directories : gset str;
  TESSERACT_CMD : option str;
  TESSDATA_PREFIX : option str;
  tesseract_cmd : option str;
  logged : list (level * startup_message)
}.

Inductive reply (A : Type) :=
| Done (a : A)
| Stop (e : ending).
Arguments Done {A} a.
Arguments Stop {A} e.

Definition P (A : Type) : Type := process → reply A * process.

#[export] Instance P_ret : MRet P := λ A a s, (Done a, s).

#[export] Instance P_bind : MBind P := λ A B f m s,
  match m s with
  | (Done a, s') => f a s'
  | (Stop e, s') => (Stop e, s')
  end.

Definition stop {A} (e : ending) : P A := λ s, (Stop e, s).

Definition sys_exit {A} (code : Z) : P A := stop (SystemExit code).

Definition logging (l : level) (m : startup_message) : P unit := λ s,
  (Done (),
   {| regular_files := regular_files s; directories := directories s;
      TESSERACT_CMD := TESSERACT_CMD s; TESSDATA_PREFIX := TESSDATA_PREFIX s;
      tesseract_cmd := tesseract_cmd s; logged := logged s ++ [(l, m)] |}).

Definition set_TESSERACT_CMD (v : option str) : P unit := λ s,
  (Done (),
   {| regular_files := regular_files s; directories := directories s;
      TESSERACT_CMD := v; TESSDATA_PREFIX := TESSDATA_PREFIX s;
      tesseract_cmd := tesseract_cmd s; logged := logged s |}).

Definition get_TESSERACT_CMD : P (option str) := λ s,
  (Done (TESSERACT_CMD s), s).

Definition set_TESSDATA_PREFIX (v : str) : P unit := λ s,
  (Done (),
   {| regular_files := regular_files s; directories := directories s;
      TESSERACT_CMD := TESSERACT_CMD s; TESSDATA_PREFIX := Some v;
      tesseract_cmd := tesseract_cmd s; logged := logged s |}).

Definition set_tesseract_cmd (v : option str) : P unit := λ s,
  (Done (),
   {| regular_files := regular_files s; directories := directories s;
      TESSERACT_CMD := TESSERACT_CMD s; TESSDATA_PREFIX := TESSDATA_PREFIX s;
      tesseract_cmd := v; logged := logged s |}).

(** [os.path.isfile(p)] and [os.path.exists(p)] *)
Definition os_path_isfile (p : str) : P bool := λ s,
  (Done (bool_decide (p ∈ regular_files s)), s).

Definition os_path_exists (p : str) : P bool := λ s,
  (Done (bool_decide (p ∈ regular_files s)
         || bool_decide (p ∈ directories s)), s).

(** The process after the loop of the [__main__] blocks has found that
    [folder] is missing and logged it, and after it has made it. *)
Definition noted (folder : str) (s : process) : process :=
  {| regular_files := regular_files s; directories := directories s;
     TESSERACT_CMD := TESSERACT_CMD s; TESSDATA_PREFIX := TESSDATA_PREFIX s;
     tesseract_cmd := tesseract_cmd s;
     logged := logged s
               ++ [(INFO, Directory_does_not_exist_Creating folder)] |}.

Definition made (folder : str) (s : process) : process :=
  {| regular_files := regular_files s;
     directories := {[folder]} ∪ directories s;
     TESSERACT_CMD := TESSERACT_CMD s; TESSDATA_PREFIX := TESSDATA_PREFIX s;
     tesseract_cmd := tesseract_cmd s;
     logged := logged s
               ++ [(INFO, Directory_does_not_exist_Creating folder)] |}.

Definition there (folder : str) (s : process) : bool :=
  bool_decide (folder ∈ regular_files s)
  || bool_decide (folder ∈ directories s).

(** [os.path.dirname(p)] of a value that may be [None] *)
Definition os_path_dirname (p : option str) : P str :=
  match p with
  | Some p => mret (dirname p)
  | None => stop TypeError
  end.

Section Programs.

Context (sys : system).

(** [os.makedirs(folder)]: of the directories it makes, [folder] itself is
    recorded; those above it, which it makes when they are missing, are
    not *)
Definition os_makedirs (folder : str) : P unit := λ s,
  match makedirs_fault sys folder with
  | Some e => (Stop (Raised e), s)
  | None =>
      if bool_decide (folder ∈ regular_files s)
         || bool_decide (folder ∈ directories s)
      then (Stop (Raised FileExistsError), s)
      else
        (Done (),
         {| regular_files := regular_files s;
            directories := {[folder]} ∪ directories s;
            TESSERACT_CMD := TESSERACT_CMD s;
            TESSDATA_PREFIX := TESSDATA_PREFIX s;
            tesseract_cmd := tesseract_cmd s; logged := logged s |})
  end.

(** The loop of both [__main__] blocks,
<<
    for folder in [parent_directory, waves_directory, finished_directory,
                   error_directory]:
        if not os.path.exists(folder):
            logging.info(f"Directory does not exist. Creating ...")
            os.makedirs(folder)
>> *)
Fixpoint ensure_directories (folders : list str) : P unit :=
  match folders with
  | [] => mret ()
  | folder :: folders' =>
      there ← os_path_exists folder;
      (if negb (there : bool) then
         logging INFO (Directory_does_not_exist_Creating folder);;
         os_makedirs folder
       else mret ());;
      ensure_directories folders'
  end.

End Programs.

(** What a [__main__] block hands to the observer: the handler and the
    directory it is scheduled on. *)
Record schedule := {
  event_handler : POFileHandler;
  waves_directory : str
}.

End Startup.

(** *** scannertest.py, lines 15 to 42 and 154 to 191 *)
Module ScannertestMain.
Import Startup.
Section Program.

Context (sys : system).

(** [check_dependencies]; [os.path.join] of three parts joins them from
    the left. *)
Definition check_dependencies (tesseract_path tessdata_path : option str)
  : P unit :=
  tessdata_dir ←
    (if truthy tesseract_path && truthy tessdata_path then
       set_TESSERACT_CMD tesseract_path;;
       mret (default [] tessdata_path)
     else if frozen sys then
       let base_path := MEIPASS sys in
       set_TESSERACT_CMD
         (Some (OsPath.join (OsPath.join base_path (u "Tesseract-OCR"))
                  (u "tesseract.exe")));;
       mret (OsPath.join (OsPath.join base_path (u "Tesseract-OCR"))
               (u "tessdata"))
     else
       set_TESSERACT_CMD (which_tesseract sys);;
       cmd ← get_TESSERACT_CMD;
       d ← os_path_dirname cmd;
       mret (OsPath.join d (u "tessdata")));
  cmd ← get_TESSERACT_CMD;
  missing ←
    match cmd with
    | None => mret true
    | Some c => is_file ← os_path_isfile c; mret (negb is_file)
    end;
  (if (missing : bool) then
     logging ERROR Tesseract_executable_not_found;;
     sys_exit 1
   else mret ());;
  there ← os_path_exists tessdata_dir;
  (if negb (there : bool) then
     logging ERROR (Tessdata_directory_not_found tessdata_dir);;
     sys_exit 1
   else mret ());;
  set_TESSDATA_PREFIX tessdata_dir;;
  cmd ← get_TESSERACT_CMD;
  set_tesseract_cmd cmd;;
  logging INFO (Tesseract_successfully_loaded cmd).

Definition layout (root_directory : str) : schedule :=
  let parent_directory := root_directory in
  let waves_directory := OsPath.join parent_directory (u "waves") in
  let finished_directory :=
    OsPath.join parent_directory (u "wavesfinished") in
  let error_directory := OsPath.join finished_directory (u "UncapturedPO") in
  {| event_handler :=
       {| parent_directory := parent_directory;
          finished_directory := finished_directory;
          error_directory := error_directory |};
     waves_directory := waves_directory |}.

Definition main (root_directory : str) : P schedule :=
  let sch := layout root_directory in
  check_dependencies None None;;
  ensure_directories sys
    [ parent_directory (event_handler sch); waves_directory sch;
      finished_directory (event_handler sch);
      error_directory (event_handler sch) ];;
  logging INFO (Monitoring_directory (waves_directory sch));;
  mret sch.

End Program.
End ScannertestMain.

(** *** scanner.py, lines 14 to 28 and 101 to 138 *)
Module ScannerMain.
Import Startup.
Section Program.

Context (sys : system).

Definition check_dependencies : P unit :=
  (if frozen sys then
     let base_path := MEIPASS sys in
     set_TESSERACT_CMD
       (Some (OsPath.join (OsPath.join base_path (u "Tesseract-OCR"))
                (u "tesseract.exe")))
   else
     set_TESSERACT_CMD (which_tesseract sys));;
  cmd ← get_TESSERACT_CMD;
  (if bool_decide (cmd = None) then
     logging ERROR Tesseract_not_found;;
     sys_exit 1
   else mret ());;
  d ← os_path_dirname cmd;
  set_TESSDATA_PREFIX d;;
  set_tesseract_cmd cmd.

Definition layout (root_directory : str) : schedule :=
  let parent_directory := root_directory in
  let waves_directory := OsPath.join parent_directory (u "waves") in
  let finished_directory :=
    OsPath.join parent_directory (u "wavesfinished") in
  let error_directory := OsPath.join parent_directory (u "waveserrors") in
  {| event_handler :=
       {| parent_directory := parent_directory;
          finished_directory := finished_directory;
          error_directory := error_directory |};
     waves_directory := waves_directory |}.

Definition main (root_directory : str) : P schedule :=
  let sch := layout root_directory in
  check_dependencies;;
  ensure_directories sys
    [ parent_directory (event_handler sch); waves_directory sch;
      finished_directory (event_handler sch);
      error_directory (event_handler sch) ];;
  logging INFO (Monitoring_directory (waves_directory sch));;
  mret sch.

End Program.
End ScannerMain.

(** ** Example data of the start *)

(** Tesseract is installed under /usr. *)
Definition example_system : Startup.system :=
  {| Startup.frozen := false;
     Startup.MEIPASS := [];
     Startup.which_tesseract := Some (u "/usr/bin/tesseract");
     Startup.makedirs_fault := λ _, None |}.

(** Tesseract is not on the PATH. *)
Definition system_without_tesseract : Startup.system :=
  {| Startup.frozen := false;
     Startup.MEIPASS := [];
     Startup.which_tesseract := None;
     Startup.makedirs_fault := λ _, None |}.

(** A PyInstaller bundle unpacked in /tmp/_MEI1. *)
Definition bundled_system : Startup.system :=
  {| Startup.frozen := true;
     Startup.MEIPASS := u "/tmp/_MEI1";
     Startup.which_tesseract := None;
     Startup.makedirs_fault := λ _, None |}.

(** The process at its start: the file system holds Tesseract and its
    data, and none of the directories of the program. *)
Definition example_process : Startup.process :=
  {| Startup.regular_files := {[ u "/usr/bin/tesseract" ]};
     Startup.directories :=
       {[ u "/usr"; u "/usr/bin"; u "/usr/bin/tessdata" ]};
     Startup.TESSERACT_CMD := None;
     Startup.TESSDATA_PREFIX := None;
     Startup.tesseract_cmd := Some (u "tesseract");
     Startup.logged := [] |}.

(** ** The two programs, side by side *)

Inductive program := scannertest_py | scanner_py.

Definition layout_of (prog : program) : str → Startup.schedule :=
  match prog with
  | scannertest_py => ScannertestMain.layout
  | scanner_py => ScannerMain.layout
  end.

Definition main_of (prog : program) (sys : Startup.system)
  : str → Startup.P Startup.schedule :=
  match prog with
  | scannertest_py => ScannertestMain.main sys
  | scanner_py => ScannerMain.main sys
  end.

Definition pattern_of (prog : program) : Re.pattern :=
  match prog with
  | scannertest_py => po_pattern
  | scanner_py => po_pattern_plain
  end.

(** The four directories of a program. *)
Definition folders (sch : Startup.schedule) : list str :=
  [ parent_directory (Startup.event_handler sch);
    Startup.waves_directory sch;
    finished_directory (Startup.event_handler sch);
    error_directory (Startup.event_handler sch) ].

(** The process [s'] is ready for the observer, having started as [s]:
    the four directories are there; no regular file has changed and no
    directory has been removed; Tesseract is bound; the last entry of the
    log announces the monitoring. *)
Definition started (sch : Startup.schedule) (s s' : Startup.process)
  : Prop :=
  Forall (λ d, Startup.there d s' = true) (folders sch)
  ∧ Startup.regular_files s' = Startup.regular_files s
  ∧ Startup.directories s ⊆ Startup.directories s'
  ∧ is_Some (Startup.tesseract_cmd s')
  ∧ is_Some (Startup.TESSDATA_PREFIX s')
  ∧ last (Startup.logged s')
    = Some (INFO, Startup.Monitoring_directory (Startup.waves_directory sch)).

(** * Facts *)

(** ** The regular-expression search *)
Module ReFacts.
Import Re.

Abbreviation all_match a r := (Forall (λ c, atom_matches a c = true) r).

(** What a greedy repetition returns: the longest run of [a] after which
    the continuation succeeds. *)
Lemma greedy_Some a k s n :
  greedy a k s = Some n →
  ∃ j n', n = (j + n')%nat ∧ (j ≤ length s)%nat ∧ all_match a (take j s)
          ∧ k (drop j s) = Some n'
          ∧ ∀ j', (j < j' ≤ length s)%nat → all_match a (take j' s) →
                  k (drop j' s) = None.
Proof.
  revert n. induction s as [|c s IH]; intros n H; simpl in H.
  - exists 0%nat, n. repeat split; auto. simpl. intros j' Hj'. lia.
  - destruct (atom_matches a c) eqn:Hc.
    + destruct (greedy a k s) as [n0|] eqn:Hg.
      * inversion H; subst n. destruct (IH n0 eq_refl) as (j & n' & -> & Hj & Hall & Hk & Hmax).
        exists (S j), n'. repeat split; simpl; auto with lia.
        intros [|j'] Hj' Hall'; [lia|]. simpl in *.
        apply Hmax; [lia|]. by inversion Hall'.
      * exists 0%nat, n. repeat split; simpl; auto with lia.
        intros [|j'] Hj' Hall'; [lia|]. simpl in *.
        inversion Hall'; subst.
        clear -Hg Hj' H3. revert j' Hj' H3.
        induction s as [|c' s IH]; intros j' Hj' Hall; simpl in *.
        -- destruct j'; simpl in *; [done | lia].
        -- destruct (atom_matches a c') eqn:Hc'.
           ++ destruct (greedy a k s) eqn:Hg'; [done|].
              destruct j' as [|j']; simpl; [done|].
              inversion Hall; subst. apply IH; auto with lia.
           ++ destruct j' as [|j']; simpl; [done|].
              inversion Hall; congruence.
    + exists 0%nat, n. repeat split; simpl; auto with lia.
      intros [|j'] Hj' Hall'; [lia|]. simpl in Hall'. inversion Hall'; congruence.
Qed.

Lemma greedy_None a k s :
  greedy a k s = None →
  ∀ j, (j ≤ length s)%nat → all_match a (take j s) → k (drop j s) = None.
Proof.
  induction s as [|c s IH]; simpl; intros H j Hj Hall.
  - destruct j; simpl in *; [done | lia].
  - destruct (atom_matches a c) eqn:Hc.
    + destruct (greedy a k s) eqn:Hg; [done|].
      destruct j as [|j]; simpl; [done|].
      simpl in Hall. inversion Hall; subst. apply IH; auto with lia.
    + destruct j as [|j]; simpl; [done|].
      simpl in Hall. inversion Hall; congruence.
Qed.

(** The anchored match returns the length of a prefix that is a word of
    the pattern. *)
Lemma match_here_sound p : ∀ s n,
  match_here p s = Some n → (n ≤ length s)%nat ∧ lang p (take n s).
Proof.
  induction p as [|[a q] p IH]; intros s n H; simpl in H.
  - inversion H; subst. split; [lia | done].
  - destruct q.
    + destruct s as [|c s]; [done|].
      destruct (atom_matches a c) eqn:Hc; [|done].
      destruct (match_here p s) as [n0|] eqn:Hm; [|done].
      inversion H; subst. destruct (IH _ _ Hm) as [Hn Hl].
      split; [simpl; lia|]. simpl. eauto 6.
    + apply greedy_Some in H as (j & n' & -> & Hj & Hall & Hk & _).
      destruct (IH _ _ Hk) as [Hn Hl]. rewrite length_drop in Hn.
      split; [lia|]. simpl. exists (take j s), (take n' (drop j s)).
      split; [|done]. by rewrite take_take_drop.
    + destruct s as [|c s]; [done|].
      destruct (atom_matches a c) eqn:Hc; [|done].
      destruct (greedy a (match_here p) s) as [n0|] eqn:Hm; [|done].
      inversion H; subst.
      apply greedy_Some in Hm as (j & n' & -> & Hj & Hall & Hk & _).
      destruct (IH _ _ Hk) as [Hn Hl]. rewrite length_drop in Hn.
      split; [simpl; lia|]. simpl. exists c, (take j s), (take n' (drop j s)).
      split; [|done]. by rewrite take_take_drop.
Qed.

(** Where a word of the pattern starts, the anchored match succeeds. *)
Lemma match_here_complete p : ∀ m rest,
  lang p m → is_Some (match_here p (m ++ rest)).
Proof.
  induction p as [|[a q] p IH]; intros m rest H; simpl in H.
  - subst. simpl. eauto.
  - destruct q.
    + destruct H as (c & m' & -> & Hc & Hl). simpl. rewrite Hc.
      destruct (IH _ rest Hl) as [n Hn]. rewrite Hn. simpl. eauto.
    + destruct H as (r & m' & -> & Hr & Hl). simpl.
      destruct (greedy a (match_here p) ((r ++ m') ++ rest)) eqn:Hg; [eauto|].
      apply greedy_None with (j := length r) in Hg.
      * rewrite <- app_assoc, drop_app_length in Hg.
        destruct (IH _ rest Hl) as [n Hn]. congruence.
      * rewrite !length_app. lia.
      * by rewrite <- app_assoc, take_app_length.
    + destruct H as (c & r & m' & -> & Hc & Hr & Hl). simpl. rewrite Hc.
      destruct (greedy a (match_here p) ((r ++ m') ++ rest)) eqn:Hg; [simpl; eauto|].
      apply greedy_None with (j := length r) in Hg.
      * rewrite <- app_assoc, drop_app_length in Hg.
        destruct (IH _ rest Hl) as [n Hn]. congruence.
      * rewrite !length_app. lia.
      * by rewrite <- app_assoc, take_app_length.
Qed.

(** The search returns the first offset at which the anchored match
    succeeds, and what it matched there. *)
Lemma search_from_Some p : ∀ s pos i g,
  search_from p s pos = Some (i, g) →
  ∃ d n, i = (pos + d)%nat ∧ (d ≤ length s)%nat
         ∧ match_here p (drop d s) = Some n ∧ g = take n (drop d s)
         ∧ ∀ d', (d' < d)%nat → match_here p (drop d' s) = None.
Proof.
  induction s as [|c s IH]; intros pos i g H; simpl in H.
  - destruct (match_here p []) as [n|] eqn:Hm; [|done].
    inversion H; subst. exists 0%nat, n. repeat split; auto with lia.
  - destruct (match_here p (c :: s)) as [n|] eqn:Hm.
    + inversion H; subst. exists 0%nat, n. repeat split; auto with lia.
    + apply IH in H as (d & n & -> & Hd & Hn & -> & Hmin).
      exists (S d), n. repeat split; simpl; auto with lia.
      intros [|d'] Hd'; simpl; [done|]. apply Hmin. lia.
Qed.

Lemma search_from_None p : ∀ s pos,
  search_from p s pos = None →
  ∀ d, (d ≤ length s)%nat → match_here p (drop d s) = None.
Proof.
  induction s as [|c s IH]; intros pos H d Hd; simpl in H.
  - destruct (match_here p []) eqn:Hm; [done|].
    destruct d; simpl in *; [done | lia].
  - destruct (match_here p (c :: s)) eqn:Hm; [done|].
    destruct d as [|d]; simpl; [done|]. eapply IH; eauto. simpl in Hd. lia.
Qed.

(** The search of such a pattern is the leftmost match, and the longest
    one there. *)
Lemma search_leftmost p t :
  longest_first p → leftmost_match p t (group_or_None (search p t)).
Proof.
  intros Hlong. unfold search.
  destruct (search_from p t 0) as [[i g]|] eqn:Hs; simpl.
  - apply search_from_Some in Hs as (d & n & -> & Hd & Hn & -> & Hmin).
    simpl. destruct (match_here_sound _ _ _ Hn) as [Hle Hl].
    exists d. split; [|split]; [|done|].
    + exists (drop n (drop d t)). by rewrite take_drop.
    + intros i' m' (post & Hpost & Hi') Hl'.
      destruct (decide (i' < d)%nat) as [Hlt|Hge].
      * specialize (Hmin _ Hlt). rewrite Hpost in Hmin.
        destruct (match_here_complete p m' post Hl'). congruence.
      * destruct (decide (d = i')) as [->|]; [|left; lia].
        right. split; [done|]. rewrite length_take.
        specialize (Hlong _ _ _ _ Hn Hpost Hl'). lia.
  - intros i m (post & Hpost & Hi) Hl.
    pose proof (search_from_None _ _ _ Hs i Hi) as Hn. rewrite Hpost in Hn.
    destruct (match_here_complete p m post Hl). congruence.
Qed.

(** *** The PO patterns *)

Lemma decimal_not_upper c :
  Unicode.is_decimal c = true → Unicode.is_ascii_upper c = false.
Proof.
  intros H. unfold Unicode.is_ascii_upper.
  destruct (65 <=? c) eqn:H1; [|done]. destruct (c <=? 90) eqn:H2; [|done].
  apply N.leb_le in H1, H2. exfalso.
  unfold Unicode.is_decimal, Unicode.Nd_ranges in H.
  apply existsb_exists in H as (r & Hr & Hin).
  unfold Unicode.in_range in Hin. apply andb_prop in Hin as [Hlo Hhi].
  apply N.leb_le in Hlo, Hhi.
  simpl in Hr. repeat (destruct Hr as [<-|Hr]; [simpl in *; lia|]). done.
Qed.

Lemma ascii_digit_decimal c :
  Unicode.is_ascii_digit c = true → Unicode.is_decimal c = true.
Proof.
  intros H. unfold Unicode.is_decimal, Unicode.Nd_ranges.
  simpl. unfold Unicode.in_range at 1. simpl.
  unfold Unicode.is_ascii_digit in H. by rewrite H.
Qed.

Section Tail.

Context (dg : atom).
Hypothesis dg_not_upper :
  ∀ c, atom_matches dg c = true → Unicode.is_ascii_upper c = false.

Lemma lang_po_tail m :
  lang (po_tail dg) m ↔
  ∃ c r, m = chr_P :: chr_O :: c :: r ∧ atom_matches dg c = true
         ∧ all_match dg r.
Proof.
  simpl. split.
  - intros (c1 & m1 & -> & H1 & c2 & m2 & -> & H2 & c & r & m3 & -> & Hc & Hr & ->).
    apply N.eqb_eq in H1, H2. subst. exists c, r. by rewrite app_nil_r.
  - intros (c & r & -> & Hc & Hr).
    exists chr_P, (chr_O :: c :: r). split; [done|]. split; [apply N.eqb_refl|].
    exists chr_O, (c :: r). split; [done|]. split; [apply N.eqb_refl|].
    exists c, r, []. by rewrite app_nil_r.
Qed.

Lemma po_tail_longest : longest_first (po_tail dg).
Proof.
  intros s n m rest Hm -> Hl.
  apply lang_po_tail in Hl as (c & r & -> & Hc & Hr).
  simpl in Hm. rewrite Hc in Hm.
  destruct (greedy dg _ (r ++ rest)) as [n0|] eqn:Hg; [|done].
  simpl in Hm. inversion Hm; subst n. clear Hm.
  apply greedy_Some in Hg as (j & n' & -> & Hj & _ & _ & Hmax).
  destruct (decide (length r ≤ j)%nat); [simpl; lia|]. exfalso.
  specialize (Hmax (length r)). rewrite take_app_length in Hmax.
  rewrite length_app in Hmax. discriminate Hmax; [lia | done].
Qed.

Lemma upper_run_unique s i i' : upper_run s i → upper_run s i' → i = i'.
Proof.
  assert (∀ i i', upper_run s i → upper_run s i' → ¬ (i < i')%nat) as Hlt.
  { clear. intros i i' [_ (c & Hc & Hn)] [Hall _] Hlt.
    rewrite Forall_lookup in Hall. specialize (Hall i c).
    rewrite lookup_take in Hall. destruct (decide (i < i')%nat); [|lia].
    specialize (Hall Hc). simpl in Hall. congruence. }
  intros H H'. pose proof (Hlt _ _ H H'). pose proof (Hlt _ _ H' H). lia.
Qed.

Lemma upper_run_tail r m rest :
  all_match Upper r → lang (po_tail dg) m → upper_run (r ++ m ++ rest) (length r + 2).
Proof.
  intros Hr Hl. apply lang_po_tail in Hl as (c & d & -> & Hc & Hd). split.
  - replace (r ++ (chr_P :: chr_O :: c :: d) ++ rest)
      with ((r ++ [chr_P; chr_O]) ++ c :: d ++ rest)
      by (by rewrite <- app_assoc).
    rewrite take_app_length'; [|rewrite length_app; simpl; lia].
    apply Forall_app. split; [done|]. by repeat constructor.
  - exists c. split; [|by apply dg_not_upper].
    rewrite lookup_app_r; [|lia].
    replace (length r + 2 - length r)%nat with 2%nat by lia. done.
Qed.

Lemma po_star_tail_longest : longest_first ((Upper, Star) :: (po_tail dg)).
Proof.
  intros s n m rest Hm -> Hl.
  change (match_here ((Upper, Star) :: (po_tail dg)) (m ++ rest))
    with (greedy Upper (match_here (po_tail dg)) (m ++ rest)) in Hm.
  apply greedy_Some in Hm as (j & n' & -> & Hj & Hall & Hk & _).
  destruct Hl as (r & m1 & -> & Hr & Hl1).
  destruct (match_here_sound _ _ _ Hk) as [Hn' Hl'].
  assert (j = length r) as ->.
  { assert (upper_run ((r ++ m1) ++ rest) (j + 2)) as H1.
    { rewrite <- (take_drop j ((r ++ m1) ++ rest)) at 1.
      rewrite <- (take_drop n' (drop j ((r ++ m1) ++ rest))) at 1.
      replace (j + 2)%nat with (length (take j ((r ++ m1) ++ rest)) + 2)%nat
        by (rewrite length_take; lia).
      by apply upper_run_tail. }
    assert (upper_run ((r ++ m1) ++ rest) (length r + 2)) as H2.
    { rewrite <- app_assoc. by apply upper_run_tail. }
    pose proof (upper_run_unique _ _ _ H1 H2). lia. }
  rewrite <- app_assoc, drop_app_length in Hk.
  pose proof (po_tail_longest _ _ _ _ Hk eq_refl Hl1).
  rewrite length_app. lia.
Qed.

End Tail.

Lemma po_pattern_longest : longest_first po_pattern.
Proof. apply (po_star_tail_longest Digit). intros c. apply decimal_not_upper. Qed.

Lemma po_pattern_plain_longest : longest_first po_pattern_plain.
Proof. apply (po_tail_longest Digit). Qed.

(** *** The pattern of the specification *)
Lemma po_pattern_spec_longest : longest_first po_pattern_spec.
Proof.
  apply (po_star_tail_longest Ascii_digit). intros c H.
  by apply decimal_not_upper, ascii_digit_decimal.
Qed.

Lemma occurs_at_elem t i m c : occurs_at t i m → c ∈ m → c ∈ t.
Proof.
  intros (post & Hd & _) Hc. rewrite <- (take_drop i t), Hd.
  apply elem_of_app. right. apply elem_of_app. by left.
Qed.

(** On a string whose decimal digits are all ASCII digits, [\d] and
    [[0-9]] give the same words. *)
Lemma lang_po_pattern_spec m :
  Forall (λ c, Unicode.is_decimal c = true → Unicode.is_ascii_digit c = true) m →
  lang po_pattern m ↔ lang po_pattern_spec m.
Proof.
  intros Hm.
  change (lang po_pattern m) with (lang ((Upper, Star) :: po_tail Digit) m).
  change (lang po_pattern_spec m)
    with (lang ((Upper, Star) :: po_tail Ascii_digit) m).
  cbn [lang]. split.
  - intros (r & m' & -> & Hr & Hl). exists r, m'. split; [done|]. split; [done|].
    apply lang_po_tail in Hl as (c & d & -> & Hc & Hd). apply lang_po_tail.
    apply Forall_app in Hm as [_ Hm].
    inversion Hm as [|? ? _ Hm1]; subst. inversion Hm1 as [|? ? _ Hm2]; subst.
    inversion Hm2 as [|? ? Hcc Hm3]; subst.
    exists c, d. split; [done|]. split; [by apply Hcc|].
    simpl in *. rewrite Forall_forall in *. intros x Hx.
    apply Hm3; auto.
  - intros (r & m' & -> & Hr & Hl). exists r, m'. split; [done|]. split; [done|].
    apply lang_po_tail in Hl as (c & d & -> & Hc & Hd). apply lang_po_tail.
    exists c, d. split; [done|]. split; [by apply ascii_digit_decimal|].
    simpl in *. eapply Forall_impl; [exact Hd|]. intros x.
    apply ascii_digit_decimal.
Qed.

Lemma leftmost_match_ext p p' t r :
  (∀ i m, occurs_at t i m → (lang p m ↔ lang p' m)) →
  leftmost_match p t r → leftmost_match p' t r.
Proof.
  intros Heq. destruct r as [m|]; simpl.
  - intros (i & Ho & Hl & Hmin). exists i. split; [done|].
    split; [by apply (Heq i)|]. intros i' m' Ho' Hl'.
    apply Hmin; [done|]. by apply (Heq i').
  - intros H i m Ho Hl. apply (H i m Ho). by apply (Heq i).
Qed.

End ReFacts.

Import ReFacts.

Module MonadFacts.

Lemma bind_unfold {A B} (m : M A) (f : A → M B) w :
  (m ≫= f) w =
  match m w with
  | (Ret a, w') => f a w'
  | (Raise e, w') => (Raise e, w')
  | (OutOfFuel, w') => (OutOfFuel, w')
  end.
Proof. reflexivity. Qed.

Create HintDb exits.

Lemma exits_weaken {A} (S S' : option exn → Prop) (m : M A) :
  exits S m → (∀ x, S x → S' x) → exits S' m.
Proof. intros H HS w. specialize (H w). destruct (m w).1; auto. Qed.

Lemma exits_ret {A} S (a : A) : exits S (mret a).
Proof. intros w. exact I. Qed.

Lemma exits_bind {A B} S (m : M A) (f : A → M B) :
  exits S m → (∀ a, exits S (f a)) → exits S (m ≫= f).
Proof.
  intros Hm Hf w. specialize (Hm w). rewrite bind_unfold.
  destruct (m w) as [[a|e|] w']; simpl in *; auto. apply Hf.
Qed.

Lemma exits_raise {A} (S : option exn → Prop) e : S (Some e) → exits S (@raise A e).
Proof. intros H w. exact H. Qed.

Lemma exits_emit S ev : exits S (emit ev).
Proof. intros w. exact I. Qed.

Lemma exits_log S l m : exits S (log l m).
Proof. apply exits_emit. Qed.

Lemma exits_sleep S n : exits S (sleep n).
Proof. apply exits_emit. Qed.

Lemma exits_get_files S : exits S get_files.
Proof. intros w. exact I. Qed.

Lemma exits_set_files S fs : exits S (set_files fs).
Proof. intros w. exact I. Qed.

Lemma exits_add_dir S d : exits S (add_dir d).
Proof. intros w. exact I. Qed.

Lemma exits_path_exists S p : exits S (path_exists p).
Proof. intros w. exact I. Qed.

Lemma exits_path_isdir S p : exits S (path_isdir p).
Proof. intros w. exact I. Qed.

(** A handler that catches: the exits are those of the handler and the
    ones of the body that it does not catch. *)
Lemma exits_try_except {A} S S' (m : M A) catches h :
  exits S' m →
  (∀ e, S' (Some e) → catches e = true → exits S (h e)) →
  (∀ e, S' (Some e) → catches e = false → S (Some e)) →
  (S' None → S None) →
  exits S (try_except m catches h).
Proof.
  intros Hm Hh Hpass Hfuel w. specialize (Hm w). unfold try_except.
  destruct (m w) as [[a|e|] w']; simpl in *; auto.
  destruct (catches e) eqn:Hc; simpl; auto. by apply Hh.
Qed.

#[export] Hint Resolve exits_ret exits_emit exits_log exits_sleep
  exits_get_files exits_set_files exits_add_dir exits_path_exists
  exits_path_isdir : exits.

Lemma exits_lift {A} (S : option exn → Prop) (r : exn + A) :
  (∀ e, S (Some e)) → exits S (lift r).
Proof. intros H. destruct r; simpl; auto using exits_raise with exits. Qed.

Lemma exits_fault (S : option exn → Prop) f :
  (∀ e, f = Some e → S (Some e)) → exits S (fault f).
Proof. intros H. destruct f; simpl; auto using exits_raise with exits. Qed.

Lemma exits_read_local {A} (S : option exn → Prop) (x : option A) :
  (∀ e, S (Some e)) → exits S (read_local x).
Proof. intros H. destruct x; simpl; auto using exits_raise with exits. Qed.

(** An exit-free computation returns. *)
Lemma no_exit_returns {A} (m : M A) w :
  exits no_exit m → ∃ a w', m w = (Ret a, w').
Proof.
  intros H. specialize (H w). destruct (m w) as [[a|e|] w']; simpl in *;
    [eauto | done | done].
Qed.

Ltac exits_step :=
  first
    [ apply exits_bind; [|intros ?]
    | apply exits_lift; intros ?
    | apply exits_read_local; intros ?
    | apply exits_raise
    | solve [auto with exits] ].

Ltac exits_auto := repeat exits_step; try done.

Section Calls.

Context (E : env).

Lemma exits_Image_open p n : exits only_raise (Image_open E p n).
Proof. unfold Image_open. exits_auto. Qed.

Lemma exits_image_to_string img :
  exits only_raise (pytesseract_image_to_string E img).
Proof. unfold pytesseract_image_to_string. exits_auto. Qed.

Lemma exits_uuid4_hex S : exits S (uuid4_hex E).
Proof. unfold uuid4_hex. exits_auto. Qed.

Lemma exits_load_image_loop p total range : ∀ tries img,
  exits only_raise (Scannertest.load_image_loop E p total range tries img).
Proof.
  induction range as [|t range IH]; intros tries img; simpl.
  - auto with exits.
  - apply exits_bind.
    + apply exits_try_except with (S' := only_raise); auto.
      * apply exits_bind; [apply exits_Image_open | auto with exits].
      * intros e _ _. exits_auto.
    + intros [i|]; auto with exits.
Qed.

(** The extractor of scannertest.py returns, whatever the environment
    does. *)
Lemma scannertest_extract_returns p :
  exits no_exit (Scannertest.extract_po_number_from_image E p).
Proof.
  unfold Scannertest.extract_po_number_from_image.
  apply exits_try_except with (S' := only_raise).
  - apply exits_bind; [apply exits_load_image_loop|]. intros locals.
    apply exits_bind; [exits_auto|]. intros tries.
    case_bool_decide; [exits_auto|].
    apply exits_bind; [exits_auto|]. intros img.
    apply exits_bind; [apply exits_image_to_string|]. intros ocr_result.
    exits_auto.
  - intros e _ _. exits_auto.
  - done.
  - intros H. by apply H.
Qed.

Lemma scanner_extract_returns p :
  exits no_exit (Scanner.extract_po_number_from_image E p).
Proof.
  unfold Scanner.extract_po_number_from_image.
  apply exits_try_except with (S' := only_raise).
  - apply exits_bind; [apply exits_Image_open|]. intros img.
    apply exits_bind; [apply exits_image_to_string|]. intros ocr_result.
    destruct (Re.search po_pattern_plain ocr_result); exits_auto.
  - intros e _ _. exits_auto.
  - done.
  - intros H. by apply H.
Qed.

End Calls.

End MonadFacts.

Import MonadFacts.

Module ExtractFacts.

Lemma add_events_add evs evs' w :
  add_events evs' (add_events evs w) = add_events (evs ++ evs') w.
Proof. unfold add_events. simpl. by rewrite app_assoc. Qed.

Lemma add_events_nil w : add_events [] w = w.
Proof. destruct w. unfold add_events. simpl. by rewrite app_nil_r. Qed.

Ltac run := unfold mbind, M_bind, mret, M_ret, try_except, log, sleep, emit,
              raise, lift, fault, read_local; simpl.

Section Extract.

Context (E : env).

(** A failed attempt of the loop costs its three events and goes on. *)
Lemma load_image_loop_fail p total t range tries img e w :
  image_open E t = inl e → isinstance_OSError e = true →
  Scannertest.load_image_loop E p total (t :: range) tries img w =
  Scannertest.load_image_loop E p total range (Some t) img
    (add_events (load_retry p total t) w).
Proof.
  intros He Hos. simpl. unfold Image_open. run. rewrite He. run. rewrite Hos.
  by rewrite !add_events_add.
Qed.

Lemma load_image_loop_ok p total t range tries img i w :
  image_open E t = inr i →
  Scannertest.load_image_loop E p total (t :: range) tries img w =
  (Ret (Some t, Some i), add_events [Ev_image_open p] w).
Proof. intros He. simpl. unfold Image_open. run. by rewrite He. Qed.

(** The loop when every attempt of the range fails. *)
Lemma load_image_loop_all_fail p total : ∀ n a tries img w,
  (∀ t, (a ≤ t < a + n)%nat → load_fails E t) →
  Scannertest.load_image_loop E p total (seq a n) tries img w =
  (Ret (match n with O => tries | S n' => Some (a + n')%nat end, img),
   add_events (flat_map (load_retry p total) (seq a n)) w).
Proof.
  induction n as [|n IH]; intros a tries img w Hf.
  - simpl. by rewrite add_events_nil.
  - destruct (Hf a) as (e & He & Hos); [lia|].
    cbn [seq]. rewrite (load_image_loop_fail _ _ _ _ _ _ e) by done.
    rewrite IH by (intros t Ht; apply Hf; lia).
    rewrite add_events_add. cbn [flat_map]. f_equal. f_equal.
    destruct n; do 2 f_equal; lia.
Qed.

(** The loop when attempt [a + k] is the first that succeeds. *)
Lemma load_image_loop_first_ok p total : ∀ k n a tries img i w,
  (k < n)%nat →
  (∀ t, (a ≤ t < a + k)%nat → load_fails E t) →
  image_open E (a + k) = inr i →
  Scannertest.load_image_loop E p total (seq a n) tries img w =
  (Ret (Some (a + k)%nat, Some i),
   add_events (flat_map (load_retry p total) (seq a k) ++ [Ev_image_open p]) w).
Proof.
  induction k as [|k IH]; intros n a tries img i w Hk Hf Hok.
  - destruct n; [lia|]. cbn [seq]. rewrite Nat.add_0_r in Hok.
    rewrite (load_image_loop_ok _ _ _ _ _ _ i) by done.
    by rewrite Nat.add_0_r.
  - destruct n; [lia|]. destruct (Hf a) as (e & He & Hos); [lia|].
    cbn [seq]. rewrite (load_image_loop_fail _ _ _ _ _ _ e) by done.
    rewrite (IH n (S a) _ _ i); [| lia | intros t Ht; apply Hf; lia
                                 | by rewrite <- Hok; f_equal; lia].
    rewrite add_events_add. cbn [flat_map]. rewrite <- app_assoc.
    by replace (S a + k)%nat with (a + S k)%nat by lia.
Qed.

(** Every attempt fails: the extractor gives up after the five of them. *)
Lemma extract_all_fail p w :
  (∀ t, (t < 5)%nat → load_fails E t) →
  Scannertest.extract_po_number_from_image E p w =
  (Ret None,
   add_events (load_retries p 5 5 ++ [Ev_log ERROR (Max_retries_reached p)]) w).
Proof.
  intros Hf. unfold Scannertest.extract_po_number_from_image.
  unfold try_except at 1. rewrite MonadFacts.bind_unfold.
  rewrite load_image_loop_all_fail by (intros t Ht; apply Hf; lia).
  run. by rewrite add_events_add.
Qed.

(** The image loads at attempt [k], before the last one: the engine is
    called on it, once, and its text is parsed. *)
Lemma extract_loaded_early p w k i text :
  (k < 4)%nat →
  (∀ t, (t < k)%nat → load_fails E t) →
  image_open E k = inr i →
  image_to_string E i = inr text →
  Scannertest.extract_po_number_from_image E p w =
  (Ret (get_PO_number_from_text text),
   add_events (load_retries p 5 k
               ++ [Ev_image_open p; Ev_image_to_string i;
                   Ev_log INFO (OCR_raw_output text)]) w).
Proof.
  intros Hk Hf Hok Htext. unfold Scannertest.extract_po_number_from_image.
  unfold try_except at 1. rewrite MonadFacts.bind_unfold.
  rewrite (load_image_loop_first_ok _ _ k 5 0 _ _ i);
    [| lia | intros t Ht; apply Hf; lia | done].
  run. case_bool_decide; [lia|].
  unfold pytesseract_image_to_string. run. rewrite Htext. run.
  rewrite !add_events_add. unfold load_retries, get_PO_number_from_text.
  by rewrite <- ?app_assoc.
Qed.

(** The image loads at the last attempt: the extractor takes it for a
    failure. *)
Lemma extract_loaded_last p w i :
  (∀ t, (t < 4)%nat → load_fails E t) →
  image_open E 4 = inr i →
  Scannertest.extract_po_number_from_image E p w =
  (Ret None,
   add_events (load_retries p 5 4
               ++ [Ev_image_open p; Ev_log ERROR (Max_retries_reached p)]) w).
Proof.
  intros Hf Hok. unfold Scannertest.extract_po_number_from_image.
  unfold try_except at 1. rewrite MonadFacts.bind_unfold.
  rewrite (load_image_loop_first_ok _ _ 4 5 0 _ _ i);
    [| lia | intros t Ht; apply Hf; lia | done].
  run. rewrite !add_events_add. unfold load_retries.
  by rewrite <- ?app_assoc.
Qed.

End Extract.
End ExtractFacts.

Import ExtractFacts.

Module InvFacts.

(** Rules for an invariant [I]. *)
Section Inv.

Context (I : world → Prop).

Lemma inv_ret {A} (a : A) : triple I (mret a) I.
Proof. by intros w H. Qed.

Lemma inv_raise {A} e : triple I (@raise A e) I.
Proof. by intros w H. Qed.

Lemma inv_out_of_fuel {A} : triple I (@out_of_fuel A) I.
Proof. by intros w H. Qed.

Lemma inv_bind {A B} (m : M A) (f : A → M B) :
  triple I m I → (∀ a, triple I (f a) I) → triple I (m ≫= f) I.
Proof.
  intros Hm Hf w H. specialize (Hm w H). rewrite bind_unfold.
  destruct (m w) as [[a|e|] w']; simpl in *; auto. by apply Hf.
Qed.

Lemma inv_try_except {A} (m : M A) catches h :
  triple I m I → (∀ e, triple I (h e) I) → triple I (try_except m catches h) I.
Proof.
  intros Hm Hh w H. specialize (Hm w H). unfold try_except.
  destruct (m w) as [[a|e|] w']; simpl in *; auto.
  destruct (catches e); simpl; auto. by apply Hh.
Qed.

Lemma inv_lift {A} (r : exn + A) : triple I (lift r) I.
Proof. destruct r; [apply inv_raise | apply inv_ret]. Qed.

Lemma inv_fault f : triple I (fault f) I.
Proof. destruct f; [apply inv_raise | apply inv_ret]. Qed.

Lemma inv_read_local {A} (x : option A) : triple I (read_local x) I.
Proof. destruct x; [apply inv_ret | apply inv_raise]. Qed.

Lemma inv_get_files : triple I get_files I.
Proof. by intros w H. Qed.

Lemma inv_path_exists p : triple I (path_exists p) I.
Proof. by intros w H. Qed.

Lemma inv_path_isdir p : triple I (path_isdir p) I.
Proof. by intros w H. Qed.

Lemma inv_emit ev :
  (∀ w, I w → I (add_events [ev] w)) → triple I (emit ev) I.
Proof. intros H w Hw. by apply H. Qed.

End Inv.

Ltac inv_step :=
  first
    [ apply inv_ret | apply inv_raise | apply inv_out_of_fuel
    | apply inv_lift | apply inv_fault | apply inv_read_local
    | apply inv_get_files | apply inv_path_exists | apply inv_path_isdir
    | apply inv_bind; [|intros ?]
    | apply inv_try_except; [|intros ?] ].

Section Blind.

Context (E : env) (I : world → Prop).
Hypothesis I_events : events_blind I.

Lemma inv_log l m : triple I (log l m) I.
Proof. apply inv_emit. intros w. apply I_events. Qed.

Lemma inv_sleep n : triple I (sleep n) I.
Proof. apply inv_emit. intros w. apply I_events. Qed.

Lemma inv_Image_open p n : triple I (Image_open E p n) I.
Proof. unfold Image_open. repeat inv_step. apply inv_emit, I_events. Qed.

Lemma inv_image_to_string img : triple I (pytesseract_image_to_string E img) I.
Proof.
  unfold pytesseract_image_to_string. repeat inv_step. apply inv_emit, I_events.
Qed.

Lemma inv_uuid4_hex : triple I (uuid4_hex E) I.
Proof. unfold uuid4_hex. repeat inv_step. apply inv_emit, I_events. Qed.

Lemma inv_load_image_loop p total range : ∀ tries img,
  triple I (Scannertest.load_image_loop E p total range tries img) I.
Proof.
  induction range as [|t range IH]; intros tries img; simpl.
  - apply inv_ret.
  - apply inv_bind.
    + apply inv_try_except.
      * apply inv_bind; [apply inv_Image_open | intros; apply inv_ret].
      * intros e. repeat inv_step; [apply inv_log | apply inv_sleep].
    + intros [i|]; [apply inv_ret | apply IH].
Qed.

Lemma inv_scannertest_extract p :
  triple I (Scannertest.extract_po_number_from_image E p) I.
Proof.
  unfold Scannertest.extract_po_number_from_image.
  apply inv_try_except.
  - apply inv_bind; [apply inv_load_image_loop|]. intros locals.
    apply inv_bind; [apply inv_read_local|]. intros tries.
    case_bool_decide.
    + apply inv_bind; [apply inv_log | intros; apply inv_ret].
    + apply inv_bind; [apply inv_read_local|]. intros img.
      apply inv_bind; [apply inv_image_to_string|]. intros text.
      apply inv_bind; [apply inv_log | intros; apply inv_ret].
  - intros e. apply inv_bind; [apply inv_log | intros; apply inv_ret].
Qed.

Lemma inv_scanner_extract p :
  triple I (Scanner.extract_po_number_from_image E p) I.
Proof.
  unfold Scanner.extract_po_number_from_image.
  apply inv_try_except.
  - apply inv_bind; [apply inv_Image_open|]. intros img.
    apply inv_bind; [apply inv_image_to_string|]. intros text.
    destruct (Re.search po_pattern_plain text);
      (apply inv_bind; [apply inv_log | intros; apply inv_ret]).
  - intros e. apply inv_bind; [apply inv_log | intros; apply inv_ret].
Qed.

Lemma inv_not_written_yet p n : triple I (Scanner.not_written_yet E p n) I.
Proof.
  unfold Scanner.not_written_yet. apply inv_bind; [apply inv_emit, I_events|].
  intros _. destruct (negb _); [apply inv_ret|].
  destruct (obs_isfile _); repeat inv_step.
Qed.

Lemma inv_wait_for_file p : ∀ fuel n,
  triple I (Scanner.wait_for_file E fuel p n) I.
Proof.
  induction fuel as [|fuel IH]; intros n; simpl.
  - apply inv_out_of_fuel.
  - apply inv_bind; [apply inv_not_written_yet|]. intros [|]; [|apply inv_ret].
    apply inv_bind; [apply inv_log|]. intros _.
    apply inv_bind; [apply inv_sleep|]. intros _. apply IH.
Qed.

Hypothesis I_dirs : dirs_blind I.

Lemma inv_os_makedirs d : triple I (os_makedirs E d) I.
Proof.
  unfold os_makedirs. apply inv_bind; [apply inv_emit, I_events|]. intros _.
  apply inv_bind; [apply inv_fault|]. intros _.
  apply inv_bind; [apply inv_path_exists|]. intros [|]; [apply inv_raise|].
  intros w H. by apply I_dirs.
Qed.

End Blind.

End InvFacts.

Import InvFacts.

Module FilerFacts.

Section Move.

Context (E : env) (fs0 : file_map) (h0 : list file_map) (src : str)
  (b : list Byte.byte).
Hypothesis src_there : fs0 !! src = Some b.

(** The steps of [shutil.move], one by one. *)
Lemma os_rename_fault dst e w :
  fault_rename E = Some e → os_rename E src dst w = (Raise e, w).
Proof. intros H. unfold os_rename. run. by rewrite H. Qed.

Lemma os_rename_ok dst w :
  fault_rename E = None → files w = fs0 → dst ∉ dirs w →
  os_rename E src dst w = (Ret (), put_files (moved fs0 src dst b) w).
Proof.
  intros H Hf Hd. unfold os_rename, get_files, path_isdir, set_files. run.
  rewrite H. simpl. rewrite Hf, src_there. simpl.
  by rewrite bool_decide_eq_false_2.
Qed.

Lemma shutil_copy2_same w :
  files w = fs0 → src ∉ dirs w →
  shutil_copy2 E src src w = (Raise ShutilError, w).
Proof.
  intros Hf Hd. unfold shutil_copy2, get_files, path_isdir. run.
  rewrite (bool_decide_eq_false_2 (src ∈ dirs w)) by done. simpl.
  rewrite Hf, src_there. by rewrite bool_decide_eq_true_2.
Qed.

Lemma shutil_copy2_ok dst w :
  fault_copy E = None → files w = fs0 → dst ∉ dirs w → src ≠ dst →
  shutil_copy2 E src dst w = (Ret (), put_files (copied fs0 dst b) w).
Proof.
  intros H Hf Hd Hne. unfold shutil_copy2, get_files, set_files, path_isdir.
  run. rewrite (bool_decide_eq_false_2 (dst ∈ dirs w)) by done. simpl.
  rewrite Hf, src_there. rewrite (bool_decide_eq_false_2 (src = dst)) by done.
  by rewrite H.
Qed.

Lemma shutil_copy2_fault_before dst e w :
  fault_copy E = Some e → copy_written E = None →
  files w = fs0 → dst ∉ dirs w → src ≠ dst →
  shutil_copy2 E src dst w = (Raise e, w).
Proof.
  intros H Hk Hf Hd Hne. unfold shutil_copy2, get_files, path_isdir.
  run. rewrite (bool_decide_eq_false_2 (dst ∈ dirs w)) by done. simpl.
  rewrite Hf, src_there. rewrite (bool_decide_eq_false_2 (src = dst)) by done.
  by rewrite H, Hk.
Qed.

Lemma shutil_copy2_fault_partly dst e k w :
  fault_copy E = Some e → copy_written E = Some k →
  files w = fs0 → dst ∉ dirs w → src ≠ dst →
  shutil_copy2 E src dst w
  = (Raise e, put_files (partly_copied fs0 dst b k) w).
Proof.
  intros H Hk Hf Hd Hne.
  unfold shutil_copy2, get_files, set_files, path_isdir.
  run. rewrite (bool_decide_eq_false_2 (dst ∈ dirs w)) by done. simpl.
  rewrite Hf, src_there. rewrite (bool_decide_eq_false_2 (src = dst)) by done.
  by rewrite H, Hk.
Qed.

Lemma os_unlink_fault e w :
  fault_unlink E = Some e → os_unlink E src w = (Raise e, w).
Proof. intros H. unfold os_unlink. run. by rewrite H. Qed.

Lemma os_unlink_ok dst w :
  fault_unlink E = None → files w = copied fs0 dst b → src ≠ dst →
  os_unlink E src w = (Ret (), put_files (moved fs0 src dst b) w).
Proof.
  intros H Hf Hne. unfold os_unlink, get_files, set_files. run.
  rewrite H. simpl. rewrite Hf. unfold copied, moved.
  rewrite lookup_insert_ne by done. rewrite src_there.
  by rewrite delete_insert_ne.
Qed.

Lemma unmoved_ext w w' :
  files w' = files w → history w' = history w →
  unmoved fs0 h0 w → unmoved fs0 h0 w'.
Proof. intros Hf Hh [H1 H2]. split; congruence. Qed.

Lemma unmoved_events_blind : events_blind (unmoved fs0 h0).
Proof. by intros ev w H. Qed.

Lemma unmoved_dirs_blind : dirs_blind (unmoved fs0 h0).
Proof. by intros d w H. Qed.

Abbreviation stays m := (triple (unmoved fs0 h0) m (unmoved fs0 h0)).

Lemma open_append_stays n : stays (open_append E src n).
Proof.
  intros w [Hf Hh]. unfold open_append, get_files. run.
  destruct (open_for_append E n); simpl; [done|].
  by rewrite Hf, src_there.
Qed.

Lemma wait_for_file_access_stays : ∀ fuel n,
  stays (Scannertest.wait_for_file_access E fuel src n).
Proof.
  induction fuel as [|fuel IH]; intros n; simpl.
  - apply inv_out_of_fuel.
  - apply inv_bind.
    + apply inv_try_except.
      * apply inv_bind; [apply open_append_stays | intros; apply inv_ret].
      * intros e. repeat inv_step.
    + intros [|]; [apply inv_ret | apply IH].
Qed.

End Move.
End FilerFacts.

Import FilerFacts.

Module GateFacts.

Section Gate.

Context (E : env).

Lemma wait_for_file_access_step p fuel a e w :
  open_for_append E a = Some e → isinstance_OSError e = true →
  Scannertest.wait_for_file_access E (S fuel) p a w =
  Scannertest.wait_for_file_access E fuel p (S a)
    (add_events (access_waits p 1) w).
Proof.
  intros He Hos. simpl. unfold open_append. run. rewrite He. run.
  rewrite Hos. by rewrite !add_events_add.
Qed.

Lemma wait_for_file_access_waits p : ∀ n fuel a w,
  (∀ i, (a ≤ i < a + n)%nat → access_fails E i) →
  Scannertest.wait_for_file_access E (n + fuel) p a w =
  Scannertest.wait_for_file_access E fuel p (a + n)
    (add_events (access_waits p n) w).
Proof.
  induction n as [|n IH]; intros fuel a w Hf.
  - simpl. by rewrite Nat.add_0_r, add_events_nil.
  - destruct (Hf a) as (e & He & Hos); [lia|].
    cbn [Nat.add]. rewrite (wait_for_file_access_step _ _ _ e) by done.
    rewrite IH by (intros i Hi; apply Hf; lia).
    rewrite add_events_add. replace (S a + n)%nat with (a + S n)%nat by lia.
    done.
Qed.

Lemma wait_for_file_access_opens p fuel a w :
  open_for_append E a = None → is_Some (files w !! p) →
  Scannertest.wait_for_file_access E (S fuel) p a w =
  (Ret (), add_events [Ev_open_append p] w).
Proof.
  intros Ho [b Hb]. cbn [Scannertest.wait_for_file_access].
  unfold open_append, get_files. run. rewrite Ho. simpl. by rewrite Hb.
Qed.

Lemma wait_for_file_step p fuel a w :
  not_written E a →
  Scanner.wait_for_file E (S fuel) p a w =
  Scanner.wait_for_file E fuel p (S a) (add_events (writing_waits p 1) w).
Proof.
  intros Hn. simpl. unfold Scanner.not_written_yet. run.
  destruct Hn as [Hn|(Hx & Hi & Hs)].
  - rewrite Hn. simpl. by rewrite !add_events_add.
  - rewrite Hx, Hi, Hs. simpl. by rewrite !add_events_add.
Qed.

Lemma wait_for_file_waits p : ∀ n fuel a w,
  (∀ i, (a ≤ i < a + n)%nat → not_written E i) →
  Scanner.wait_for_file E (n + fuel) p a w =
  Scanner.wait_for_file E fuel p (a + n) (add_events (writing_waits p n) w).
Proof.
  induction n as [|n IH]; intros fuel a w Hf.
  - simpl. by rewrite Nat.add_0_r, add_events_nil.
  - cbn [Nat.add]. rewrite wait_for_file_step by (apply Hf; lia).
    rewrite IH by (intros i Hi; apply Hf; lia).
    rewrite add_events_add. replace (S a + n)%nat with (a + S n)%nat by lia.
    done.
Qed.

Lemma wait_for_file_sees p fuel a w :
  written E a →
  Scanner.wait_for_file E (S fuel) p a w = (Ret (), add_events [Ev_stat p] w).
Proof.
  intros [Hx Hw]. cbn [Scanner.wait_for_file].
  unfold Scanner.not_written_yet. run. rewrite Hx. simpl.
  destruct Hw as [Hi|(size & Hs & Hne)].
  - by rewrite Hi.
  - destruct (obs_isfile (observe E a)); [|done]. rewrite Hs. simpl.
    by apply N.eqb_neq in Hne as ->.
Qed.

End Gate.
End GateFacts.

Import GateFacts.

Module HandlerFacts.

Section AnyInvariant.

Context (E : env) (I : world → Prop).
Hypothesis I_events : events_blind I.
Hypothesis I_dirs : dirs_blind I.
Hypothesis I_files : files_blind I.

Lemma inv_set_files fs : triple I (set_files fs) I.
Proof. intros w H. by apply I_files. Qed.

Lemma inv_open_append p n : triple I (open_append E p n) I.
Proof.
  unfold open_append. apply inv_bind; [apply inv_emit, I_events|]. intros _.
  apply inv_bind; [apply inv_fault|]. intros _.
  apply inv_bind; [apply inv_get_files|]. intros fs.
  destruct (fs !! p); [apply inv_ret | apply inv_set_files].
Qed.

Lemma inv_wait_for_file_access p : ∀ fuel n,
  triple I (Scannertest.wait_for_file_access E fuel p n) I.
Proof.
  induction fuel as [|fuel IH]; intros n; simpl.
  - apply inv_out_of_fuel.
  - apply inv_bind.
    + apply inv_try_except.
      * apply inv_bind; [apply inv_open_append | intros; apply inv_ret].
      * intros e. apply inv_bind; [by apply inv_log|]. intros _.
        apply inv_bind; [by apply inv_sleep | intros; apply inv_ret].
    + intros [|]; [apply inv_ret | apply IH].
Qed.

Lemma inv_shutil_move src dst : triple I (shutil_move E src dst) I.
Proof.
  unfold shutil_move. apply inv_bind; [apply inv_emit, I_events|]. intros _.
  apply inv_bind; [apply inv_path_isdir|]. intros d.
  apply inv_bind.
  { destruct d; [|apply inv_ret].
    apply inv_bind; [apply inv_path_exists|].
    intros [|]; [apply inv_raise | apply inv_ret]. }
  intros rd. apply inv_bind; [|intros; apply inv_ret].
  unfold rename_or_copy. apply inv_try_except.
  - unfold os_rename. apply inv_bind; [apply inv_fault|]. intros _.
    apply inv_bind; [apply inv_get_files|]. intros fs.
    destruct (fs !! src); [|apply inv_raise].
    apply inv_bind; [apply inv_path_isdir|].
    intros [|]; [apply inv_raise | apply inv_set_files].
  - intros e. apply inv_bind.
    + unfold shutil_copy2. apply inv_bind; [apply inv_path_isdir|].
      intros d'. apply inv_bind; [apply inv_get_files|]. intros fs.
      destruct (fs !! src); [|apply inv_raise].
      case_bool_decide; [apply inv_raise|].
      destruct (fault_copy E); [|apply inv_set_files].
      destruct (copy_written E); [|apply inv_raise].
      apply inv_bind; [apply inv_set_files | intros; apply inv_raise].
    + intros _. unfold os_unlink. apply inv_bind; [apply inv_fault|]. intros _.
      apply inv_bind; [apply inv_get_files|]. intros fs.
      destruct (fs !! src); [apply inv_set_files | apply inv_raise].
Qed.

Lemma inv_rename_and_move self p po : triple I (rename_and_move E self p po) I.
Proof.
  unfold rename_and_move. apply inv_bind; [by apply inv_uuid4_hex|]. intros h.
  apply inv_bind; [apply inv_path_exists|]. intros there.
  apply inv_bind.
  { destruct there; simpl; [apply inv_ret|].
    apply inv_bind; [by apply inv_os_makedirs | intros; by apply inv_log]. }
  intros _. apply inv_bind; [apply inv_shutil_move | intros; by apply inv_log].
Qed.

Lemma inv_handle_no_po_numbers self p :
  triple I (handle_no_po_numbers E self p) I.
Proof.
  unfold handle_no_po_numbers.
  apply inv_bind; [apply inv_path_exists|]. intros there.
  apply inv_bind.
  { destruct there; simpl; [apply inv_ret|].
    apply inv_bind; [by apply inv_os_makedirs | intros; by apply inv_log]. }
  intros _. apply inv_bind; [apply inv_shutil_move | intros; by apply inv_log].
Qed.

Lemma inv_filing_branches self p (po : option str) :
  triple I
    (if truthy po then
       log INFO (Extracted_PO_Number (default [] po));;
       rename_and_move E self p (default [] po)
     else
       log INFO PO_Number_could_not_be_extracted;;
       handle_no_po_numbers E self p) I.
Proof.
  destruct (truthy po);
    (apply inv_bind; [by apply inv_log|]); intros _;
    [apply inv_rename_and_move | apply inv_handle_no_po_numbers].
Qed.

End AnyInvariant.

Lemma grown_from_events t0 : events_blind (grown_from t0).
Proof.
  intros ev w [evs H]. exists (evs ++ [ev]). simpl. by rewrite H, app_assoc.
Qed.

Lemma grown_from_dirs t0 : dirs_blind (grown_from t0).
Proof. by intros d w H. Qed.

Lemma grown_from_files t0 : files_blind (grown_from t0).
Proof. by intros fs w H. Qed.

End HandlerFacts.

Import HandlerFacts.

Module RunFacts.

Lemma triple_bind_first {A B} P Q (m : M A) (f : A → M B) :
  triple P m Q → (∀ a, triple Q (f a) Q) → triple P (m ≫= f) Q.
Proof.
  intros Hm Hf w H. specialize (Hm w H). rewrite bind_unfold.
  destruct (m w) as [[a|e|] w']; simpl in *; auto. by apply Hf.
Qed.

Lemma triple_try_first {A} P Q (m : M A) catches h :
  triple P m Q → (∀ e, triple Q (h e) Q) → triple P (try_except m catches h) Q.
Proof.
  intros Hm Hh w H. specialize (Hm w H). unfold try_except.
  destruct (m w) as [[a|e|] w']; simpl in *; auto.
  destruct (catches e); simpl; auto. by apply Hh.
Qed.

Lemma endswith_app (a b : str) : endswith (a ++ b) b = true.
Proof.
  unfold endswith. apply bool_decide_eq_true.
  rewrite length_app. replace (length a + length b - length b)%nat
    with (length a) by lia.
  apply drop_app_length.
Qed.

Lemma lower_spelling ext :
  ext ∈ png_spellings → Unicode.lower ext = u ".png".
Proof.
  intros H. apply list_elem_of_In in H. simpl in H.
  repeat (destruct H as [<-|H]; [reflexivity|]). done.
Qed.

(** Every spelling of the extension passes the handler's test. *)
Lemma spelling_is_png stem ext :
  ext ∈ png_spellings →
  endswith (Unicode.lower (stem ++ ext)) (u ".png") = true.
Proof.
  intros H. unfold Unicode.lower. rewrite fmap_app.
  fold (Unicode.lower ext). rewrite (lower_spelling _ H). apply endswith_app.
Qed.

Section Runs.

Context (E : env).

(** *** scannertest.py *)

Lemma scannertest_on_created_gate fuel self ev w :
  is_directory ev = false →
  Scannertest.on_created E fuel self ev w =
  (Scannertest.wait_for_file_access E fuel (src_path ev) 0
     ≫= λ _, Scannertest.classify_and_file E self (src_path ev))
    (add_events (settled (src_path ev)) w).
Proof.
  intros Hd. unfold Scannertest.on_created. rewrite Hd. cbn [negb].
  rewrite (bind_unfold (log INFO _)). unfold log at 1, emit at 1.
  cbn beta iota.
  rewrite (bind_unfold (sleep 3)). unfold sleep at 1, emit at 1.
  cbn beta iota. by rewrite add_events_add.
Qed.

(** While the probes fail the handler is in the gate. *)
Lemma scannertest_on_created_waits n self ev w :
  is_directory ev = false →
  (∀ i, (i < n)%nat → access_fails E i) →
  Scannertest.on_created E n self ev w =
  (OutOfFuel,
   add_events (settled (src_path ev) ++ access_waits (src_path ev) n) w).
Proof.
  intros Hd Hf. rewrite scannertest_on_created_gate by done.
  rewrite bind_unfold. replace n with (n + 0)%nat at 1 by lia.
  rewrite wait_for_file_access_waits by (intros i Hi; apply Hf; lia).
  simpl. by rewrite add_events_add.
Qed.

(** Once a probe succeeds the handler goes on to classify. *)
Lemma scannertest_on_created_passes n fuel self ev w :
  is_directory ev = false →
  (∀ i, (i < n)%nat → access_fails E i) →
  open_for_append E n = None →
  is_Some (files w !! src_path ev) →
  (n < fuel)%nat →
  Scannertest.on_created E fuel self ev w =
  Scannertest.classify_and_file E self (src_path ev)
    (add_events (settled (src_path ev) ++ access_waits (src_path ev) n
                 ++ [Ev_open_append (src_path ev)]) w).
Proof.
  intros Hd Hf Ho Hthere Hfuel. rewrite scannertest_on_created_gate by done.
  rewrite bind_unfold. replace fuel with (n + S (fuel - S n))%nat by lia.
  rewrite wait_for_file_access_waits by (intros i Hi; apply Hf; lia).
  rewrite wait_for_file_access_opens by done.
  by rewrite !add_events_add, <- ?app_assoc.
Qed.

(** *** scanner.py *)

Lemma scanner_on_created_gate fuel self ev w :
  is_directory ev = false →
  Scanner.on_created E fuel self ev w =
  (Scanner.wait_for_file E fuel (src_path ev) 0
     ≫= λ _, Scanner.classify_and_file E self (src_path ev))
    (add_events (seen (src_path ev)) w).
Proof.
  intros Hd. unfold Scanner.on_created. by rewrite Hd.
Qed.

Lemma scanner_on_created_waits n self ev w :
  is_directory ev = false →
  (∀ i, (i < n)%nat → not_written E i) →
  Scanner.on_created E n self ev w =
  (OutOfFuel,
   add_events (seen (src_path ev) ++ writing_waits (src_path ev) n) w).
Proof.
  intros Hd Hf. rewrite scanner_on_created_gate by done.
  rewrite bind_unfold. replace n with (n + 0)%nat at 1 by lia.
  rewrite wait_for_file_waits by (intros i Hi; apply Hf; lia).
  simpl. by rewrite add_events_add.
Qed.

Lemma scanner_on_created_passes n fuel self ev w :
  is_directory ev = false →
  (∀ i, (i < n)%nat → not_written E i) →
  written E n →
  (n < fuel)%nat →
  Scanner.on_created E fuel self ev w =
  Scanner.classify_and_file E self (src_path ev)
    (add_events (seen (src_path ev) ++ writing_waits (src_path ev) n
                 ++ [Ev_stat (src_path ev)]) w).
Proof.
  intros Hd Hf Ho Hfuel. rewrite scanner_on_created_gate by done.
  rewrite bind_unfold. replace fuel with (n + S (fuel - S n))%nat by lia.
  rewrite wait_for_file_waits by (intros i Hi; apply Hf; lia).
  rewrite wait_for_file_sees by done.
  by rewrite !add_events_add, <- ?app_assoc.
Qed.

(** *** The extractor is what a [.png] file meets first *)

Lemma emit_first t0 ev :
  triple (at_trace t0) (emit ev) (grown_from (t0 ++ [ev])).
Proof. intros w H. exists []. simpl. by rewrite H, app_nil_r. Qed.

Lemma load_image_loop_cons p total t range tries img :
  Scannertest.load_image_loop E p total (t :: range) tries img =
  (loaded ←
     try_except
       (i ← Image_open E p t; mret (Some i))
       isinstance_OSError
       (λ _, log INFO (Image_is_locked_Retrying p (t + 1) total);;
             sleep 1;;
             mret None);
   match loaded with
   | Some i => mret (Some t, Some i)
   | None => Scannertest.load_image_loop E p total range (Some t) img
   end).
Proof. reflexivity. Qed.

Lemma scannertest_classify_opens_image self stem ext t0 :
  ext ∈ png_spellings →
  triple (at_trace t0)
    (Scannertest.classify_and_file E self (stem ++ ext))
    (grown_from (t0 ++ [Ev_image_open (stem ++ ext)])).
Proof.
  intros Hext. unfold Scannertest.classify_and_file.
  rewrite spelling_is_png by done.
  set (Q := grown_from _).
  assert (events_blind Q) as Qe by apply grown_from_events.
  assert (dirs_blind Q) as Qd by apply grown_from_dirs.
  assert (files_blind Q) as Qf by apply grown_from_files.
  apply triple_try_first; [|intros e; by apply inv_log].
  apply triple_bind_first; [|intros po; by apply inv_filing_branches].
  unfold Scannertest.extract_po_number_from_image.
  apply triple_try_first;
    [|intros e; apply inv_bind; [by apply inv_log | intros; apply inv_ret]].
  apply triple_bind_first.
  - change (seq 0 5) with (0%nat :: seq 1 4). rewrite load_image_loop_cons.
    apply triple_bind_first.
    + apply triple_try_first.
      * apply triple_bind_first; [|intros; apply inv_ret].
        unfold Image_open. apply triple_bind_first; [apply emit_first|].
        intros _. apply inv_lift.
      * intros e. apply inv_bind; [by apply inv_log|]. intros _.
        apply inv_bind; [by apply inv_sleep | intros; apply inv_ret].
    + intros [i|]; [apply inv_ret | by apply inv_load_image_loop].
  - intros locals. apply inv_bind; [apply inv_read_local|]. intros tries.
    case_bool_decide.
    + apply inv_bind; [by apply inv_log | intros; apply inv_ret].
    + apply inv_bind; [apply inv_read_local|]. intros img.
      apply inv_bind; [by apply inv_image_to_string|]. intros text.
      apply inv_bind; [by apply inv_log | intros; apply inv_ret].
Qed.

Lemma scanner_classify_opens_image self stem ext t0 :
  ext ∈ png_spellings →
  triple (at_trace t0)
    (Scanner.classify_and_file E self (stem ++ ext))
    (grown_from (t0 ++ [Ev_image_open (stem ++ ext)])).
Proof.
  intros Hext. unfold Scanner.classify_and_file.
  rewrite spelling_is_png by done.
  set (Q := grown_from _).
  assert (events_blind Q) as Qe by apply grown_from_events.
  assert (dirs_blind Q) as Qd by apply grown_from_dirs.
  assert (files_blind Q) as Qf by apply grown_from_files.
  apply triple_bind_first; [|intros po; by apply inv_filing_branches].
  unfold Scanner.extract_po_number_from_image.
  apply triple_try_first;
    [|intros e; apply inv_bind; [by apply inv_log | intros; apply inv_ret]].
  apply triple_bind_first.
  - unfold Image_open. apply triple_bind_first; [apply emit_first|].
    intros _. apply inv_lift.
  - intros img. apply inv_bind; [by apply inv_image_to_string|]. intros text.
    destruct (Re.search po_pattern_plain text);
      (apply inv_bind; [by apply inv_log | intros; apply inv_ret]).
Qed.

End Runs.
End RunFacts.

Import RunFacts.

Module QuietFacts.

Section Quiet.

Context (E : env) (t0 : list event) (d0 : gset str).

Abbreviation Q := (quiet_since t0 d0).

Lemma quiet_emit ev : quiet ev = true → triple Q (emit ev) Q.
Proof.
  intros Hq. apply inv_emit. intros w (Hd & evs & Ht & Hall).
  split; [done|]. exists (evs ++ [ev]). simpl. rewrite Ht, app_assoc.
  split; [done|]. apply Forall_app. split; [done|]. by constructor.
Qed.

Lemma quiet_files_blind : files_blind Q.
Proof. by intros fs w H. Qed.

Lemma quiet_wait_for_file_access p : ∀ fuel n,
  triple Q (Scannertest.wait_for_file_access E fuel p n) Q.
Proof.
  induction fuel as [|fuel IH]; intros n; simpl.
  - apply inv_out_of_fuel.
  - apply inv_bind.
    + apply inv_try_except.
      * apply inv_bind; [|intros; apply inv_ret].
        unfold open_append. apply inv_bind; [by apply quiet_emit|]. intros _.
        apply inv_bind; [apply inv_fault|]. intros _.
        apply inv_bind; [apply inv_get_files|]. intros fs.
        destruct (fs !! p); [apply inv_ret|].
        intros w H. by apply quiet_files_blind.
      * intros e. apply inv_bind; [by apply quiet_emit|]. intros _.
        apply inv_bind; [by apply quiet_emit | intros; apply inv_ret].
    + intros [|]; [apply inv_ret | apply IH].
Qed.

Lemma quiet_wait_for_file p : ∀ fuel n,
  triple Q (Scanner.wait_for_file E fuel p n) Q.
Proof.
  induction fuel as [|fuel IH]; intros n; simpl.
  - apply inv_out_of_fuel.
  - apply inv_bind.
    + unfold Scanner.not_written_yet.
      apply inv_bind; [by apply quiet_emit|]. intros _.
      destruct (negb _); [apply inv_ret|].
      destruct (obs_isfile _); repeat inv_step.
    + intros [|]; [|apply inv_ret].
      apply inv_bind; [by apply quiet_emit|]. intros _.
      apply inv_bind; [by apply quiet_emit | intros; apply IH].
Qed.

(** An event for a file that is not a [.png] brings quiet events only. *)
Lemma quiet_scannertest_on_created fuel self ev :
  endswith (Unicode.lower (src_path ev)) (u ".png") = false →
  triple Q (Scannertest.on_created E fuel self ev) Q.
Proof.
  intros Hpng. unfold Scannertest.on_created, Scannertest.classify_and_file.
  rewrite Hpng. destruct (negb _); [|apply inv_ret].
  apply inv_bind; [by apply quiet_emit|]. intros _.
  apply inv_bind; [by apply quiet_emit|]. intros _.
  apply inv_bind; [apply quiet_wait_for_file_access|]. intros _.
  by apply quiet_emit.
Qed.

Lemma quiet_scanner_on_created fuel self ev :
  endswith (Unicode.lower (src_path ev)) (u ".png") = false →
  triple Q (Scanner.on_created E fuel self ev) Q.
Proof.
  intros Hpng. unfold Scanner.on_created, Scanner.classify_and_file.
  rewrite Hpng. destruct (negb _); [|apply inv_ret].
  apply inv_bind; [by apply quiet_emit|]. intros _.
  apply inv_bind; [apply quiet_wait_for_file|]. intros _.
  by apply quiet_emit.
Qed.

End Quiet.

Lemma quiet_since_start w : quiet_since (trace w) (dirs w) w.
Proof. split; [done|]. exists []. by rewrite app_nil_r. Qed.

Section Untouched.

Context (E : env) (fs0 : file_map) (h0 : list file_map).

Lemma stays_scanner_on_created fuel self ev :
  endswith (Unicode.lower (src_path ev)) (u ".png") = false →
  triple (unmoved fs0 h0) (Scanner.on_created E fuel self ev) (unmoved fs0 h0).
Proof.
  intros Hpng. unfold Scanner.on_created, Scanner.classify_and_file.
  rewrite Hpng. destruct (negb _); [|apply inv_ret].
  apply inv_bind; [apply inv_log, unmoved_events_blind|]. intros _.
  apply inv_bind; [apply inv_wait_for_file, unmoved_events_blind|]. intros _.
  apply inv_log, unmoved_events_blind.
Qed.

Lemma stays_scannertest_on_created fuel self ev b :
  fs0 !! src_path ev = Some b →
  endswith (Unicode.lower (src_path ev)) (u ".png") = false →
  triple (unmoved fs0 h0) (Scannertest.on_created E fuel self ev)
    (unmoved fs0 h0).
Proof.
  intros Hb Hpng. unfold Scannertest.on_created, Scannertest.classify_and_file.
  rewrite Hpng. destruct (negb _); [|apply inv_ret].
  apply inv_bind; [apply inv_log, unmoved_events_blind|]. intros _.
  apply inv_bind; [apply inv_sleep, unmoved_events_blind|]. intros _.
  apply inv_bind; [by eapply wait_for_file_access_stays|]. intros _.
  apply inv_log, unmoved_events_blind.
Qed.

End Untouched.
End QuietFacts.

Import QuietFacts.

Module NameFacts.

Lemma hex_digits_length k : ∀ v, length (Uuid.hex_digits k v) = k.
Proof.
  induction k as [|k IH]; intros v; simpl; [done|].
  rewrite length_app, IH. simpl. lia.
Qed.

Lemma hex_char_is_hex d : d < 16 → Uuid.is_hex_char (Uuid.hex_char d) = true.
Proof.
  intros Hd. unfold Uuid.hex_char, Uuid.is_hex_char.
  destruct (d <? 10) eqn:H10.
  - apply N.ltb_lt in H10. apply orb_true_iff. left.
    apply andb_true_iff. split; apply N.leb_le; lia.
  - apply N.ltb_ge in H10. apply orb_true_iff. right.
    apply andb_true_iff. split; apply N.leb_le; lia.
Qed.

Lemma hex_digits_hex k : ∀ v,
  Forall (λ c, Uuid.is_hex_char c = true) (Uuid.hex_digits k v).
Proof.
  induction k as [|k IH]; intros v; simpl; [constructor|].
  apply Forall_app. split; [apply IH|]. constructor; [|constructor].
  apply hex_char_is_hex. apply N.mod_lt. done.
Qed.

(** The suffix of a new name: six hexadecimal digits. *)
Lemma suffix_six_hex (int : N) :
  length (take 6 (Uuid.hex int)) = 6%nat
  ∧ Forall (λ c, Uuid.is_hex_char c = true) (take 6 (Uuid.hex int)).
Proof.
  unfold Uuid.hex. split.
  - rewrite length_take, hex_digits_length. lia.
  - apply Forall_take, hex_digits_hex.
Qed.

Section Filer.

Context (E : env).

Lemma shutil_move_ok src dst b w :
  files w !! src = Some b → fault_rename E = None → dst ∉ dirs w →
  shutil_move E src dst w =
  (Ret dst,
   put_files (moved (files w) src dst b) (add_events [Ev_move src dst] w)).
Proof.
  intros Hb Hf Hd. unfold shutil_move, path_isdir. run.
  rewrite bool_decide_eq_false_2 by done. simpl.
  unfold rename_or_copy, try_except.
  by rewrite (os_rename_ok E (files w) src b Hb) by done.
Qed.

End Filer.
End NameFacts.

Import NameFacts.

Module ReturnFacts.

Lemma on_return_bind {A B} φ (m : M A) (f : A → M B) :
  (∀ a, on_return φ (f a)) → on_return φ (m ≫= f).
Proof.
  intros Hf w. rewrite bind_unfold.
  destruct (m w) as [[a|e|] w']; simpl; auto. apply Hf.
Qed.

Lemma on_return_try_except {A} φ (m : M A) catches h :
  on_return φ m → (∀ e, on_return φ (h e)) →
  on_return φ (try_except m catches h).
Proof.
  intros Hm Hh w. specialize (Hm w). unfold try_except.
  destruct (m w) as [[a|e|] w']; simpl in *; auto.
  destruct (catches e); simpl; auto. apply Hh.
Qed.

Lemma on_return_log_ret {A} (φ : A → world → Prop) l msg a :
  (∀ w, φ a (add_events [Ev_log l msg] w)) →
  on_return φ (log l msg;; mret a).
Proof. intros H w. apply H. Qed.

Lemma ends_with_log_add l msg w : ends_with_log (add_events [Ev_log l msg] w).
Proof. exists l, msg. simpl. apply last_snoc. Qed.

Lemma search_token p t :
  longest_first p → token_or_None p (Re.group_or_None (Re.search p t)).
Proof.
  intros Hp. pose proof (ReFacts.search_leftmost p t Hp) as H.
  destruct (Re.group_or_None (Re.search p t)); simpl in *; [|done].
  by destruct H as (i & _ & Hl & _).
Qed.

Section Extract.

Context (E : env).

Lemma scannertest_extract_on_return p :
  on_return (λ r w, token_or_None po_pattern r ∧ ends_with_log w)
    (Scannertest.extract_po_number_from_image E p).
Proof.
  unfold Scannertest.extract_po_number_from_image.
  apply on_return_try_except.
  - apply on_return_bind. intros locals.
    apply on_return_bind. intros tries. case_bool_decide.
    + apply on_return_log_ret. intros w. split; [done|].
      apply ends_with_log_add.
    + apply on_return_bind. intros img. apply on_return_bind. intros text.
      apply on_return_log_ret. intros w. split; [|apply ends_with_log_add].
      apply search_token, ReFacts.po_pattern_longest.
  - intros e. apply on_return_log_ret. intros w. split; [done|].
    apply ends_with_log_add.
Qed.

Lemma scanner_extract_on_return p :
  on_return (λ r w, token_or_None po_pattern_plain r ∧ ends_with_log w)
    (Scanner.extract_po_number_from_image E p).
Proof.
  unfold Scanner.extract_po_number_from_image.
  apply on_return_try_except.
  - apply on_return_bind. intros img. apply on_return_bind. intros text.
    pose proof (search_token po_pattern_plain text
                  ReFacts.po_pattern_plain_longest) as Ht.
    destruct (Re.search po_pattern_plain text) as [m|]; simpl in Ht.
    + apply on_return_log_ret. intros w. split; [done|].
      apply ends_with_log_add.
    + apply on_return_log_ret. intros w. split; [done|].
      apply ends_with_log_add.
  - intros e. apply on_return_log_ret. intros w. split; [done|].
    apply ends_with_log_add.
Qed.

(** The extractor returns, a token or nothing, and its last act is an
    entry of the log. *)
Lemma scannertest_extract_total p w :
  ∃ r w', Scannertest.extract_po_number_from_image E p w = (Ret r, w')
          ∧ token_or_None po_pattern r ∧ ends_with_log w'.
Proof.
  destruct (no_exit_returns _ w (scannertest_extract_returns E p))
    as (r & w' & Heq).
  exists r, w'. split; [done|].
  pose proof (scannertest_extract_on_return p w) as H. by rewrite Heq in H.
Qed.

Lemma scanner_extract_total p w :
  ∃ r w', Scanner.extract_po_number_from_image E p w = (Ret r, w')
          ∧ token_or_None po_pattern_plain r ∧ ends_with_log w'.
Proof.
  destruct (no_exit_returns _ w (scanner_extract_returns E p))
    as (r & w' & Heq).
  exists r, w'. split; [done|].
  pose proof (scanner_extract_on_return p w) as H. by rewrite Heq in H.
Qed.

(** *** What leaves the handler of scannertest.py *)

Lemma exits_any {A} (m : M A) : exits (λ _, True) m.
Proof. intros w. by destruct (m w).1. Qed.

Lemma exits_wait_for_file_access p : ∀ fuel n,
  exits (not_raising isinstance_OSError)
    (Scannertest.wait_for_file_access E fuel p n).
Proof.
  induction fuel as [|fuel IH]; intros n; simpl.
  - intros w. simpl. by intros e.
  - apply exits_bind.
    + apply exits_try_except with (S' := λ _, True).
      * apply exits_any.
      * intros e _ _. exits_auto.
      * intros e _ He e' [= <-]. done.
      * intros _ e. done.
    + intros [|]; [apply exits_ret | apply IH].
Qed.

Lemma scannertest_on_created_exits fuel self ev :
  exits (not_raising isinstance_PermissionError)
    (Scannertest.on_created E fuel self ev).
Proof.
  unfold Scannertest.on_created. destruct (negb _); [|apply exits_ret].
  apply exits_bind; [apply exits_log|]. intros _.
  apply exits_bind; [apply exits_sleep|]. intros _.
  apply exits_bind.
  - eapply exits_weaken; [apply exits_wait_for_file_access|].
    intros x Hx e ->. specialize (Hx e eq_refl). by destruct e.
  - intros _. unfold Scannertest.classify_and_file.
    destruct (endswith _ _); [|apply exits_log].
    apply exits_try_except with (S' := λ _, True).
    + apply exits_any.
    + intros e _ _. apply exits_log.
    + intros e _ He e' [= <-]. done.
    + intros _ e. done.
Qed.

(** *** The filer, when nothing fails *)

Lemma ensure_directory_then {B} d msg (k : M B) w :
  fault_makedirs E = None →
  ∃ w', (there ← path_exists d;
         (if negb (there : bool)
          then os_makedirs E d;; log INFO msg else mret ());;
         k) w = k w'
        ∧ files w' = files w ∧ history w' = history w
        ∧ dirs w' ⊆ {[d]} ∪ dirs w.
Proof.
  intros Hf. unfold path_exists, os_makedirs, add_dir. run.
  destruct (bool_decide (d ∈ dirs w) || bool_decide (is_Some (files w !! d)))
    eqn:Hd; simpl.
  - eexists. repeat split; eauto. set_solver.
  - rewrite Hf. simpl. rewrite Hd. simpl. eexists. repeat split; eauto.
Qed.

Lemma move_and_log_ok src dst b l msg w0 w :
  files w = files w0 → files w0 !! src = Some b → fault_rename E = None →
  dst ∉ dirs w →
  ∃ w', (shutil_move E src dst;; log l msg) w = (Ret (), w')
        ∧ files w' = moved (files w0) src dst b
        ∧ last (trace w') = Some (Ev_log l msg).
Proof.
  intros Hf Hb Hrn Hd. rewrite bind_unfold.
  rewrite (shutil_move_ok E src dst b) by (by rewrite ?Hf).
  cbn beta iota. eexists. split; [reflexivity|]. simpl.
  split; [by rewrite Hf | apply last_snoc].
Qed.

Lemma rename_and_move_ok self p po b w :
  let name := po ++ u "_" ++ take 6 (Uuid.hex (Uuid.uuid4_int (urandom16 E)))
              ++ (OsPath.splitext p).2 in
  let dst := OsPath.join (finished_directory self) name in
  files w !! p = Some b → fault_makedirs E = None → fault_rename E = None →
  dst ∉ dirs w → dst ≠ finished_directory self →
  ∃ w', rename_and_move E self p po w = (Ret (), w')
        ∧ files w' = moved (files w) p dst b
        ∧ last (trace w') = Some (Ev_log INFO (File_renamed_and_moved name dst)).
Proof.
  intros name dst Hb Hmk Hrn Hd Hne. unfold rename_and_move.
  rewrite bind_unfold. unfold uuid4_hex at 1. rewrite bind_unfold.
  unfold emit at 1. cbn beta iota. unfold mret at 1, M_ret at 1.
  cbn beta iota. fold name. fold dst.
  set (w1 := add_events [Ev_uuid4] w).
  destruct (ensure_directory_then (finished_directory self)
              (Created_finished_directory (finished_directory self))
              (shutil_move E p dst;;
               log INFO (File_renamed_and_moved name dst)) w1 Hmk)
    as (w2 & Heq & Hf2 & Hh2 & Hd2).
  rewrite Heq.
  apply (move_and_log_ok p dst b _ _ w); [done..|].
  intros Hin. apply Hd2, elem_of_union in Hin as [Hin%elem_of_singleton|Hin];
    done.
Qed.

Lemma handle_no_po_numbers_ok self p b w :
  let err := OsPath.join (error_directory self) (OsPath.basename p) in
  files w !! p = Some b → fault_makedirs E = None → fault_rename E = None →
  err ∉ dirs w → err ≠ error_directory self →
  ∃ w', handle_no_po_numbers E self p w = (Ret (), w')
        ∧ files w' = moved (files w) p err b
        ∧ last (trace w')
          = Some (Ev_log WARNING (File_with_no_PO_number_moved err)).
Proof.
  intros err Hb Hmk Hrn Hd Hne. unfold handle_no_po_numbers. fold err.
  destruct (ensure_directory_then (error_directory self)
              (Created_error_directory (error_directory self))
              (shutil_move E p err;;
               log WARNING (File_with_no_PO_number_moved err)) w Hmk)
    as (w2 & Heq & Hf2 & Hh2 & Hd2).
  rewrite Heq.
  apply (move_and_log_ok p err b _ _ w); [done..|].
  intros Hin. apply Hd2, elem_of_union in Hin as [Hin%elem_of_singleton|Hin];
    done.
Qed.

End Extract.
End ReturnFacts.

Import ReturnFacts.

Module TokenFacts.
Import Re.

Lemma lang_po_pattern_shape m :
  lang po_pattern m ↔
  ∃ r c d, m = r ++ chr_P :: chr_O :: c :: d
           ∧ Forall (λ x, Unicode.is_ascii_upper x = true) r
           ∧ Unicode.is_decimal c = true
           ∧ Forall (λ x, Unicode.is_decimal x = true) d.
Proof.
  change (lang po_pattern m) with (lang ((Upper, Star) :: po_tail Digit) m).
  cbn [lang]. split.
  - intros (r & m' & -> & Hr & Hl).
    apply lang_po_tail in Hl as (c & d & -> & Hc & Hd). by exists r, c, d.
  - intros (r & c & d & -> & Hr & Hc & Hd). exists r, (chr_P :: chr_O :: c :: d).
    split; [done|]. split; [done|]. apply lang_po_tail. by exists c, d.
Qed.

Lemma lang_po_pattern_plain_shape m :
  lang po_pattern_plain m ↔
  ∃ c d, m = chr_P :: chr_O :: c :: d ∧ Unicode.is_decimal c = true
         ∧ Forall (λ x, Unicode.is_decimal x = true) d.
Proof. apply (lang_po_tail Digit). Qed.

Lemma occurs_at_lookup t i m k x :
  occurs_at t i m → m !! k = Some x → t !! (i + k)%nat = Some x.
Proof.
  intros (post & Hd & _) Hk. rewrite <- lookup_drop, Hd.
  by apply lookup_app_l_Some.
Qed.

Lemma occurs_at_length t i m : occurs_at t i m → (i + length m ≤ length t)%nat.
Proof.
  intros (post & Hd & Hi). apply (f_equal length) in Hd.
  rewrite length_drop, length_app in Hd. lia.
Qed.

Lemma occurs_at_app t i r m : occurs_at t i (r ++ m) → occurs_at t (i + length r) m.
Proof.
  intros (post & Hd & Hi). exists post. split.
  - rewrite <- drop_drop, Hd, <- app_assoc. apply drop_app_length.
  - apply (f_equal length) in Hd.
    rewrite length_drop, !length_app in Hd. lia.
Qed.

Lemma occurs_at_inj t i m m' :
  occurs_at t i m → occurs_at t i m' → length m = length m' → m = m'.
Proof.
  intros (post & Hd & _) (post' & Hd' & _) Hlen. rewrite Hd in Hd'.
  by apply app_inj_1 in Hd' as [? _].
Qed.

Lemma po_digit_at_occurs t i :
  po_digit_at t i →
  ∃ c, Unicode.is_decimal c = true ∧ occurs_at t i [chr_P; chr_O; c].
Proof.
  intros (HP & HO & c & Hc & Hdec). exists c. split; [done|].
  exists (drop (S (S (S i))) t). split.
  - rewrite (drop_S _ _ _ HP), (drop_S _ _ _ HO), (drop_S _ _ _ Hc). done.
  - apply lookup_lt_Some in HP. lia.
Qed.

Lemma word_po_digit_at t i r c d :
  occurs_at t i (r ++ chr_P :: chr_O :: c :: d) →
  Unicode.is_decimal c = true → po_digit_at t (i + length r).
Proof.
  intros Ho Hc. apply occurs_at_app in Ho.
  split; [|split; [|exists c; split; [|done]]].
  - rewrite <- (Nat.add_0_r (i + length r)). by apply (occurs_at_lookup _ _ _ _ _ Ho).
  - replace (S (i + length r)) with (i + length r + 1)%nat by lia.
    by apply (occurs_at_lookup _ _ _ _ _ Ho).
  - replace (S (S (i + length r))) with (i + length r + 2)%nat by lia.
    by apply (occurs_at_lookup _ _ _ _ _ Ho).
Qed.

Lemma get_PO_number_leftmost t :
  leftmost_match po_pattern t (get_PO_number_from_text t).
Proof. apply search_leftmost, po_pattern_longest. Qed.

Lemma plain_PO_number_leftmost t :
  leftmost_match po_pattern_plain t (plain_PO_number_from_text t).
Proof. apply search_leftmost, po_pattern_plain_longest. Qed.

(** Both searches find a token exactly where "PO" and a digit are. *)
Lemma found_iff_po_digit_at t :
  (is_Some (get_PO_number_from_text t) ↔ ∃ i, po_digit_at t i)
  ∧ (is_Some (plain_PO_number_from_text t) ↔ ∃ i, po_digit_at t i).
Proof.
  split; split.
  - intros [m Hm]. pose proof (get_PO_number_leftmost t) as H. rewrite Hm in H.
    destruct H as (i & Ho & Hl & _).
    apply lang_po_pattern_shape in Hl as (r & c & d & -> & _ & Hc & _).
    exists (i + length r)%nat. by eapply word_po_digit_at.
  - intros [i Hi]. destruct (po_digit_at_occurs t i Hi) as (c & Hc & Ho).
    pose proof (get_PO_number_leftmost t) as H.
    destruct (get_PO_number_from_text t) as [m|]; [by eexists|].
    exfalso. apply (H i _ Ho). apply lang_po_pattern_shape.
    exists [], c, []. by repeat split.
  - intros [m Hm]. pose proof (plain_PO_number_leftmost t) as H. rewrite Hm in H.
    destruct H as (i & Ho & Hl & _).
    apply lang_po_pattern_plain_shape in Hl as (c & d & -> & Hc & _).
    exists i. rewrite <- (Nat.add_0_r i).
    by apply (word_po_digit_at t i [] c d).
  - intros [i Hi]. destruct (po_digit_at_occurs t i Hi) as (c & Hc & Ho).
    pose proof (plain_PO_number_leftmost t) as H.
    destruct (plain_PO_number_from_text t) as [m|]; [by eexists|].
    exfalso. apply (H i _ Ho). apply lang_po_pattern_plain_shape.
    exists c, []. by repeat split.
Qed.

End TokenFacts.

Import TokenFacts.

Module TokenFacts2.
Import Re.

Lemma occurs_at_self (m : str) : occurs_at m 0 m.
Proof. exists []. split; [by rewrite app_nil_r | lia]. Qed.

Lemma upper_is_token_char c :
  Unicode.is_ascii_upper c = true → is_token_char c = true.
Proof. intros H. unfold is_token_char. by rewrite H. Qed.

Lemma decimal_is_token_char c :
  Unicode.is_decimal c = true → is_token_char c = true.
Proof. intros H. unfold is_token_char. rewrite H. apply orb_true_r. Qed.

Lemma word_token_chars m :
  lang po_pattern m →
  (3 ≤ length m)%nat ∧ Forall (λ c, is_token_char c = true) m.
Proof.
  intros (r & c & d & -> & Hr & Hc & Hd)%lang_po_pattern_shape. split.
  - rewrite length_app. simpl. lia.
  - apply Forall_app. split.
    + eapply Forall_impl; [exact Hr|]. apply upper_is_token_char.
    + repeat constructor; try by apply upper_is_token_char.
      * by apply decimal_is_token_char.
      * eapply Forall_impl; [exact Hd|]. apply decimal_is_token_char.
Qed.

Lemma plain_word_is_word m : lang po_pattern_plain m → lang po_pattern m.
Proof.
  intros (c & d & -> & Hc & Hd)%lang_po_pattern_plain_shape.
  apply lang_po_pattern_shape. exists [], c, d. by repeat split.
Qed.

End TokenFacts2.

Import TokenFacts2.

Module UuidFacts.
Import Uuid.

Lemma hex_digits_add a : ∀ b v,
  hex_digits (a + b) v = hex_digits a (v / 16 ^ N.of_nat b) ++ hex_digits b v.
Proof.
  induction b as [|b IH]; intros v.
  - rewrite Nat.add_0_r. simpl. by rewrite N.div_1_r, app_nil_r.
  - rewrite Nat.add_succ_r. cbn [hex_digits]. rewrite IH, <- app_assoc.
    do 2 f_equal. rewrite Nat2N.inj_succ, N.pow_succ_r', N.Div0.div_div.
    done.
Qed.

Lemma take_hex_digits a b v :
  take a (hex_digits (a + b) v) = hex_digits a (v / 16 ^ N.of_nat b).
Proof.
  rewrite hex_digits_add. apply take_app_length'. by rewrite hex_digits_length.
Qed.

Lemma hex_char_inj d d' :
  d < 16 → d' < 16 → hex_char d = hex_char d' → d = d'.
Proof.
  unfold hex_char. intros Hd Hd'.
  destruct (d <? 10) eqn:H1, (d' <? 10) eqn:H2;
    rewrite ?N.ltb_lt, ?N.ltb_ge in *; lia.
Qed.

Lemma hex_digits_inj k : ∀ a b,
  hex_digits k a = hex_digits k b → a mod 16 ^ N.of_nat k = b mod 16 ^ N.of_nat k.
Proof.
  induction k as [|k IH]; intros a b H.
  - simpl. by rewrite !N.mod_1_r.
  - cbn [hex_digits] in H.
    apply app_inj_2 in H as [H1 H2]; [|done].
    inversion H2 as [H3]. apply hex_char_inj in H3; [|by apply N.mod_lt..].
    apply IH in H1.
    rewrite Nat2N.inj_succ, N.pow_succ_r', !N.Div0.mod_mul_r. congruence.
Qed.

(** The bits of the version and of the variant are below the first three
    bytes. *)
Lemma uuid4_int_first_three_bytes r :
  uuid4_int r / 2 ^ 104 = first_three_bytes r.
Proof.
  unfold uuid4_int, first_three_bytes. rewrite <- !N.shiftr_div_pow2.
  apply N.bits_inj. intros n.
  rewrite !N.shiftr_spec'.
  repeat rewrite ?N.lor_spec, ?N.ldiff_spec.
  rewrite !N.shiftl_spec_high' by lia.
  rewrite (N.bits_above_log2 0xc000), (N.bits_above_log2 0x8000),
    (N.bits_above_log2 0xf000), (N.bits_above_log2 4);
    [| simpl; lia ..].
  by rewrite !orb_false_r, !andb_true_r.
Qed.

Lemma first_three_bytes_bound r : first_three_bytes r < 16 ^ 6.
Proof.
  unfold first_three_bytes. apply N.Div0.div_lt_upper_bound.
  change (2 ^ 104 * 16 ^ 6) with (2 ^ 128). by apply N.mod_lt.
Qed.

End UuidFacts.

Import UuidFacts.

Module PathFacts.
Import OsPath.

Lemma rfind_range s c : (-1 ≤ rfind s c < Z.of_nat (length s))%Z.
Proof.
  induction s as [|x s IH]; simpl; [lia|].
  destruct (0 <=? rfind s c)%Z eqn:H; [apply Z.leb_le in H; lia|].
  destruct (x =? c); lia.
Qed.

Lemma rfind_negative s c : (rfind s c < 0)%Z → c ∉ s.
Proof.
  induction s as [|x s IH]; simpl; [intros _; apply not_elem_of_nil|].
  destruct (0 <=? rfind s c)%Z eqn:H.
  - apply Z.leb_le in H. lia.
  - apply Z.leb_gt in H. destruct (x =? c) eqn:Hx; [lia|]. intros _.
    apply N.eqb_neq in Hx. apply not_elem_of_cons. split; [done | by apply IH].
Qed.

Lemma rfind_not_elem s c : c ∉ s → rfind s c = (-1)%Z.
Proof.
  induction s as [|x s IH]; simpl; [done|].
  intros [Hx Hs]%not_elem_of_cons. rewrite (IH Hs). simpl.
  by destruct (N.eqb_spec x c); [subst|].
Qed.

(** After the last [c] there is no [c]. *)
Lemma rfind_drop c : ∀ s i, (rfind s c < Z.of_nat i)%Z → c ∉ drop i s.
Proof.
  induction s as [|x s IH]; intros i; [by rewrite drop_nil; intros; apply not_elem_of_nil|].
  destruct i as [|i].
  - intros H. by apply rfind_negative.
  - simpl. intros H. apply IH.
    destruct (0 <=? rfind s c)%Z eqn:Hr; [lia|]. apply Z.leb_gt in Hr. lia.
Qed.

Lemma rfind_app_last a n c :
  c ∉ n → rfind (a ++ c :: n) c = Z.of_nat (length a).
Proof.
  intros Hn. induction a as [|x a IH]; simpl.
  - rewrite (rfind_not_elem _ _ Hn). simpl. by rewrite N.eqb_refl.
  - rewrite IH. destruct (0 <=? Z.of_nat (length a))%Z eqn:H; [lia|].
    apply Z.leb_gt in H. lia.
Qed.

Lemma rfind_app_not_elem a n c : c ∉ n → rfind (a ++ n) c = rfind a c.
Proof.
  intros Hn. induction a as [|x a IH]; simpl; [by apply rfind_not_elem|].
  by rewrite IH.
Qed.

Lemma basename_no_sep p : sep ∉ basename p.
Proof.
  unfold basename, slice_from. apply rfind_drop.
  pose proof (rfind_range p sep). lia.
Qed.

Lemma basename_id n : sep ∉ n → basename n = n.
Proof.
  intros Hn. unfold basename, slice_from. by rewrite (rfind_not_elem _ _ Hn).
Qed.

Lemma basename_app a n : sep ∉ n → basename (a ++ sep :: n) = n.
Proof.
  intros Hn. unfold basename, slice_from. rewrite (rfind_app_last _ _ _ Hn).
  replace (Z.to_nat (Z.of_nat (length a) + 1)) with (S (length a)) by lia.
  replace (a ++ sep :: n) with ((a ++ [sep]) ++ n) by (by rewrite <- app_assoc).
  by rewrite drop_app_length' by (rewrite length_app; simpl; lia).
Qed.

Lemma startswith_sep_elem n : startswith n [sep] = true → sep ∈ n.
Proof.
  unfold startswith. intros H%bool_decide_eq_true.
  destruct n as [|x n]; [done|]. simpl in H. inversion H. left.
Qed.

(** A name without separator, joined to a directory, is a file of that
    directory and nothing else. *)
Lemma join_name d n :
  sep ∉ n →
  (join d n = d ++ n ∨ join d n = d ++ [sep] ++ n) ∧ basename (join d n) = n.
Proof.
  intros Hn. unfold join.
  destruct (startswith n [sep]) eqn:Hs;
    [by apply startswith_sep_elem in Hs|].
  destruct (bool_decide (d = [])) eqn:Hd; simpl.
  - apply bool_decide_eq_true in Hd as ->. split; [by left|].
    by apply basename_id.
  - destruct (endswith d [sep]) eqn:He.
    + split; [by left|]. unfold endswith in He.
      apply bool_decide_eq_true in He.
      rewrite <- (take_drop (length d - length [sep]) d), He, <- app_assoc.
      by apply basename_app.
    + split; [by right|]. by apply basename_app.
Qed.

Lemma splitext_ext_no_sep p : sep ∉ (splitext p).2.
Proof.
  unfold splitext.
  destruct (rfind p extsep >? rfind p sep)%Z eqn:H; [|apply not_elem_of_nil].
  destruct (has_non_dot _); [|apply not_elem_of_nil]. simpl.
  unfold slice_from. apply rfind_drop. apply Z.gtb_lt in H.
  pose proof (rfind_range p sep). lia.
Qed.

(** [os.path.splitext] splits: the two parts make the path. *)
Lemma splitext_app p : (splitext p).1 ++ (splitext p).2 = p.
Proof.
  unfold splitext. destruct (_ >? _)%Z; [|by rewrite app_nil_r].
  destruct (has_non_dot _); [|by rewrite app_nil_r]. apply take_drop.
Qed.

End PathFacts.

Import PathFacts.

Module SpellingFacts.
Import OsPath.

Lemma lower_cp_ascii c k :
  Unicode.lower_cp c = k → k < 192 → c = k ∨ (97 ≤ k ≤ 122 ∧ c = k - 32).
Proof.
  unfold Unicode.lower_cp.
  repeat match goal with
         | |- context [?a <=? ?b] => destruct (N.leb_spec a b)
         end; simpl; lia.
Qed.

Lemma lower_is_png p :
  endswith (Unicode.lower p) (u ".png") = true →
  ∃ stem ext, p = stem ++ ext ∧ ext ∈ png_spellings.
Proof.
  unfold endswith, Unicode.lower. intros H%bool_decide_eq_true.
  rewrite length_fmap, <- fmap_drop in H.
  exists (take (length p - length (u ".png")) p),
    (drop (length p - length (u ".png")) p).
  split; [by rewrite take_drop|].
  destruct (drop _ p) as [|c0 [|c1 [|c2 [|c3 [|]]]]]; try discriminate.
  change (u ".png") with [46; 112; 110; 103] in H. simpl in H.
  injection H as H0 H1 H2 H3.
  apply lower_cp_ascii in H0, H1, H2, H3; try lia.
  apply list_elem_of_In. simpl.
  destruct H0 as [->|[? ->]]; [|lia].
  destruct H1 as [->|[? ->]], H2 as [->|[? ->]], H3 as [->|[? ->]];
    simpl; tauto.
Qed.

Lemma spelling_shape ext :
  ext ∈ png_spellings →
  ∃ rest, ext = extsep :: rest ∧ (extsep ∉ rest) ∧ (sep ∉ ext).
Proof.
  intros H. apply list_elem_of_In in H. simpl in H.
  repeat (destruct H as [<-|H];
    [eexists; split; [reflexivity|];
     split; apply (bool_decide_eq_false_1 (_ ∈ _)); reflexivity|]).
  done.
Qed.

Lemma splitext_spelling stem ext :
  ext ∈ png_spellings →
  splitext (stem ++ ext)
  = if has_non_dot (basename stem) then (stem, ext) else (stem ++ ext, []).
Proof.
  intros (rest & -> & Hdot & Hsep)%spelling_shape.
  unfold splitext.
  rewrite (rfind_app_last _ _ _ Hdot), (rfind_app_not_elem _ _ _ Hsep).
  pose proof (rfind_range stem sep) as Hr.
  destruct (_ >? _)%Z eqn:Hgt; [|rewrite Z.gtb_ltb in Hgt; apply Z.ltb_ge in Hgt; lia].
  unfold slice, slice_to, slice_from, basename, slice_from.
  rewrite Nat2Z.id.
  rewrite ?take_app_length, ?drop_app_length.
  replace (Z.to_nat (Z.of_nat (length stem) - (rfind stem sep + 1)))
    with (length stem - Z.to_nat (rfind stem sep + 1))%nat by lia.
  rewrite ?drop_app_le by lia.
  rewrite ?take_app_length', ?take_app_le, ?firstn_all, ?take_ge
    by (rewrite ?length_drop; lia).
  done.
Qed.

End SpellingFacts.

Import SpellingFacts.

Module WatchFacts.

Lemma triple_bind_value {A B} (I : world → Prop) (φ : A → Prop)
    (m : M A) (f : A → M B) :
  triple I m I → on_return (λ a _, φ a) m →
  (∀ a, φ a → triple I (f a) I) → triple I (m ≫= f) I.
Proof.
  intros Hm Hφ Hf w H. specialize (Hm w H). specialize (Hφ w).
  rewrite bind_unfold.
  destruct (m w) as [[a|e|] w']; simpl in *; auto. by apply Hf.
Qed.

Lemma on_return_weaken {A} (φ ψ : A → world → Prop) (m : M A) :
  on_return φ m → (∀ a w, φ a w → ψ a w) → on_return ψ m.
Proof.
  intros Hm Himp w. specialize (Hm w). destruct (m w).1; auto.
Qed.

(** Rules for an invariant [I] that looks at the moves and at the
    directories: it is kept by the events [ok_ev], among them all that are
    neither a move nor a call of [os.makedirs], and by the making of the
    directories [ok_dir]. *)
Section Watched.

Context (E : env) (I : world → Prop).
Context (ok_ev : event → Prop) (ok_dir : str → Prop).
Hypothesis I_ev : ∀ ev w, ok_ev ev → I w → I (add_events [ev] w).
Hypothesis I_dir : ∀ d w, ok_dir d → I w → I (add_dir d w).2.
Hypothesis I_files : files_blind I.
Hypothesis ok_other :
  ∀ ev, is_move ev = false → is_makedirs ev = false → ok_ev ev.

Lemma kept_emit ev : ok_ev ev → triple I (emit ev) I.
Proof. intros H. apply inv_emit. intros w. by apply I_ev. Qed.

Lemma kept_log l m : triple I (log l m) I.
Proof. by apply kept_emit, ok_other. Qed.

Lemma kept_sleep n : triple I (sleep n) I.
Proof. by apply kept_emit, ok_other. Qed.

Lemma kept_set_files fs : triple I (set_files fs) I.
Proof. intros w H. by apply I_files. Qed.

Ltac kept :=
  repeat first
    [ apply kept_log | apply kept_sleep | apply kept_set_files
    | apply kept_emit, ok_other; reflexivity
    | inv_step
    | match goal with
      | |- triple _ (if ?b then _ else _) _ => destruct b
      | |- triple _ (match ?x with _ => _ end) _ => destruct x
      end ].

Lemma kept_Image_open p n : triple I (Image_open E p n) I.
Proof. unfold Image_open. kept. Qed.

Lemma kept_image_to_string img :
  triple I (pytesseract_image_to_string E img) I.
Proof. unfold pytesseract_image_to_string. kept. Qed.

Lemma kept_uuid4_hex : triple I (uuid4_hex E) I.
Proof. unfold uuid4_hex. kept. Qed.

Lemma kept_load_image_loop p total range : ∀ tries img,
  triple I (Scannertest.load_image_loop E p total range tries img) I.
Proof.
  induction range as [|t range IH]; intros tries img; simpl.
  - apply inv_ret.
  - apply inv_bind.
    + apply inv_try_except.
      * apply inv_bind; [apply kept_Image_open | intros; apply inv_ret].
      * intros e. kept.
    + intros [i|]; [apply inv_ret | apply IH].
Qed.

Lemma kept_scannertest_extract p :
  triple I (Scannertest.extract_po_number_from_image E p) I.
Proof.
  unfold Scannertest.extract_po_number_from_image.
  apply inv_try_except; [|intros e; kept].
  apply inv_bind; [apply kept_load_image_loop|]. intros locals.
  apply inv_bind; [apply inv_read_local|]. intros tries.
  case_bool_decide; [kept|].
  apply inv_bind; [apply inv_read_local|]. intros img.
  apply inv_bind; [apply kept_image_to_string|]. intros text. kept.
Qed.

Lemma kept_scanner_extract p :
  triple I (Scanner.extract_po_number_from_image E p) I.
Proof.
  unfold Scanner.extract_po_number_from_image.
  apply inv_try_except; [|intros e; kept].
  apply inv_bind; [apply kept_Image_open|]. intros img.
  apply inv_bind; [apply kept_image_to_string|]. intros text. kept.
Qed.

Lemma kept_not_written_yet p n : triple I (Scanner.not_written_yet E p n) I.
Proof. unfold Scanner.not_written_yet. kept. Qed.

Lemma kept_wait_for_file p : ∀ fuel n,
  triple I (Scanner.wait_for_file E fuel p n) I.
Proof.
  induction fuel as [|fuel IH]; intros n; simpl.
  - apply inv_out_of_fuel.
  - apply inv_bind; [apply kept_not_written_yet|]. intros [|]; [|apply inv_ret].
    apply inv_bind; [apply kept_log|]. intros _.
    apply inv_bind; [apply kept_sleep|]. intros _. apply IH.
Qed.

Lemma kept_open_append p n : triple I (open_append E p n) I.
Proof. unfold open_append. kept. Qed.

Lemma kept_wait_for_file_access p : ∀ fuel n,
  triple I (Scannertest.wait_for_file_access E fuel p n) I.
Proof.
  induction fuel as [|fuel IH]; intros n; simpl.
  - apply inv_out_of_fuel.
  - apply inv_bind.
    + apply inv_try_except.
      * apply inv_bind; [apply kept_open_append | intros; apply inv_ret].
      * intros e. kept.
    + intros [|]; [apply inv_ret | apply IH].
Qed.

Lemma kept_os_makedirs d :
  ok_dir d → ok_ev (Ev_makedirs d) → triple I (os_makedirs E d) I.
Proof.
  intros Hd Hmk. unfold os_makedirs.
  apply inv_bind; [by apply kept_emit|]. intros _.
  apply inv_bind; [apply inv_fault|]. intros _.
  apply inv_bind; [apply inv_path_exists|]. intros [|]; [apply inv_raise|].
  intros w H. by apply I_dir.
Qed.

Lemma kept_shutil_move src dst :
  ok_ev (Ev_move src dst) → triple I (shutil_move E src dst) I.
Proof.
  intros Hmv. unfold shutil_move.
  apply inv_bind; [by apply kept_emit|]. intros _.
  unfold rename_or_copy, os_rename, shutil_copy2, os_unlink. kept.
Qed.

Lemma kept_rename_and_move self p po :
  ok_dir (finished_directory self) →
  ok_ev (Ev_makedirs (finished_directory self)) →
  ok_ev (Ev_move p (OsPath.join (finished_directory self)
                      (po ++ u "_" ++ name_suffix E
                       ++ (OsPath.splitext p).2))) →
  triple I (rename_and_move E self p po) I.
Proof.
  intros Hd Hmk Hmv. unfold rename_and_move.
  apply (triple_bind_value I
           (λ h, h = Uuid.hex (Uuid.uuid4_int (urandom16 E))));
    [apply kept_uuid4_hex | by intros w|].
  intros h ->. apply inv_bind; [apply inv_path_exists|]. intros there.
  apply inv_bind.
  { destruct there; simpl; [apply inv_ret|].
    apply inv_bind; [by apply kept_os_makedirs | intros; apply kept_log]. }
  intros _. apply inv_bind; [by apply kept_shutil_move | intros; apply kept_log].
Qed.

Lemma kept_handle_no_po_numbers self p :
  ok_dir (error_directory self) →
  ok_ev (Ev_makedirs (error_directory self)) →
  ok_ev (Ev_move p (OsPath.join (error_directory self) (OsPath.basename p))) →
  triple I (handle_no_po_numbers E self p) I.
Proof.
  intros Hd Hmk Hmv. unfold handle_no_po_numbers.
  apply inv_bind; [apply inv_path_exists|]. intros there.
  apply inv_bind.
  { destruct there; simpl; [apply inv_ret|].
    apply inv_bind; [by apply kept_os_makedirs | intros; apply kept_log]. }
  intros _. apply inv_bind; [by apply kept_shutil_move | intros; apply kept_log].
Qed.

(** The moves and the directories of a handler whose extractor searches
    [pattern]. *)
Section Handler.

Context (pattern : Re.pattern) (self : POFileHandler) (p : str).
Hypothesis ok_finished : ok_dir (finished_directory self).
Hypothesis ok_error : ok_dir (error_directory self).
Hypothesis ok_make_finished : ok_ev (Ev_makedirs (finished_directory self)).
Hypothesis ok_make_error : ok_ev (Ev_makedirs (error_directory self)).
Hypothesis ok_token : ∀ po,
  Re.lang pattern po →
  ok_ev (Ev_move p (OsPath.join (finished_directory self)
                      (po ++ u "_" ++ name_suffix E
                       ++ (OsPath.splitext p).2))).
Hypothesis ok_no_token :
  ok_ev (Ev_move p (OsPath.join (error_directory self) (OsPath.basename p))).

Lemma kept_filing_branches (po : option str) :
  token_or_None pattern po →
  triple I
    (if truthy po then
       log INFO (Extracted_PO_Number (default [] po));;
       rename_and_move E self p (default [] po)
     else
       log INFO PO_Number_could_not_be_extracted;;
       handle_no_po_numbers E self p) I.
Proof.
  intros Hpo. destruct (truthy po) eqn:Ht.
  - destruct po as [po|]; [|done]. simpl in *.
    apply inv_bind; [apply kept_log|]. intros _.
    apply kept_rename_and_move; auto.
  - apply inv_bind; [apply kept_log|]. intros _.
    by apply kept_handle_no_po_numbers.
Qed.

End Handler.

Lemma kept_scannertest_on_created fuel self ev :
  ok_dir (finished_directory self) → ok_dir (error_directory self) →
  ok_ev (Ev_makedirs (finished_directory self)) →
  ok_ev (Ev_makedirs (error_directory self)) →
  (∀ po, Re.lang po_pattern po →
         ok_ev (Ev_move (src_path ev)
                  (OsPath.join (finished_directory self)
                     (po ++ u "_" ++ name_suffix E
                      ++ (OsPath.splitext (src_path ev)).2)))) →
  ok_ev (Ev_move (src_path ev)
           (OsPath.join (error_directory self)
              (OsPath.basename (src_path ev)))) →
  triple I (Scannertest.on_created E fuel self ev) I.
Proof.
  intros Hfin Herr Hmf Hme Htok Hno. unfold Scannertest.on_created.
  destruct (negb _); [|apply inv_ret].
  apply inv_bind; [apply kept_log|]. intros _.
  apply inv_bind; [apply kept_sleep|]. intros _.
  apply inv_bind; [apply kept_wait_for_file_access|]. intros _.
  unfold Scannertest.classify_and_file.
  destruct (endswith _ _); [|apply kept_log].
  apply inv_try_except; [|intros e; apply kept_log].
  apply (triple_bind_value I (token_or_None po_pattern)).
  - apply kept_scannertest_extract.
  - eapply on_return_weaken; [apply scannertest_extract_on_return|].
    by intros a w [H _].
  - intros po Hpo. by apply (kept_filing_branches po_pattern).
Qed.

Lemma kept_scanner_on_created fuel self ev :
  ok_dir (finished_directory self) → ok_dir (error_directory self) →
  ok_ev (Ev_makedirs (finished_directory self)) →
  ok_ev (Ev_makedirs (error_directory self)) →
  (∀ po, Re.lang po_pattern_plain po →
         ok_ev (Ev_move (src_path ev)
                  (OsPath.join (finished_directory self)
                     (po ++ u "_" ++ name_suffix E
                      ++ (OsPath.splitext (src_path ev)).2)))) →
  ok_ev (Ev_move (src_path ev)
           (OsPath.join (error_directory self)
              (OsPath.basename (src_path ev)))) →
  triple I (Scanner.on_created E fuel self ev) I.
Proof.
  intros Hfin Herr Hmf Hme Htok Hno. unfold Scanner.on_created.
  destruct (negb _); [|apply inv_ret].
  apply inv_bind; [apply kept_log|]. intros _.
  apply inv_bind; [apply kept_wait_for_file|]. intros _.
  unfold Scanner.classify_and_file.
  destruct (endswith _ _); [|apply kept_log].
  apply (triple_bind_value I (token_or_None po_pattern_plain)).
  - apply kept_scanner_extract.
  - eapply on_return_weaken; [apply scanner_extract_on_return|].
    by intros a w [H _].
  - intros po Hpo. by apply (kept_filing_branches po_pattern_plain).
Qed.

End Watched.

End WatchFacts.

Import WatchFacts.

Module MoveFacts.

Lemma token_char_not_sep c : is_token_char c = true → c ≠ OsPath.sep.
Proof. intros H ->. vm_compute in H. discriminate. Qed.

Lemma hex_char_not_sep c : Uuid.is_hex_char c = true → c ≠ OsPath.sep.
Proof. intros H ->. vm_compute in H. discriminate. Qed.

Lemma Forall_not_elem (P : N → Prop) (s : str) c :
  Forall P s → ¬ P c → c ∉ s.
Proof.
  intros Hs Hc Hin. rewrite Forall_forall in Hs. by apply Hc, Hs.
Qed.

(** The new name of a file has no separator in it. *)
Lemma new_name_no_sep E po p :
  Re.lang po_pattern po →
  OsPath.sep ∉ po ++ u "_" ++ name_suffix E ++ (OsPath.splitext p).2.
Proof.
  intros [_ Hpo]%word_token_chars.
  rewrite !not_elem_of_app. repeat split.
  - eapply Forall_not_elem; [exact Hpo|]. by intros H%token_char_not_sep.
  - apply (bool_decide_eq_false_1 (_ ∈ _)). reflexivity.
  - eapply Forall_not_elem; [apply suffix_six_hex|].
    by intros H%hex_char_not_sep.
  - apply splitext_ext_no_sep.
Qed.

Lemma handler_move_token E pattern self p po :
  (∀ m, Re.lang pattern m → Re.lang po_pattern m) →
  Re.lang pattern po →
  handler_move E pattern self p p
    (OsPath.join (finished_directory self)
       (po ++ u "_" ++ name_suffix E ++ (OsPath.splitext p).2)).
Proof.
  intros Hsub Hpo. split; [done|]. eexists. split; [reflexivity|]. left.
  destruct (join_name (finished_directory self) _
              (new_name_no_sep E po p (Hsub _ Hpo))) as [_ ->].
  split; [done|]. by exists po.
Qed.

Lemma handler_move_no_token E pattern self p :
  handler_move E pattern self p p
    (OsPath.join (error_directory self) (OsPath.basename p)).
Proof.
  split; [done|]. eexists. split; [reflexivity|]. right.
  by destruct (join_name (error_directory self) _ (basename_no_sep p))
    as [_ ->].
Qed.

Section Moves.

Context (ok : str → str → Prop) (t0 : list event).

Lemma moves_within_ev ev w :
  (∀ s d, ev = Ev_move s d → ok s d) →
  moves_within ok t0 w → moves_within ok t0 (add_events [ev] w).
Proof.
  intros Hev (evs & Ht & Hok). exists (evs ++ [ev]). simpl.
  split; [by rewrite Ht, app_assoc|].
  intros s d [Hin|Hin%list_elem_of_singleton]%elem_of_app; auto.
Qed.

Lemma moves_within_dir d w :
  moves_within ok t0 w → moves_within ok t0 (add_dir d w).2.
Proof. done. Qed.

Lemma moves_within_files : files_blind (moves_within ok t0).
Proof. by intros fs w H. Qed.

Lemma moves_within_other ev :
  is_move ev = false → is_makedirs ev = false →
  ∀ s d, ev = Ev_move s d → ok s d.
Proof. by intros H _ s d ->. Qed.

End Moves.

Section Dirs.

Context (d0 allowed : gset str) (t0 : list event).

Lemma made_within_ev ev w :
  (∀ d, ev = Ev_makedirs d → d ∈ allowed) →
  made_within d0 allowed t0 w →
  made_within d0 allowed t0 (add_events [ev] w).
Proof.
  intros Hev [Hd (evs & Ht & Hok)]. split; [done|].
  exists (evs ++ [ev]). simpl. split; [by rewrite Ht, app_assoc|].
  intros d [Hin|Hin%list_elem_of_singleton]%elem_of_app; auto.
Qed.

Lemma made_within_dir d w :
  d ∈ allowed →
  made_within d0 allowed t0 w → made_within d0 allowed t0 (add_dir d w).2.
Proof.
  intros Hd [[H1 H2] Hm]. split; [|done]. split; simpl.
  - intros x Hx. apply elem_of_union. right. by apply H1.
  - intros x [->%elem_of_singleton|Hx]%elem_of_union.
    + apply elem_of_union. by right.
    + by apply H2.
Qed.

Lemma made_within_files : files_blind (made_within d0 allowed t0).
Proof. by intros fs w H. Qed.

Lemma made_within_other ev :
  is_move ev = false → is_makedirs ev = false →
  ∀ d, ev = Ev_makedirs d → d ∈ allowed.
Proof. by intros _ H d ->. Qed.

Lemma made_within_start w :
  d0 = dirs w → t0 = trace w → made_within d0 allowed t0 w.
Proof.
  intros -> ->. split.
  - split; [done|]. intros x Hx. apply elem_of_union. by left.
  - exists []. split; [by rewrite app_nil_r|].
    intros d Hin. by apply elem_of_nil in Hin.
Qed.

End Dirs.

End MoveFacts.

Import MoveFacts.

Module AnswerFacts.

Section Answer.

Context (E : env).

Lemma load_image_loop_other p total t range tries img e w :
  image_open E t = inl e → isinstance_OSError e = false →
  Scannertest.load_image_loop E p total (t :: range) tries img w =
  (Raise e, add_events [Ev_image_open p] w).
Proof.
  intros He Hos. simpl. unfold Image_open. run. rewrite He. run.
  by rewrite Hos.
Qed.

Lemma load_image_loop_answer p total : ∀ range tries img w,
  ∃ w', Scannertest.load_image_loop E p total range tries img w =
        (match ending_attempt E range with
         | Some (t, inr i) => Ret (Some t, Some i)
         | Some (t, inl e) => Raise e
         | None => Ret (from_option Some tries (last range), img)
         end, w').
Proof.
  induction range as [|t range IH]; intros tries img w.
  - by eexists.
  - cbn [ending_attempt]. destruct (image_open E t) as [e|i] eqn:Ho.
    + destruct (isinstance_OSError e) eqn:Hos.
      * rewrite (load_image_loop_fail E p total t range tries img e) by done.
        destruct (IH (Some t) img (add_events (load_retry p total t) w))
          as [w' ->].
        exists w'. destruct (ending_attempt E range) as [[? [?|?]]|]; try done.
        rewrite last_cons. by destruct (last range).
      * rewrite (load_image_loop_other p total t range tries img e) by done.
        by eexists.
    + rewrite (load_image_loop_ok E p total t range tries img i) by done.
      by eexists.
Qed.

Lemma ending_attempt_elem range t r :
  ending_attempt E range = Some (t, r) → t ∈ range.
Proof.
  induction range as [|x range IH]; simpl; [done|].
  destruct (image_open E x) as [e|i].
  - destruct (isinstance_OSError e).
    + intros H. right. by apply IH.
    + intros [= <- _]. left.
  - intros [= <- _]. left.
Qed.

Lemma scannertest_extract_answer p w :
  ∃ w', Scannertest.extract_po_number_from_image E p w
        = (Ret (Scannertest_answer E), w').
Proof.
  unfold Scannertest.extract_po_number_from_image, Scannertest_answer.
  unfold try_except at 1. rewrite bind_unfold.
  destruct (load_image_loop_answer p 5 (seq 0 5) None None w) as [w' ->].
  destruct (ending_attempt E (seq 0 5)) as [[t [e|i]]|].
  - run. by eexists.
  - run. case_bool_decide; [run; by eexists|].
    unfold pytesseract_image_to_string. run.
    destruct (image_to_string E i); run; by eexists.
  - run. by eexists.
Qed.

Lemma scanner_extract_answer p w :
  ∃ w', Scanner.extract_po_number_from_image E p w
        = (Ret (Scanner_answer E), w').
Proof.
  unfold Scanner.extract_po_number_from_image, Scanner_answer.
  unfold try_except at 1. rewrite bind_unfold. unfold Image_open. run.
  destruct (image_open E 0) as [e|i]; run; [by eexists|].
  unfold pytesseract_image_to_string. run.
  destruct (image_to_string E i) as [e|text]; run; [by eexists|].
  unfold plain_PO_number_from_text.
  destruct (Re.search po_pattern_plain text) as [[k m]|]; run; by eexists.
Qed.

End Answer.
End AnswerFacts.

Import AnswerFacts.

Module DeliveryFacts.

Lemma join_name_ne d n :
  OsPath.sep ∉ n → n ≠ [] → OsPath.join d n ≠ d.
Proof.
  intros Hn Hne Heq.
  destruct (join_name d n Hn) as [[H|H] _]; rewrite H in Heq;
    apply (f_equal length) in Heq; rewrite !length_app in Heq;
    destruct n; simpl in *; try done; lia.
Qed.

Lemma basename_spelling stem ext :
  ext ∈ png_spellings → OsPath.basename (stem ++ ext) ≠ [].
Proof.
  intros (rest & -> & _ & Hsep)%spelling_shape.
  unfold OsPath.basename, slice_from.
  rewrite (rfind_app_not_elem _ _ _ Hsep).
  pose proof (rfind_range stem OsPath.sep).
  rewrite drop_app_le by lia. by destruct (drop _ stem).
Qed.

Section Delivery.

Context (E : env) (self : POFileHandler).

Lemma destination_free pattern stem ext po :
  (∀ m, Re.lang pattern m → Re.lang po_pattern m) →
  token_or_None pattern po → ext ∈ png_spellings →
  destination E self (stem ++ ext) po
  ≠ (if truthy po then finished_directory self else error_directory self).
Proof.
  intros Hsub Hpo Hext. unfold destination. destruct (truthy po) eqn:Ht.
  - destruct po as [po|]; [|done]. simpl in *. apply join_name_ne.
    + by apply new_name_no_sep, Hsub.
    + apply Hsub, word_token_chars in Hpo as [Hlen _].
      destruct po; [simpl in Hlen; lia | done].
  - apply join_name_ne; [apply basename_no_sep | by apply basename_spelling].
Qed.

(** The two branches of the handlers, when nothing fails. *)
Lemma filing_branches_ok p (po : option str) b w :
  files w !! p = Some b → fault_makedirs E = None → fault_rename E = None →
  destination E self p po ∉ dirs w →
  destination E self p po
  ≠ (if truthy po then finished_directory self else error_directory self) →
  ∃ w', (if truthy po then
           log INFO (Extracted_PO_Number (default [] po));;
           rename_and_move E self p (default [] po)
         else
           log INFO PO_Number_could_not_be_extracted;;
           handle_no_po_numbers E self p) w = (Ret (), w')
        ∧ files w' = moved (files w) p (destination E self p po) b.
Proof.
  intros Hb Hmk Hrn Hd Hne. unfold destination in *.
  destruct (truthy po).
  - rewrite bind_unfold. unfold log at 1, emit at 1. cbn beta iota.
    destruct (rename_and_move_ok E self p (default [] po) b
                (add_events [Ev_log INFO (Extracted_PO_Number (default [] po))]
                   w) Hb Hmk Hrn Hd Hne) as (w' & -> & Hf & _).
    by exists w'.
  - rewrite bind_unfold. unfold log at 1, emit at 1. cbn beta iota.
    destruct (handle_no_po_numbers_ok E self p b
                (add_events [Ev_log INFO PO_Number_could_not_be_extracted] w)
                Hb Hmk Hrn Hd Hne) as (w' & -> & Hf & _).
    by exists w'.
Qed.

Lemma same_files_and_dirs_events w0 : events_blind (same_files_and_dirs w0).
Proof. by intros ev w H. Qed.

Lemma scannertest_classify_ok stem ext b w :
  ext ∈ png_spellings →
  files w !! (stem ++ ext) = Some b →
  fault_makedirs E = None → fault_rename E = None →
  destination E self (stem ++ ext) (Scannertest_answer E) ∉ dirs w →
  ∃ w', Scannertest.classify_and_file E self (stem ++ ext) w = (Ret (), w')
        ∧ files w' = moved (files w) (stem ++ ext)
                       (destination E self (stem ++ ext)
                          (Scannertest_answer E)) b.
Proof.
  intros Hext Hb Hmk Hrn Hd. unfold Scannertest.classify_and_file.
  rewrite (spelling_is_png _ _ Hext). unfold try_except.
  rewrite bind_unfold.
  destruct (scannertest_extract_total E (stem ++ ext) w)
    as (r & w1 & Heq & Htok & _).
  destruct (scannertest_extract_answer E (stem ++ ext) w) as [w1' Hans].
  rewrite Heq in Hans. injection Hans as -> <-.
  pose proof (inv_scannertest_extract E _ (same_files_and_dirs_events w)
                (stem ++ ext) w (conj eq_refl eq_refl)) as [Hf1 Hd1].
  rewrite Heq in Hf1, Hd1. simpl in Hf1, Hd1. rewrite Heq.
  destruct (filing_branches_ok (stem ++ ext) (Scannertest_answer E) b w1)
    as (w' & -> & Hf); [by rewrite Hf1 | done | done | by rewrite Hd1 | |].
  - by apply (destination_free po_pattern).
  - exists w'. by rewrite Hf, Hf1.
Qed.

Lemma scanner_classify_ok stem ext b w :
  ext ∈ png_spellings →
  files w !! (stem ++ ext) = Some b →
  fault_makedirs E = None → fault_rename E = None →
  destination E self (stem ++ ext) (Scanner_answer E) ∉ dirs w →
  ∃ w', Scanner.classify_and_file E self (stem ++ ext) w = (Ret (), w')
        ∧ files w' = moved (files w) (stem ++ ext)
                       (destination E self (stem ++ ext)
                          (Scanner_answer E)) b.
Proof.
  intros Hext Hb Hmk Hrn Hd. unfold Scanner.classify_and_file.
  rewrite (spelling_is_png _ _ Hext). rewrite bind_unfold.
  destruct (scanner_extract_total E (stem ++ ext) w)
    as (r & w1 & Heq & Htok & _).
  destruct (scanner_extract_answer E (stem ++ ext) w) as [w1' Hans].
  rewrite Heq in Hans. injection Hans as -> <-.
  pose proof (inv_scanner_extract E _ (same_files_and_dirs_events w)
                (stem ++ ext) w (conj eq_refl eq_refl)) as [Hf1 Hd1].
  rewrite Heq in Hf1, Hd1. simpl in Hf1, Hd1. rewrite Heq.
  destruct (filing_branches_ok (stem ++ ext) (Scanner_answer E) b w1)
    as (w' & -> & Hf); [by rewrite Hf1 | done | done | by rewrite Hd1 | |].
  - apply (destination_free po_pattern_plain); [|done..].
    apply plain_word_is_word.
  - exists w'. by rewrite Hf, Hf1.
Qed.

End Delivery.
End DeliveryFacts.

Import DeliveryFacts.

Module CollisionFacts.

Lemma handle_no_po_numbers_dirs E self p w :
  dirs (handle_no_po_numbers E self p w).2
  ⊆ dirs w ∪ {[error_directory self]}.
Proof.
  assert (triple (made_within (dirs w) {[error_directory self]} (trace w))
            (handle_no_po_numbers E self p)
            (made_within (dirs w) {[error_directory self]} (trace w))) as Ht.
  { apply (kept_handle_no_po_numbers E _
             (λ ev', ∀ d, ev' = Ev_makedirs d
                          → d ∈ ({[error_directory self]} : gset str))
             (λ d, d ∈ ({[error_directory self]} : gset str)));
      [ intros ev' w'; apply made_within_ev
      | intros d w'; apply made_within_dir
      | apply made_within_files | apply made_within_other
      | by apply elem_of_singleton
      | intros d [= <-]; by apply elem_of_singleton | done ]. }
  apply Ht. by apply made_within_start.
Qed.

Lemma moved_again (fs : file_map) p dst b1 b2 :
  moved (<[p := b2]> (moved fs p dst b1)) p dst b2 = moved fs p dst b2.
Proof.
  unfold moved. apply map_eq. intros q.
  destruct (decide (q = dst)) as [->|Hq]; [by rewrite !lookup_insert_eq|].
  rewrite !(lookup_insert_ne _ dst q) by done.
  destruct (decide (q = p)) as [->|Hp]; [by rewrite !lookup_delete_eq|].
  rewrite !(lookup_delete_ne _ p q) by done.
  rewrite lookup_insert_ne by done. rewrite lookup_insert_ne by done.
  by rewrite lookup_delete_ne by done.
Qed.

End CollisionFacts.

Import CollisionFacts.

Module StartFacts.
Import Startup.

Ltac srun :=
  unfold mbind, P_bind, mret, P_ret, logging, set_TESSERACT_CMD,
    get_TESSERACT_CMD, set_TESSDATA_PREFIX, set_tesseract_cmd,
    os_path_isfile, os_path_exists, os_path_dirname, sys_exit, stop;
  cbn beta iota.

(** The literals of [check_dependencies] are kept folded. *)
Ltac fold_literals sys :=
  generalize (OsPath.join (OsPath.join (MEIPASS sys) (u "Tesseract-OCR"))
                (u "tesseract.exe"));
  generalize (OsPath.join (OsPath.join (MEIPASS sys) (u "Tesseract-OCR"))
                (u "tessdata"));
  generalize (u "tessdata"); intros lit fdata fcmd.

Lemma P_bind_unfold {A B} (m : P A) (f : A → P B) s :
  (m ≫= f) s = match m s with
               | (Done a, s') => f a s'
               | (Stop e, s') => (Stop e, s')
               end.
Proof. reflexivity. Qed.

(** *** [os.path.dirname] *)

Lemma rstrip_snoc_ne s x c : x ≠ c → rstrip (s ++ [x]) c = s ++ [x].
Proof.
  intros Hx. induction s as [|y s IH]; simpl.
  - by destruct (N.eqb_spec x c).
  - rewrite IH. by destruct (s ++ [x]) eqn:Hs; [destruct s|].
Qed.

Lemma rstrip_snoc_eq s c : rstrip (s ++ [c]) c = rstrip s c.
Proof.
  induction s as [|y s IH]; simpl; [by rewrite N.eqb_refl|]. by rewrite IH.
Qed.

(** The directory of a file that is joined to a directory whose name ends
    in a character that is no separator. *)
Lemma dirname_join_file d x f :
  x ≠ OsPath.sep → OsPath.sep ∉ f →
  dirname (OsPath.join (d ++ [x]) f) = d ++ [x].
Proof.
  intros Hx Hf. unfold OsPath.join.
  destruct (startswith f [OsPath.sep]) eqn:Hs;
    [by apply startswith_sep_elem in Hs|].
  rewrite bool_decide_eq_false_2 by (by destruct d).
  replace (endswith (d ++ [x]) [OsPath.sep]) with false; simpl.
  2:{ symmetry. unfold endswith. apply bool_decide_eq_false.
      rewrite length_app. simpl.
      replace (length d + 1 - 1)%nat with (length d) by lia.
      rewrite drop_app_length. by intros [= ->]. }
  unfold dirname.
  replace ((d ++ [x]) ++ OsPath.sep :: f)
    with ((d ++ [x]) ++ OsPath.sep :: f) by done.
  rewrite (rfind_app_last _ _ _ Hf). unfold slice_to.
  replace (Z.to_nat (Z.of_nat (length (d ++ [x])) + 1))
    with (length ((d ++ [x]) ++ [OsPath.sep]))
    by (rewrite !length_app; simpl; lia).
  replace ((d ++ [x]) ++ OsPath.sep :: f)
    with (((d ++ [x]) ++ [OsPath.sep]) ++ f) by (by rewrite <- !app_assoc).
  rewrite take_app_length.
  rewrite bool_decide_eq_false_2 by (by destruct d).
  rewrite bool_decide_eq_false_2.
  - simpl. rewrite rstrip_snoc_eq. by apply rstrip_snoc_ne.
  - intros Heq. assert (x ∈ (d ++ [x]) ++ [OsPath.sep]) as Hin
      by (rewrite !elem_of_app, !list_elem_of_singleton; auto).
    rewrite Heq in Hin. by apply elem_of_replicate in Hin as [? _].
Qed.

(** A name that does not start with a separator is joined after the same
    prefix, whatever the name. *)
Lemma join_prefix a :
  ∃ a', ∀ b, startswith b [OsPath.sep] = false → OsPath.join a b = a' ++ b.
Proof.
  unfold OsPath.join.
  destruct (bool_decide (a = []) || endswith a [OsPath.sep]).
  - exists a. by intros b ->.
  - exists (a ++ [OsPath.sep]). intros b ->. by rewrite <- app_assoc.
Qed.

(** *** [check_dependencies] *)

Lemma scannertest_check_done sys a b s s' :
  ScannertestMain.check_dependencies sys a b s = (Done (), s') →
  ∃ cmd d,
    TESSERACT_CMD s' = Some cmd ∧ tesseract_cmd s' = Some cmd
    ∧ cmd ∈ regular_files s'
    ∧ TESSDATA_PREFIX s' = Some d
    ∧ (d ∈ regular_files s' ∨ d ∈ directories s')
    ∧ regular_files s' = regular_files s ∧ directories s' = directories s
    ∧ logged s'
      = logged s ++ [(INFO, Tesseract_successfully_loaded (Some cmd))].
Proof.
  unfold ScannertestMain.check_dependencies. fold_literals sys. srun.
  destruct (truthy a && truthy b) eqn:Hab;
    [|destruct (frozen sys); [|destruct (which_tesseract sys) as [c|]]];
    simpl.
  all: try (destruct a as [[|c a]|]; try discriminate Hab; simpl).
  all: repeat (case_bool_decide; simpl); try discriminate.
  all: intros [= <-]; simpl; eexists _, _; repeat split; eauto.
Qed.

(** However [check_dependencies] ends, the paths are as they were, and it
    is not an exception of the file system that has ended it. *)
Lemma scannertest_check_frame sys a b s :
  regular_files (ScannertestMain.check_dependencies sys a b s).2
  = regular_files s
  ∧ directories (ScannertestMain.check_dependencies sys a b s).2
    = directories s
  ∧ ∀ x, (ScannertestMain.check_dependencies sys a b s).1 ≠ Stop (Raised x).
Proof.
  unfold ScannertestMain.check_dependencies. fold_literals sys. srun.
  destruct (truthy a && truthy b) eqn:Hab;
    [|destruct (frozen sys); [|destruct (which_tesseract sys) as [c|]]];
    simpl.
  all: try (destruct a as [[|c a]|]; try discriminate Hab; simpl).
  all: repeat (case_bool_decide; simpl); done.
Qed.

Lemma scanner_check_frame sys s :
  regular_files (ScannerMain.check_dependencies sys s).2 = regular_files s
  ∧ directories (ScannerMain.check_dependencies sys s).2 = directories s
  ∧ ∀ x, (ScannerMain.check_dependencies sys s).1 ≠ Stop (Raised x).
Proof.
  unfold ScannerMain.check_dependencies.
  generalize (OsPath.join (OsPath.join (MEIPASS sys) (u "Tesseract-OCR"))
                (u "tesseract.exe")) as fcmd. intros fcmd. srun.
  destruct (frozen sys); [|destruct (which_tesseract sys) as [c|]]; simpl;
    done.
Qed.

Lemma scanner_check_done sys s :
  frozen sys = true ∨ is_Some (which_tesseract sys) →
  ∃ cmd,
    (if frozen sys
     then cmd = OsPath.join (OsPath.join (MEIPASS sys) (u "Tesseract-OCR"))
                  (u "tesseract.exe")
     else which_tesseract sys = Some cmd)
    ∧ ScannerMain.check_dependencies sys s
      = (Done (),
         {| regular_files := regular_files s; directories := directories s;
            TESSERACT_CMD := Some cmd;
            TESSDATA_PREFIX := Some (dirname cmd);
            tesseract_cmd := Some cmd; logged := logged s |}).
Proof.
  intros H. unfold ScannerMain.check_dependencies.
  generalize (OsPath.join (OsPath.join (MEIPASS sys) (u "Tesseract-OCR"))
                (u "tesseract.exe")) as fcmd. intros fcmd. srun.
  destruct (frozen sys).
  - by exists fcmd.
  - destruct H as [?|[c Hc]]; [done|]. rewrite Hc. by exists c.
Qed.

(** *** The loop that makes the directories *)

Lemma ensure_directories_there sys f fs s :
  there f s = true →
  ensure_directories sys (f :: fs) s = ensure_directories sys fs s.
Proof.
  unfold there. intros H. cbn [ensure_directories]. rewrite P_bind_unfold.
  unfold os_path_exists. cbn beta iota. by rewrite H.
Qed.

Lemma ensure_directories_fault sys f fs s e :
  there f s = false → makedirs_fault sys f = Some e →
  ensure_directories sys (f :: fs) s = (Stop (Raised e), noted f s).
Proof.
  unfold there. intros H He. cbn [ensure_directories].
  rewrite P_bind_unfold. unfold os_path_exists. cbn beta iota. rewrite H.
  cbn [negb]. rewrite !P_bind_unfold. unfold logging at 1. cbn beta iota.
  unfold os_makedirs at 1. by rewrite He.
Qed.

Lemma ensure_directories_made sys f fs s :
  there f s = false → makedirs_fault sys f = None →
  ensure_directories sys (f :: fs) s
  = ensure_directories sys fs (made f s).
Proof.
  unfold there. intros H He. cbn [ensure_directories].
  rewrite P_bind_unfold. unfold os_path_exists. cbn beta iota. rewrite H.
  cbn [negb]. rewrite !P_bind_unfold. unfold logging at 1. cbn beta iota.
  unfold os_makedirs at 1. rewrite He. cbn [regular_files directories].
  by rewrite H.
Qed.

Lemma ensure_directories_frame sys : ∀ fs s,
  let r := ensure_directories sys fs s in
  regular_files r.2 = regular_files s
  ∧ directories s ⊆ directories r.2
  ∧ directories r.2 ⊆ directories s ∪ list_to_set fs
  ∧ TESSERACT_CMD r.2 = TESSERACT_CMD s
  ∧ TESSDATA_PREFIX r.2 = TESSDATA_PREFIX s
  ∧ tesseract_cmd r.2 = tesseract_cmd s
  ∧ (∃ entries, logged r.2 = logged s ++ entries)
  ∧ (∀ e, r.1 = Stop e → ∃ x, e = Raised x)
  ∧ (r.1 = Done () →
     ∀ f, f ∈ fs → f ∈ regular_files r.2 ∨ f ∈ directories r.2).
Proof.
  induction fs as [|f fs IH]; intros s; cbn zeta.
  - simpl. repeat split; try done.
    + intros x Hx. apply elem_of_union. by left.
    + exists []. by rewrite app_nil_r.
    + intros _ f Hf. by apply elem_of_nil in Hf.
  - destruct (there f s) eqn:Hthere.
    + rewrite (ensure_directories_there sys f fs s Hthere).
      specialize (IH s). cbn zeta in IH.
      destruct IH as (H1 & H2 & H3 & H4 & H5 & H6 & H7 & H8 & H9).
      repeat split; try done.
      * intros x Hx. apply H3 in Hx. set_unfold. tauto.
      * intros Hd g [->|Hg]%elem_of_cons; [|by apply H9].
        apply orb_true_iff in Hthere as [Hf%bool_decide_eq_true
                                        |Hf%bool_decide_eq_true].
        -- left. by rewrite H1.
        -- right. by apply H2.
    + destruct (makedirs_fault sys f) as [e|] eqn:He.
      * rewrite (ensure_directories_fault sys f fs s e Hthere He).
        simpl. repeat split; try done.
        -- intros x Hx. apply elem_of_union. by left.
        -- by eexists.
        -- intros e' [= <-]. by eexists.
      * rewrite (ensure_directories_made sys f fs s Hthere He).
        specialize (IH (made f s)). cbn zeta in IH.
        destruct IH as (H1 & H2 & H3 & H4 & H5 & H6 & [en H7] & H8 & H9).
        repeat split; try done.
        -- intros x Hx. apply H2. simpl. apply elem_of_union. by right.
        -- intros x Hx. apply H3 in Hx. simpl in Hx. set_unfold. tauto.
        -- rewrite H7. simpl. rewrite <- app_assoc. by eexists.
        -- intros Hd g [->|Hg]%elem_of_cons; [|by apply H9].
           right. apply H2. simpl. apply elem_of_union. left.
           by apply elem_of_singleton.
Qed.

End StartFacts.

Import StartFacts.

Module MainFacts.
Import Startup.

(** The part of the [__main__] blocks that follows [check_dependencies]. *)
Lemma after_check sys sch s :
  let r := (ensure_directories sys (folders sch);;
            logging INFO (Monitoring_directory (waves_directory sch));;
            mret sch) s in
  regular_files r.2 = regular_files s
  ∧ directories s ⊆ directories r.2
  ∧ directories r.2 ⊆ directories s ∪ list_to_set (folders sch)
  ∧ TESSDATA_PREFIX r.2 = TESSDATA_PREFIX s
  ∧ tesseract_cmd r.2 = tesseract_cmd s
  ∧ (∀ e, r.1 = Stop e → ∃ x, e = Raised x)
  ∧ ∀ sch', r.1 = Done sch' →
      sch' = sch
      ∧ Forall (λ d, there d r.2 = true) (folders sch)
      ∧ last (logged r.2)
        = Some (INFO, Monitoring_directory (waves_directory sch)).
Proof.
  cbn zeta. rewrite P_bind_unfold.
  pose proof (ensure_directories_frame sys (folders sch) s) as H.
  cbn zeta in H.
  destruct (ensure_directories sys (folders sch) s) as [[[]|e] s1];
    simpl in *;
    destruct H as (H1 & H2 & H3 & H4 & H5 & H6 & H7 & H8 & H9);
    refine (conj _ (conj _ (conj _ (conj _ (conj _ (conj _ _))))));
    try done.
  all: try (intros e' [= <-]; by apply H8).
  - intros sch' [= <-]. split; [done|]. split; [|apply last_snoc].
    apply Forall_forall. intros d Hd. unfold there. simpl.
    apply orb_true_iff.
    destruct (H9 eq_refl d Hd); [left | right]; by apply bool_decide_eq_true.
Qed.

Lemma main_of_unfold prog sys root s :
  main_of prog sys root s
  = ((match prog with
      | scannertest_py => ScannertestMain.check_dependencies sys None None
      | scanner_py => ScannerMain.check_dependencies sys
      end);;
     ensure_directories sys (folders (layout_of prog root));;
     logging INFO
       (Monitoring_directory (waves_directory (layout_of prog root)));;
     mret (layout_of prog root)) s.
Proof. by destruct prog. Qed.

(** [check_dependencies] of either program: the paths stay, no exception
    of the file system ends it, and when it returns Tesseract is bound. *)
Lemma check_of_frame prog sys s :
  let r := (match prog with
            | scannertest_py =>
                ScannertestMain.check_dependencies sys None None
            | scanner_py => ScannerMain.check_dependencies sys
            end) s in
  regular_files r.2 = regular_files s
  ∧ directories r.2 = directories s
  ∧ (∀ x, r.1 ≠ Stop (Raised x))
  ∧ (r.1 = Done () →
     is_Some (tesseract_cmd r.2) ∧ is_Some (TESSDATA_PREFIX r.2)).
Proof.
  cbn zeta. destruct prog.
  - destruct (scannertest_check_frame sys None None s) as (H1 & H2 & H3).
    repeat split; try done.
    + destruct (ScannertestMain.check_dependencies sys None None s)
        as [[[]|e] s1] eqn:Heq; [|done].
      destruct (scannertest_check_done _ _ _ _ _ Heq)
        as (cmd & d & _ & Hc & _). simpl. by rewrite Hc.
    + destruct (ScannertestMain.check_dependencies sys None None s)
        as [[[]|e] s1] eqn:Heq; [|done].
      destruct (scannertest_check_done _ _ _ _ _ Heq)
        as (cmd & d & _ & _ & _ & Hd & _). simpl. by rewrite Hd.
  - destruct (scanner_check_frame sys s) as (H1 & H2 & H3).
    refine (conj H1 (conj H2 (conj H3 _))). intros Hd.
    assert (frozen sys = true ∨ is_Some (which_tesseract sys)) as Hor.
    { destruct (frozen sys) eqn:Hf; [by left|]. right.
      destruct (which_tesseract sys) eqn:Hw; [by eexists|]. exfalso.
      revert Hd. unfold ScannerMain.check_dependencies. srun.
      by rewrite Hf, Hw. }
    destruct (scanner_check_done sys s Hor) as (cmd & _ & ->). simpl.
    split; by eexists.
Qed.

Lemma main_of_frame prog sys root s :
  let r := main_of prog sys root s in
  regular_files r.2 = regular_files s
  ∧ directories s ⊆ directories r.2
  ∧ directories r.2
    ⊆ directories s ∪ list_to_set (folders (layout_of prog root))
  ∧ (∀ e, r.1 = Stop e → (∀ x, e ≠ Raised x) →
          directories r.2 = directories s)
  ∧ ∀ sch, r.1 = Done sch →
      sch = layout_of prog root ∧ started sch s r.2.
Proof.
  cbn zeta. rewrite main_of_unfold, P_bind_unfold.
  pose proof (check_of_frame prog sys s) as Hc. cbn zeta in Hc.
  destruct (match prog with
            | scannertest_py =>
                ScannertestMain.check_dependencies sys None None
            | scanner_py => ScannerMain.check_dependencies sys
            end s) as [[[]|e] s1]; simpl in Hc;
    destruct Hc as (Hc1 & Hc2 & Hc3 & Hc4).
  - pose proof (after_check sys (layout_of prog root) s1) as Ha.
    cbn zeta in Ha.
    destruct Ha as (Ha1 & Ha2 & Ha3 & Ha4 & Ha5 & Ha6 & Ha7).
    destruct (Hc4 eq_refl) as [Hcmd Hpre].
    rewrite Hc2 in Ha2, Ha3.
    refine (conj _ (conj Ha2 (conj Ha3 (conj _ _)))).
    + by rewrite Ha1.
    + intros e He Hne. destruct (Ha6 e He) as [x ->]. by destruct (Hne x).
    + intros sch Hsch. destruct (Ha7 sch Hsch) as (-> & Hfor & Hlast).
      split; [done|].
      refine (conj Hfor (conj _ (conj Ha2 (conj _ (conj _ Hlast))))).
      * by rewrite Ha1.
      * by rewrite Ha5.
      * by rewrite Ha4.
  - simpl. repeat split; try done.
    + by rewrite Hc2.
    + rewrite Hc2. intros x Hx. apply elem_of_union. by left.
Qed.

(** A name joined to a directory whose name ends in a letter. *)
Lemma join_after_letter d x n :
  x ≠ OsPath.sep → OsPath.sep ∉ n →
  OsPath.join (d ++ [x]) n = d ++ [x] ++ [OsPath.sep] ++ n.
Proof.
  intros Hx Hn. unfold OsPath.join.
  destruct (startswith n [OsPath.sep]) eqn:Hs;
    [by apply startswith_sep_elem in Hs|].
  rewrite bool_decide_eq_false_2 by (by destruct d).
  replace (endswith (d ++ [x]) [OsPath.sep]) with false.
  - simpl. by rewrite <- !app_assoc.
  - symmetry. unfold endswith. apply bool_decide_eq_false.
    rewrite length_app. simpl.
    replace (length d + 1 - 1)%nat with (length d) by lia.
    rewrite drop_app_length. by intros [= ->].
Qed.

(** The layout of the directories. *)
Lemma layout_of_paths prog root :
  ∃ root',
    waves_directory (layout_of prog root) = root' ++ u "waves"
    ∧ finished_directory (event_handler (layout_of prog root))
      = root' ++ u "wavesfinished"
    ∧ error_directory (event_handler (layout_of prog root))
      = root' ++ (match prog with
                  | scannertest_py => u "wavesfinished/UncapturedPO"
                  | scanner_py => u "waveserrors"
                  end).
Proof.
  destruct (join_prefix root) as [root' Hroot]. exists root'.
  destruct prog; unfold layout_of, ScannertestMain.layout, ScannerMain.layout;
    cbn [waves_directory event_handler finished_directory error_directory];
    rewrite !Hroot by reflexivity; (split; [done|]); (split; [done|]);
    [|done].
  change (u "wavesfinished") with (u "wavesfinishe" ++ [100]).
  rewrite app_assoc, join_after_letter;
    [| done | apply (bool_decide_eq_false_1 (_ ∈ _)); reflexivity].
  by rewrite <- !app_assoc.
Qed.

End MainFacts.

Import MainFacts.

Module NamingFacts.

Lemma wait_for_file_access_creates E p fuel a w :
  open_for_append E a = None → files w !! p = None →
  Scannertest.wait_for_file_access E (S fuel) p a w =
  (Ret (), put_files (<[p := []]> (files w)) (add_events [Ev_open_append p] w)).
Proof.
  intros Ho Hb. cbn [Scannertest.wait_for_file_access].
  unfold open_append, get_files, set_files. run. rewrite Ho. simpl.
  by rewrite Hb.
Qed.

Lemma no_sep_not_startswith n :
  OsPath.sep ∉ n → startswith n [OsPath.sep] = false.
Proof.
  intros Hn. destruct (startswith n [OsPath.sep]) eqn:Hs; [|done].
  by apply startswith_sep_elem in Hs.
Qed.

(** Two words without [c] that are followed by [c] in the same string are
    the same word. *)
Lemma app_cons_inj_first (c : N) : ∀ a b x y,
  c ∉ a → c ∉ b → a ++ c :: x = b ++ c :: y → a = b ∧ x = y.
Proof.
  induction a as [|z a IH]; intros [|z' b] x y Ha Hb H; simpl in H.
  - by injection H.
  - injection H as -> _. by apply not_elem_of_cons in Hb as [? _].
  - injection H as -> _. by apply not_elem_of_cons in Ha as [? _].
  - injection H as -> H. apply not_elem_of_cons in Ha as [_ Ha].
    apply not_elem_of_cons in Hb as [_ Hb].
    by destruct (IH b x y Ha Hb H) as [-> ->].
Qed.

Lemma token_char_not_underscore c : is_token_char c = true → c ≠ 95.
Proof. intros H ->. vm_compute in H. discriminate. Qed.

End NamingFacts.

Import NamingFacts.

Module FiledFacts.

Section Filed.

Context (E : env) (fs0 : file_map) (h0 : list file_map) (src : str)
  (b : list Byte.byte).
Hypothesis src_there : fs0 !! src = Some b.

Lemma untouched_filed dst w :
  files w = fs0 → history w = h0 → filed E fs0 h0 src dst b false w.
Proof.
  intros Hf Hh. exists []. rewrite app_nil_r.
  split; [done|]. split; [done|]. split; [by left | done].
Qed.

Lemma filed_ext dst r r' w w' :
  files w' = files w → history w' = history w → (r' = true → r = true) →
  filed E fs0 h0 src dst b r w → filed E fs0 h0 src dst b r' w'.
Proof.
  intros Hf Hh Hr (hs & H1 & H2 & H3 & H4).
  exists hs. rewrite Hf, Hh. repeat split; auto.
Qed.

(** The last step of [shutil.move]. *)
Lemma rename_or_copy_filed rd w :
  files w = fs0 → history w = h0 → rd ∉ dirs w →
  filed E fs0 h0 src rd b (is_ret (rename_or_copy E src rd w).1)
    (rename_or_copy E src rd w).2.
Proof.
  intros Hf Hh Hrd. unfold rename_or_copy, try_except.
  destruct (fault_rename E) as [e|] eqn:Hfr.
  - rewrite (os_rename_fault E src _ e) by done.
    destruct (isinstance_OSError e) eqn:Hos; [|by apply untouched_filed].
    assert (renaming_falls_back E) as Hfb by (by exists e).
    rewrite bind_unfold.
    destruct (decide (src = rd)) as [<-|Hne].
    { rewrite (shutil_copy2_same E fs0 src b) by done.
      by apply untouched_filed. }
    destruct (fault_copy E) as [e'|] eqn:Hfc.
    { destruct (copy_written E) as [k|] eqn:Hk.
      - rewrite (shutil_copy2_fault_partly E fs0 src b src_there rd e' k)
          by done.
        exists [partly_copied fs0 rd b k]. simpl. rewrite Hh.
        split; [done|]. split; [done|]. split; [|done].
        right. right. split; [done|]. split; [done|]. left.
        exists k. by repeat split.
      - rewrite (shutil_copy2_fault_before E fs0 src b src_there rd e')
          by done.
        by apply untouched_filed. }
    rewrite (shutil_copy2_ok E fs0 src b src_there rd) by done.
    cbn beta iota.
    destruct (fault_unlink E) as [e''|] eqn:Hfu.
    + rewrite (os_unlink_fault E src e'') by done.
      exists [copied fs0 rd b]. simpl. rewrite Hh.
      split; [done|]. split; [done|]. split; [|done].
      right. right. split; [done|]. split; [done|]. right. left.
      by repeat split.
    + rewrite (os_unlink_ok E fs0 src b src_there rd) by done.
      exists [copied fs0 rd b; moved fs0 src rd b]. simpl. rewrite Hh.
      rewrite <- app_assoc.
      split; [done|]. split; [done|]. split; [|done].
      right. right. split; [done|]. split; [done|]. right. right.
      by repeat split.
  - rewrite (os_rename_ok E fs0 src b src_there rd) by done.
    exists [moved fs0 src rd b]. simpl. rewrite Hh.
    split; [done|]. split; [done|]. split; [|done]. right. left. by split.
Qed.

(** [shutil.move] files the file where it settles. *)
Lemma shutil_move_filed d w :
  files w = fs0 → history w = h0 →
  filed E fs0 h0 src (real_destination w src d) b
    (is_ret (shutil_move E src d w).1) (shutil_move E src d w).2.
Proof.
  intros Hf Hh. unfold shutil_move, path_isdir, path_exists, real_destination.
  run. set (w1 := add_events [Ev_move src d] w).
  set (rd := OsPath.join d (OsPath.basename src)).
  destruct (bool_decide (d ∈ dirs w)) eqn:Hd; simpl.
  - destruct (bool_decide (rd ∈ dirs w)) eqn:Hrd; simpl;
      [by apply untouched_filed|].
    destruct (bool_decide (is_Some (files w !! rd))); simpl;
      [by apply untouched_filed|].
    apply bool_decide_eq_false in Hrd.
    pose proof (rename_or_copy_filed rd w1 Hf Hh Hrd) as H.
    destruct (rename_or_copy E src rd w1) as [[[]|e|] w2]; simpl in *; auto.
  - apply bool_decide_eq_false in Hd.
    pose proof (rename_or_copy_filed d w1 Hf Hh Hd) as H.
    destruct (rename_or_copy E src d w1) as [[[]|e|] w2]; simpl in *; auto.
Qed.

(** In every state a filed file went through, its content is at its
    first path or at the destination. *)
Lemma filed_never_lost dst r w :
  filed E fs0 h0 src dst b r w →
  ∃ hs, history w = h0 ++ hs
        ∧ Forall (λ fs, fs !! src = Some b ∨ fs !! dst = Some b)
            (hs ++ [files w]).
Proof.
  intros (hs & Hh & Hf & Hs & _). exists hs. split; [done|]. rewrite Hf.
  assert (moved fs0 src dst b !! dst = Some b) as Hm
    by apply lookup_insert_eq.
  assert (copied fs0 dst b !! dst = Some b) as Hc
    by apply lookup_insert_eq.
  destruct Hs as [->|[[-> _]|(Hne & _ & [(k & -> & _)|[[-> _]|[-> _]]])]];
    simpl; repeat (apply Forall_cons; split); try apply Forall_nil.
  all: first [ done | by left | by right
             | left; unfold partly_copied; by rewrite lookup_insert_ne ].
Qed.

(** *** Runs that file the file where [shutil.move] settles when it is
    asked for [d] *)

Context (d : str) (isd : bool).

Abbreviation pre := (unmoved_with fs0 h0 d isd).
Abbreviation files_it c m := (filing E fs0 h0 src d isd b c m).
Abbreviation always := (λ _ : list event, true).
Abbreviation never := (λ _ : list event, false).

Lemma pre_events ev w : pre w → pre (add_events [ev] w).
Proof. done. Qed.

Lemma pre_dir x w : x ≠ d → pre w → pre (add_dir x w).2.
Proof.
  intros Hx (Hf & Hh & Hd). split; [done|]. split; [done|]. simpl.
  rewrite <- Hd. apply bool_decide_ext. rewrite elem_of_union, elem_of_singleton.
  split; [intros [?|?]; [by subst|done] | by right].
Qed.

Lemma pre_filed r w :
  pre w → r = false →
  filed E fs0 h0 src (if isd then OsPath.join d (OsPath.basename src) else d)
    b r w.
Proof. intros (Hf & Hh & _) ->. by apply untouched_filed. Qed.

Lemma filing_stays {A} (m : M A) : triple pre m pre → files_it never m.
Proof. intros H w Hw. apply pre_filed; [apply (H w Hw) | done]. Qed.

Lemma filing_weaken {A} c (m : M A) : files_it always m → files_it c m.
Proof.
  intros H w Hw. specialize (H w Hw). eapply filed_ext; [..|apply H]; try done.
  simpl. intros Hc. by apply andb_prop in Hc as [_ ?].
Qed.

Lemma filing_bind_value {A B} c (φ : A → Prop) (m : M A) (f : A → M B) :
  triple pre m pre → on_return (λ a _, φ a) m →
  (∀ a, φ a → files_it c (f a)) → files_it c (m ≫= f).
Proof.
  intros Hm Hφ Hf w Hw. specialize (Hm w Hw). specialize (Hφ w).
  rewrite bind_unfold.
  destruct (m w) as [[a|e|] w']; simpl in *.
  - by apply Hf.
  - apply pre_filed; [done | apply andb_false_r].
  - apply pre_filed; [done | apply andb_false_r].
Qed.

Lemma filing_bind_before {A B} c (m : M A) (f : A → M B) :
  triple pre m pre → (∀ a, files_it c (f a)) → files_it c (m ≫= f).
Proof.
  intros Hm Hf. apply (filing_bind_value c (λ _, True)); auto.
  intros w. by destruct (m w).1.
Qed.

Lemma filing_then_log {A} (m : M A) l msg :
  files_it always m → files_it always (m;; log l msg).
Proof.
  intros Hm w Hw. specialize (Hm w Hw). rewrite bind_unfold.
  destruct (m w) as [[a|e|] w']; simpl in *; exact Hm.
Qed.

Lemma shutil_move_filing : files_it always (shutil_move E src d).
Proof.
  intros w (Hf & Hh & Hd).
  pose proof (shutil_move_filed d w Hf Hh) as H.
  unfold real_destination in H. by rewrite Hd in H.
Qed.

Lemma pre_log l m : triple pre (log l m) pre.
Proof. apply inv_emit. intros w. apply pre_events. Qed.

Lemma pre_sleep n : triple pre (sleep n) pre.
Proof. apply inv_emit. intros w. apply pre_events. Qed.

Lemma pre_open_append n : triple pre (open_append E src n) pre.
Proof.
  intros w (Hf & Hh & Hd). unfold open_append, get_files. run.
  destruct (open_for_append E n); simpl; [done|].
  by rewrite Hf, src_there.
Qed.

Lemma pre_wait_for_file_access : ∀ fuel n,
  triple pre (Scannertest.wait_for_file_access E fuel src n) pre.
Proof.
  induction fuel as [|fuel IH]; intros n; simpl.
  - apply inv_out_of_fuel.
  - apply inv_bind.
    + apply inv_try_except.
      * apply inv_bind; [apply pre_open_append | intros; apply inv_ret].
      * intros e. apply inv_bind; [apply pre_log|]. intros _.
        apply inv_bind; [apply pre_sleep | intros; apply inv_ret].
    + intros [|]; [apply inv_ret | apply IH].
Qed.

Lemma pre_wait_for_file p fuel n :
  triple pre (Scanner.wait_for_file E fuel p n) pre.
Proof.
  apply (kept_wait_for_file E pre (λ _, True)); [|done].
  intros ev w _. apply pre_events.
Qed.

Lemma pre_scannertest_extract p :
  triple pre (Scannertest.extract_po_number_from_image E p) pre.
Proof.
  apply (kept_scannertest_extract E pre (λ _, True)); [|done].
  intros ev w _. apply pre_events.
Qed.

Lemma pre_scanner_extract p :
  triple pre (Scanner.extract_po_number_from_image E p) pre.
Proof.
  apply (kept_scanner_extract E pre (λ _, True)); [|done].
  intros ev w _. apply pre_events.
Qed.

Lemma pre_makedirs_if_missing x l msg :
  x ≠ d →
  triple pre
    (there ← path_exists x;
     if negb (there : bool) then os_makedirs E x;; log l msg else mret ())
    pre.
Proof.
  intros Hx. apply inv_bind; [apply inv_path_exists|].
  intros [|]; simpl; [apply inv_ret|].
  apply inv_bind; [|intros; apply pre_log].
  apply (kept_os_makedirs E pre (λ _, True) (λ y, y ≠ d));
    [ intros ev w _; apply pre_events | intros y w; apply pre_dir
    | done | done ].
Qed.

Lemma rename_and_move_filing self po :
  d = OsPath.join (finished_directory self)
        (po ++ u "_" ++ name_suffix E ++ (OsPath.splitext src).2) →
  finished_directory self ≠ d →
  files_it always (rename_and_move E self src po).
Proof.
  intros Hd Hne. unfold rename_and_move.
  apply (filing_bind_value _
           (λ h, h = Uuid.hex (Uuid.uuid4_int (urandom16 E)))).
  { apply (kept_uuid4_hex E pre (λ _, True)); [|done].
    intros ev w _. apply pre_events. }
  { by intros w. }
  intros h ->. apply filing_bind_before; [apply inv_path_exists|].
  intros there. apply filing_bind_before.
  { destruct there; simpl; [apply inv_ret|].
    apply inv_bind; [|intros; apply pre_log].
    apply (kept_os_makedirs E pre (λ _, True) (λ y, y ≠ d));
      [ intros ev w _; apply pre_events | intros y w; apply pre_dir
      | done | done ]. }
  intros _. apply filing_then_log. fold (name_suffix E). rewrite <- Hd.
  apply shutil_move_filing.
Qed.

Lemma handle_no_po_numbers_filing self :
  d = OsPath.join (error_directory self) (OsPath.basename src) →
  error_directory self ≠ d →
  files_it always (handle_no_po_numbers E self src).
Proof.
  intros Hd Hne. unfold handle_no_po_numbers.
  apply filing_bind_before; [apply inv_path_exists|]. intros there.
  apply filing_bind_before.
  { destruct there; simpl; [apply inv_ret|].
    apply inv_bind; [|intros; apply pre_log].
    apply (kept_os_makedirs E pre (λ _, True) (λ y, y ≠ d));
      [ intros ev w _; apply pre_events | intros y w; apply pre_dir
      | done | done ]. }
  intros _. apply filing_then_log. rewrite <- Hd. apply shutil_move_filing.
Qed.

(** The two branches of the handlers, for the answer [po] of the
    extractor. *)
Lemma branches_filing pattern self stem ext (po : option str) :
  (∀ m, Re.lang pattern m → Re.lang po_pattern m) →
  token_or_None pattern po →
  src = stem ++ ext → ext ∈ png_spellings →
  d = destination E self src po →
  files_it always
    (if truthy po then
       log INFO (Extracted_PO_Number (default [] po));;
       rename_and_move E self src (default [] po)
     else
       log INFO PO_Number_could_not_be_extracted;;
       handle_no_po_numbers E self src).
Proof.
  intros Hsub Htok Hsrc Hext Hd.
  pose proof (destination_free E self pattern stem ext po Hsub Htok Hext)
    as Hfree.
  rewrite <- Hsrc, <- Hd in Hfree. unfold destination in Hd.
  destruct (truthy po).
  - apply filing_bind_before; [apply pre_log|]. intros _.
    apply rename_and_move_filing; [done | by apply not_eq_sym].
  - apply filing_bind_before; [apply pre_log|]. intros _.
    apply handle_no_po_numbers_filing; [done | by apply not_eq_sym].
Qed.

(** A handler of [PermissionError] that logs it: a run that returns has
    moved the file, unless it ends with that entry of the log. *)
Lemma filing_try_permission_error (m : M unit) :
  files_it always m →
  files_it (λ t, negb (ends_with_permission_error t))
    (try_except m isinstance_PermissionError
       (λ e, log ERROR (Permission_error_while_processing src e))).
Proof.
  intros Hm w Hw. specialize (Hm w Hw). unfold try_except.
  destruct (m w) as [[[]|e|] w'] eqn:Hmw; simpl in Hm |- *.
  - eapply filed_ext; [..|exact Hm]; done.
  - destruct (isinstance_PermissionError e); simpl.
    + unfold ends_with_permission_error. rewrite last_snoc. exact Hm.
    + by rewrite andb_false_r.
  - by rewrite andb_false_r.
Qed.

End Filed.

Section Handlers.

Context (E : env) (self : POFileHandler).

Lemma scannertest_answer_token :
  token_or_None po_pattern (Scannertest_answer E).
Proof.
  destruct (scannertest_extract_total E [] (initial_world ∅ ∅))
    as (r & w1 & Heq & Htok & _).
  destruct (scannertest_extract_answer E [] (initial_world ∅ ∅)) as [w2 Ha].
  rewrite Heq in Ha. by injection Ha as <- _.
Qed.

Lemma scanner_answer_token :
  token_or_None po_pattern_plain (Scanner_answer E).
Proof.
  destruct (scanner_extract_total E [] (initial_world ∅ ∅))
    as (r & w1 & Heq & Htok & _).
  destruct (scanner_extract_answer E [] (initial_world ∅ ∅)) as [w2 Ha].
  rewrite Heq in Ha. by injection Ha as <- _.
Qed.

Lemma scannertest_extract_value p :
  on_return (λ r _, r = Scannertest_answer E)
    (Scannertest.extract_po_number_from_image E p).
Proof.
  intros w. by destruct (scannertest_extract_answer E p w) as [w' ->].
Qed.

Lemma scanner_extract_value p :
  on_return (λ r _, r = Scanner_answer E)
    (Scanner.extract_po_number_from_image E p).
Proof.
  intros w. by destruct (scanner_extract_answer E p w) as [w' ->].
Qed.

(** scanner.py: the handler files the [.png] file of the event at most
    once, where its extractor's answer sends it, and has moved it there
    when it returns. *)
Lemma scanner_on_created_filing fs0 h0 b isd fuel ev stem ext :
  fs0 !! src_path ev = Some b →
  is_directory ev = false →
  src_path ev = stem ++ ext → ext ∈ png_spellings →
  filing E fs0 h0 (src_path ev)
    (destination E self (src_path ev) (Scanner_answer E)) isd b
    (λ _, true) (Scanner.on_created E fuel self ev).
Proof.
  intros Hb Hdir Hsrc Hext.
  unfold Scanner.on_created, Scanner.classify_and_file.
  rewrite Hdir. cbn [negb].
  apply filing_bind_before; [apply pre_log|]. intros _.
  apply filing_bind_before; [apply pre_wait_for_file|]. intros _.
  pose proof (spelling_is_png stem ext Hext) as Hpng.
  rewrite <- Hsrc in Hpng. rewrite Hpng.
  apply (filing_bind_value E fs0 h0 (src_path ev) b _ _ _
           (λ r, r = Scanner_answer E));
    [apply pre_scanner_extract | apply scanner_extract_value|].
  intros po ->.
  apply (branches_filing E fs0 h0 (src_path ev) b Hb _ _ po_pattern_plain
           self stem ext); try done.
  - apply plain_word_is_word.
  - apply scanner_answer_token.
Qed.

(** scannertest.py: the same, unless the handler caught a
    [PermissionError]. *)
Lemma scannertest_on_created_filing fs0 h0 b isd fuel ev stem ext :
  fs0 !! src_path ev = Some b →
  is_directory ev = false →
  src_path ev = stem ++ ext → ext ∈ png_spellings →
  filing E fs0 h0 (src_path ev)
    (destination E self (src_path ev) (Scannertest_answer E)) isd b
    (λ t, negb (ends_with_permission_error t))
    (Scannertest.on_created E fuel self ev).
Proof.
  intros Hb Hdir Hsrc Hext.
  unfold Scannertest.on_created, Scannertest.classify_and_file.
  rewrite Hdir. cbn [negb].
  apply filing_bind_before; [apply pre_log|]. intros _.
  apply filing_bind_before; [apply pre_sleep|]. intros _.
  apply filing_bind_before;
    [by apply (pre_wait_for_file_access E fs0 h0 (src_path ev) b)|].
  intros _.
  pose proof (spelling_is_png stem ext Hext) as Hpng.
  rewrite <- Hsrc in Hpng. rewrite Hpng.
  apply filing_try_permission_error.
  apply (filing_bind_value E fs0 h0 (src_path ev) b _ _ _
           (λ r, r = Scannertest_answer E));
    [apply pre_scannertest_extract | apply scannertest_extract_value|].
  intros po ->.
  apply (branches_filing E fs0 h0 (src_path ev) b Hb _ _ po_pattern
           self stem ext); try done.
  apply scannertest_answer_token.
Qed.

End Handlers.
End FiledFacts.

Import FiledFacts.

Module OutcomeFacts.

Section Outcome.

Context (E : env).

(** How [shutil.move] of a regular file to a free path ends. *)
Lemma rename_or_copy_outcome src rd b w :
  files w !! src = Some b → rd ∉ dirs w → src ≠ rd →
  (rename_or_copy E src rd w).1
  = match move_error E with Some e => Raise e | None => Ret () end.
Proof.
  intros Hb Hrd Hne. unfold rename_or_copy, try_except, move_error.
  destruct (fault_rename E) as [e|] eqn:Hfr.
  - rewrite (os_rename_fault E src _ e) by done.
    destruct (isinstance_OSError e); [|done].
    rewrite bind_unfold.
    destruct (fault_copy E) as [e'|] eqn:Hfc.
    + destruct (copy_written E) as [k|] eqn:Hk.
      * by rewrite (shutil_copy2_fault_partly E (files w) src b Hb rd e' k).
      * by rewrite (shutil_copy2_fault_before E (files w) src b Hb rd e').
    + rewrite (shutil_copy2_ok E (files w) src b Hb rd) by done.
      cbn beta iota.
      destruct (fault_unlink E) as [e''|] eqn:Hfu.
      * by rewrite (os_unlink_fault E src e'').
      * by rewrite (os_unlink_ok E (files w) src b Hb rd).
  - by rewrite (os_rename_ok E (files w) src b Hb rd).
Qed.

Lemma move_and_log_outcome src d b l msg w :
  files w !! src = Some b → d ∉ dirs w → src ≠ d →
  ((shutil_move E src d;; log l msg) w).1
  = match move_error E with Some e => Raise e | None => Ret () end.
Proof.
  intros Hb Hd Hne. rewrite bind_unfold.
  unfold shutil_move, path_isdir. run.
  rewrite bool_decide_eq_false_2 by done. simpl.
  pose proof (rename_or_copy_outcome src d b
                (add_events [Ev_move src d] w) Hb Hd Hne) as H.
  destruct (rename_or_copy E src d (add_events [Ev_move src d] w))
    as [[[]|e|] w']; simpl in H |- *; by destruct (move_error E).
Qed.

(** The making of the directory, when it is called for. *)
Lemma ensure_directory_outcome {B} d msg (k : M B) w :
  (missing w d = true ∧ ∃ e, fault_makedirs E = Some e
     ∧ ((there ← path_exists d;
         (if negb (there : bool)
          then os_makedirs E d;; log INFO msg else mret ());;
         k) w).1 = Raise e)
  ∨ ((missing w d = false ∨ fault_makedirs E = None)
     ∧ ∃ w', (there ← path_exists d;
              (if negb (there : bool)
               then os_makedirs E d;; log INFO msg else mret ());;
              k) w = k w'
             ∧ files w' = files w ∧ history w' = history w
             ∧ dirs w' ⊆ {[d]} ∪ dirs w).
Proof.
  unfold missing, path_exists, os_makedirs, add_dir. run.
  destruct (bool_decide (d ∈ dirs w) || bool_decide (is_Some (files w !! d)))
    eqn:Hd; simpl.
  - right. split; [by left|]. eexists. repeat split; eauto. set_solver.
  - destruct (fault_makedirs E) as [e|] eqn:Hf; simpl.
    + left. split; [done|]. by exists e.
    + right. split; [by right|]. rewrite Hd. simpl.
      eexists. repeat split; eauto.
Qed.

Lemma filer_outcome dir msg src d b l msg' w :
  files w !! src = Some b → d ∉ dirs w → d ≠ dir → src ≠ d →
  ((there ← path_exists dir;
    (if negb (there : bool)
     then os_makedirs E dir;; log INFO msg else mret ());;
    shutil_move E src d;; log l msg') w).1
  = match filing_error E (missing w dir) with
    | Some e => Raise e
    | None => Ret ()
    end.
Proof.
  intros Hb Hd Hdir Hne. unfold filing_error.
  destruct (ensure_directory_outcome dir msg
              (shutil_move E src d;; log l msg') w)
    as [(Hm & e & He & Hr)|(Hm & w' & Hr & Hf & _ & Hd')]; rewrite Hr.
  - by rewrite Hm, He.
  - rewrite (move_and_log_outcome src d b); [| by rewrite Hf | | done].
    + destruct (missing w dir); [|done].
      destruct Hm as [?| ->]; done.
    + intros [Hin%elem_of_singleton|Hin]%Hd'%elem_of_union; done.
Qed.

Context (self : POFileHandler).

Lemma rename_and_move_outcome p po b w :
  let d := OsPath.join (finished_directory self)
             (po ++ u "_" ++ name_suffix E ++ (OsPath.splitext p).2) in
  files w !! p = Some b → d ∉ dirs w → d ≠ finished_directory self →
  p ≠ d →
  (rename_and_move E self p po w).1
  = match filing_error E (missing w (finished_directory self)) with
    | Some e => Raise e
    | None => Ret ()
    end.
Proof.
  intros d Hb Hd Hdir Hne. unfold rename_and_move.
  rewrite bind_unfold. unfold uuid4_hex at 1. rewrite bind_unfold.
  unfold emit at 1. cbn beta iota. unfold mret at 1, M_ret at 1.
  cbn beta iota. fold (name_suffix E). fold d.
  by rewrite (filer_outcome _ _ p d b).
Qed.

Lemma handle_no_po_numbers_outcome p b w :
  let d := OsPath.join (error_directory self) (OsPath.basename p) in
  files w !! p = Some b → d ∉ dirs w → d ≠ error_directory self → p ≠ d →
  (handle_no_po_numbers E self p w).1
  = match filing_error E (missing w (error_directory self)) with
    | Some e => Raise e
    | None => Ret ()
    end.
Proof.
  intros d Hb Hd Hdir Hne. unfold handle_no_po_numbers. fold d.
  by rewrite (filer_outcome _ _ p d b).
Qed.

(** The two branches of the handlers. *)
Lemma branches_outcome pattern stem ext (po : option str) b w :
  (∀ m, Re.lang pattern m → Re.lang po_pattern m) →
  token_or_None pattern po → ext ∈ png_spellings →
  files w !! (stem ++ ext) = Some b →
  destination E self (stem ++ ext) po ∉ dirs w →
  stem ++ ext ≠ destination E self (stem ++ ext) po →
  ((if truthy po then
      log INFO (Extracted_PO_Number (default [] po));;
      rename_and_move E self (stem ++ ext) (default [] po)
    else
      log INFO PO_Number_could_not_be_extracted;;
      handle_no_po_numbers E self (stem ++ ext)) w).1
  = match filing_error E (missing w (target_directory self po)) with
    | Some e => Raise e
    | None => Ret ()
    end.
Proof.
  intros Hsub Htok Hext Hb Hd Hne.
  pose proof (destination_free E self pattern stem ext po Hsub Htok Hext)
    as Hfree.
  unfold destination, target_directory in *. destruct (truthy po).
  - rewrite bind_unfold. unfold log at 1, emit at 1. cbn beta iota.
    by rewrite (rename_and_move_outcome _ _ b).
  - rewrite bind_unfold. unfold log at 1, emit at 1. cbn beta iota.
    by rewrite (handle_no_po_numbers_outcome _ b).
Qed.

(** What the handlers do with a [.png] file once the gate is passed. *)
Lemma scanner_classify_outcome stem ext b w :
  ext ∈ png_spellings →
  files w !! (stem ++ ext) = Some b →
  destination E self (stem ++ ext) (Scanner_answer E) ∉ dirs w →
  stem ++ ext ≠ destination E self (stem ++ ext) (Scanner_answer E) →
  (Scanner.classify_and_file E self (stem ++ ext) w).1
  = match filing_error E
            (missing w (target_directory self (Scanner_answer E))) with
    | Some e => Raise e
    | None => Ret ()
    end.
Proof.
  intros Hext Hb Hd Hne. unfold Scanner.classify_and_file.
  rewrite (spelling_is_png _ _ Hext). rewrite bind_unfold.
  destruct (scanner_extract_answer E (stem ++ ext) w) as [w1 Heq].
  pose proof (inv_scanner_extract E _ (same_files_and_dirs_events w)
                (stem ++ ext) w (conj eq_refl eq_refl)) as [Hf1 Hd1].
  rewrite Heq in Hf1, Hd1. simpl in Hf1, Hd1. rewrite Heq.
  rewrite (branches_outcome po_pattern_plain stem ext _ b);
    [| apply plain_word_is_word | apply scanner_answer_token | done
     | by rewrite Hf1 | by rewrite Hd1 | done].
  unfold missing. by rewrite Hf1, Hd1.
Qed.

Lemma scannertest_classify_outcome stem ext b w :
  ext ∈ png_spellings →
  files w !! (stem ++ ext) = Some b →
  destination E self (stem ++ ext) (Scannertest_answer E) ∉ dirs w →
  stem ++ ext ≠ destination E self (stem ++ ext) (Scannertest_answer E) →
  match filing_error E
          (missing w (target_directory self (Scannertest_answer E))) with
  | Some e =>
      if isinstance_PermissionError e then
        (Scannertest.classify_and_file E self (stem ++ ext) w).1 = Ret ()
        ∧ last (trace (Scannertest.classify_and_file E self (stem ++ ext)
                         w).2)
          = Some (Ev_log ERROR
                    (Permission_error_while_processing (stem ++ ext) e))
      else (Scannertest.classify_and_file E self (stem ++ ext) w).1 = Raise e
  | None => (Scannertest.classify_and_file E self (stem ++ ext) w).1 = Ret ()
  end.
Proof.
  intros Hext Hb Hd Hne. unfold Scannertest.classify_and_file.
  rewrite (spelling_is_png _ _ Hext). unfold try_except.
  rewrite bind_unfold.
  destruct (scannertest_extract_answer E (stem ++ ext) w) as [w1 Heq].
  pose proof (inv_scannertest_extract E _ (same_files_and_dirs_events w)
                (stem ++ ext) w (conj eq_refl eq_refl)) as [Hf1 Hd1].
  rewrite Heq in Hf1, Hd1. simpl in Hf1, Hd1. rewrite Heq.
  pose proof (branches_outcome po_pattern stem ext (Scannertest_answer E) b w1
                (λ m H, H) (scannertest_answer_token E)
                Hext) as Hout.
  rewrite Hf1, Hd1 in Hout. specialize (Hout Hb Hd Hne).
  replace (missing w1 (target_directory self (Scannertest_answer E)))
    with (missing w (target_directory self (Scannertest_answer E))) in Hout
    by (unfold missing; by rewrite Hf1, Hd1).
  match goal with
  | H : (?m w1).1 = _ |- _ => destruct (m w1) as [[[]|e'|] w2]
  end; simpl in Hout;
    destruct (filing_error E _) as [e|]; try discriminate; [done|].
  injection Hout as ->.
  destruct (isinstance_PermissionError e); [|done].
  split; [done|]. simpl. apply last_snoc.
Qed.

End Outcome.
End OutcomeFacts.

Import OutcomeFacts.

Module CaughtFacts.

Lemma count_app kind t t' : count kind (t ++ t') = (count kind t + count kind t')%nat.
Proof. unfold count. by rewrite filter_app, length_app. Qed.

Lemma count_load_retries p total : ∀ n a,
  count is_image_open (flat_map (load_retry p total) (seq a n)) = n
  ∧ count is_sleep (flat_map (load_retry p total) (seq a n)) = n
  ∧ count is_ocr (flat_map (load_retry p total) (seq a n)) = 0%nat.
Proof.
  induction n as [|n IH]; intros a; [done|].
  destruct (IH (S a)) as (H1 & H2 & H3).
  cbn [seq flat_map]. rewrite !count_app, H1, H2, H3. done.
Qed.

Lemma count_writing_waits p : ∀ n,
  count is_unsupported (writing_waits p n) = 0%nat.
Proof. induction n as [|n IH]; [done|]. simpl. exact IH. Qed.

Lemma count_access_waits p : ∀ n,
  count is_unsupported (access_waits p n) = 0%nat.
Proof. induction n as [|n IH]; [done|]. simpl. exact IH. Qed.

Section Caught.

Context (E : env).

(** The loop, when the attempt [a + k] is the first that does not fail
    with an [IOError], and fails otherwise. *)
Lemma load_image_loop_first_other p total : ∀ k n a tries img e w,
  (k < n)%nat →
  (∀ t, (a ≤ t < a + k)%nat → load_fails E t) →
  image_open E (a + k) = inl e → isinstance_OSError e = false →
  Scannertest.load_image_loop E p total (seq a n) tries img w =
  (Raise e,
   add_events (flat_map (load_retry p total) (seq a k) ++ [Ev_image_open p]) w).
Proof.
  induction k as [|k IH]; intros n a tries img e w Hk Hf Hno Hos.
  - destruct n; [lia|]. cbn [seq]. rewrite Nat.add_0_r in Hno.
    by rewrite (load_image_loop_other E p total a _ _ _ e).
  - destruct n; [lia|]. destruct (Hf a) as (e' & He' & Hos'); [lia|].
    cbn [seq]. rewrite (load_image_loop_fail _ _ _ _ _ _ _ e') by done.
    rewrite (IH n (S a) _ _ e); [| lia | intros t Ht; apply Hf; lia
                                 | by rewrite <- Hno; f_equal; lia | done].
    rewrite add_events_add. cbn [flat_map]. by rewrite <- app_assoc.
Qed.

(** An attempt fails otherwise than with an [IOError]: the extractor ends
    there. *)
Lemma extract_load_raises p w k e :
  (k < 5)%nat →
  (∀ t, (t < k)%nat → load_fails E t) →
  image_open E k = inl e → isinstance_OSError e = false →
  Scannertest.extract_po_number_from_image E p w =
  (Ret None,
   add_events (load_retries p 5 k
               ++ [Ev_image_open p;
                   Ev_log ERROR (Error_processing_image p e)]) w).
Proof.
  intros Hk Hf Hno Hos. unfold Scannertest.extract_po_number_from_image.
  unfold try_except at 1. rewrite bind_unfold.
  rewrite (load_image_loop_first_other _ _ k 5 0 _ _ e);
    [| lia | intros t Ht; apply Hf; lia | done | done].
  run. rewrite !add_events_add. unfold load_retries.
  by rewrite <- ?app_assoc.
Qed.

(** Of attempts that all fail, either each fails with an [IOError], or
    there is a first that fails otherwise. *)
Lemma leading_failures : ∀ n,
  (∀ t, (t < n)%nat → ∃ e, image_open E t = inl e) →
  (∀ t, (t < n)%nat → load_fails E t)
  ∨ ∃ k e, (k < n)%nat ∧ (∀ t, (t < k)%nat → load_fails E t)
           ∧ image_open E k = inl e ∧ isinstance_OSError e = false.
Proof.
  induction n as [|n IH]; intros Hf; [left; intros t Ht; lia|].
  destruct IH as [Hall|(k & e & Hk & Hbefore & He & Hos)].
  - intros t Ht. apply Hf. lia.
  - destruct (Hf n) as [e He]; [lia|].
    destruct (isinstance_OSError e) eqn:Hos.
    + left. intros t Ht. destruct (decide (t = n)) as [->|Hne].
      * by exists e.
      * apply Hall. lia.
    + right. exists n, e. split; [lia|]. split; [|done].
      intros t Ht. by apply Hall.
  - right. exists k, e. split; [lia|]. done.
Qed.

(** What is raised inside an extractor is caught there: the extractor
    returns nothing, and its last act is the entry of the log for the
    exception. *)
Lemma scanner_extract_caught p w e :
  Scanner_raised E = Some e →
  ∃ w', Scanner.extract_po_number_from_image E p w = (Ret None, w')
        ∧ last (trace w')
          = Some (Ev_log ERROR (Error_processing_image p e)).
Proof.
  unfold Scanner.extract_po_number_from_image, Scanner_raised.
  unfold try_except at 1. rewrite bind_unfold. unfold Image_open. run.
  destruct (image_open E 0) as [e0|i]; run.
  { intros [= ->]. eexists. split; [reflexivity|]. simpl. apply last_snoc. }
  unfold pytesseract_image_to_string. run.
  destruct (image_to_string E i) as [e0|text]; run; [|done].
  intros [= ->]. eexists. split; [reflexivity|]. simpl. apply last_snoc.
Qed.

Lemma scannertest_extract_caught p w e :
  Scannertest_raised E = Some e →
  ∃ w', Scannertest.extract_po_number_from_image E p w = (Ret None, w')
        ∧ last (trace w')
          = Some (Ev_log ERROR (Error_processing_image p e)).
Proof.
  unfold Scannertest.extract_po_number_from_image, Scannertest_raised.
  unfold try_except at 1. rewrite bind_unfold.
  destruct (load_image_loop_answer E p 5 (seq 0 5) None None w) as [w' ->].
  destruct (ending_attempt E (seq 0 5)) as [[t [e0|i]]|]; [..|done].
  - intros [= ->]. run. eexists. split; [reflexivity|]. simpl.
    apply last_snoc.
  - run. case_bool_decide; [done|].
    unfold pytesseract_image_to_string. run.
    destruct (image_to_string E i) as [e0|text]; run; [|done].
    intros [= ->]. eexists. split; [reflexivity|]. simpl. apply last_snoc.
Qed.

End Caught.
End CaughtFacts.

Import CaughtFacts.

(** * The claims *)

(** A decidable proposition that evaluates to false. *)
Ltac decide_false :=
  match goal with
  | |- ?x ∉ ?X => apply (bool_decide_eq_false_1 (x ∈ X))
  | |- ?a ≠ ?b => apply (bool_decide_eq_false_1 (a = b))
  end; vm_compute; reflexivity.

(** ** C1: the PO token parser *)

(** C1, as the code has it.  For every text, [get_PO_number_from_text]
    returns the leftmost word of [[A-Z]*PO\d+] in the text, the longest one
    at that offset, and nothing when the text holds no such word; [\d] is
    any Unicode decimal digit.  On the example of the specification it
    returns "APO1023".  On a text whose decimal digits are all ASCII digits
    this is the leftmost word of [[A-Z]*PO[0-9]+], the pattern of the
    specification.  The search of scanner.py is the leftmost word of
    [PO\d+], without the leading run of capitals. *)
Theorem C1_parser_returns_leftmost_match :
  (∀ t, leftmost_match po_pattern t (get_PO_number_from_text t))
  ∧ get_PO_number_from_text (u "Ref: 99 APO1023 see PO55")
    = Some (u "APO1023")
  ∧ (∀ t, Forall (λ c, Unicode.is_decimal c = true
                       → Unicode.is_ascii_digit c = true) t →
          leftmost_match po_pattern_spec t (get_PO_number_from_text t))
  ∧ (∀ t, leftmost_match po_pattern_plain t
            (Re.group_or_None (Re.search po_pattern_plain t))).
Proof.
  split; [|split; [|split]].
  - intros t. apply search_leftmost, po_pattern_longest.
  - reflexivity.
  - intros t Ht. apply (leftmost_match_ext po_pattern).
    + intros i m Ho. apply lang_po_pattern_spec.
      rewrite Forall_forall in *. intros c Hc. apply Ht.
      by apply (occurs_at_elem t i m).
    + apply search_leftmost, po_pattern_longest.
  - intros t. apply search_leftmost, po_pattern_plain_longest.
Qed.

(** C1 fails as it is written.  In the text "PO" followed by the
    Arabic-Indic digit one (U+0661), no word of [[A-Z]*PO[0-9]+] occurs,
    and the parser returns the whole text.  And on the example of the
    specification the extractor of scanner.py returns "PO1023". *)
Lemma C1_counterexample_digit_and_plain_pattern :
  get_PO_number_from_text [80; 79; 1633] = Some [80; 79; 1633]
  ∧ (∀ i m, occurs_at [80; 79; 1633] i m → ¬ Re.lang po_pattern_spec m)
  ∧ (Scanner.extract_po_number_from_image env_ref example_png
       (example_world example_png)).1
    = Ret (Some (u "PO1023")).
Proof.
  split; [reflexivity|]. split; [|reflexivity].
  pose proof (search_leftmost po_pattern_spec [80; 79; 1633]
                po_pattern_spec_longest) as H.
  exact H.
Qed.

(** ** C2: where the file is *)




(** ** C3: the readiness gate *)

(** C3, as the code has it.  The gate has no bound and no failure of its
    own: as long as the probes fail, the handler is in the gate, having
    done nothing but probe, log and sleep, so the file is where it was; and
    as soon as a probe succeeds the gate returns. *)
Theorem C3_gate_waits_as_long_as_the_probe_fails E self ev n w :
  is_directory ev = false →
  ((∀ i, (i < n)%nat → access_fails E i) →
   Scannertest.on_created E n self ev w
   = (OutOfFuel,
      add_events (settled (src_path ev) ++ access_waits (src_path ev) n) w)
   ∧ (open_for_append E n = None → is_Some (files w !! src_path ev) →
      ∀ fuel, (n < fuel)%nat →
        Scannertest.wait_for_file_access E fuel (src_path ev) 0 w
        = (Ret (),
           add_events (access_waits (src_path ev) n
                       ++ [Ev_open_append (src_path ev)]) w)))
  ∧ ((∀ i, (i < n)%nat → not_written E i) →
     Scanner.on_created E n self ev w
     = (OutOfFuel,
        add_events (seen (src_path ev) ++ writing_waits (src_path ev) n) w)
     ∧ (written E n →
        ∀ fuel, (n < fuel)%nat →
          Scanner.wait_for_file E fuel (src_path ev) 0 w
          = (Ret (),
             add_events (writing_waits (src_path ev) n
                         ++ [Ev_stat (src_path ev)]) w))).
Proof.
  intros Hd. split; intros Hf; (split; [|intros Ho]).
  - by apply scannertest_on_created_waits.
  - intros Hthere fuel Hfuel.
    replace fuel with (n + S (fuel - S n))%nat by lia.
    rewrite wait_for_file_access_waits by (intros i Hi; apply Hf; lia).
    rewrite wait_for_file_access_opens by done.
    by rewrite add_events_add.
  - by apply scanner_on_created_waits.
  - intros fuel Hfuel.
    replace fuel with (n + S (fuel - S n))%nat by lia.
    rewrite wait_for_file_waits by (intros i Hi; apply Hf; lia).
    rewrite wait_for_file_sees by done.
    by rewrite add_events_add.
Qed.

(** A file that is locked for two probes: after two turns the handler is
    in the gate, and the third probe lets it through. *)
Lemma C3_witness :
  is_directory (created example_png) = false
  ∧ (∀ i, (i < 2)%nat → access_fails env_locked_twice i)
  ∧ Scannertest.on_created env_locked_twice 2 example_handler
      (created example_png) (example_world example_png)
    = (OutOfFuel,
       add_events (settled example_png ++ access_waits example_png 2)
         (example_world example_png))
  ∧ Scannertest.wait_for_file_access env_locked_twice 3 example_png 0
      (example_world example_png)
    = (Ret (),
       add_events (access_waits example_png 2 ++ [Ev_open_append example_png])
         (example_world example_png)).
Proof.
  assert (∀ i, (i < 2)%nat → access_fails env_locked_twice i) as Hf.
  { intros i Hi. exists PermissionError.
    destruct i as [|[|i]]; [by vm_compute..|lia]. }
  split; [reflexivity|]. split; [exact Hf|].
  destruct (C3_gate_waits_as_long_as_the_probe_fails env_locked_twice
              example_handler (created example_png) 2
              (example_world example_png) eq_refl) as [H _].
  destruct (H Hf) as [H1 H2]. split; [exact H1|].
  apply H2; [reflexivity | by eexists; vm_compute | lia].
Defined.

(** C3 fails as it is written.  The file stays locked, and unseen: whatever
    the number of turns allowed, the handler is still in the gate.  It
    never returns a failure. *)
Lemma C3_counterexample_gate_never_gives_up :
  (∀ n, access_fails env_locked n)
  ∧ (∀ n, not_written env_locked n)
  ∧ (∀ fuel,
       (Scannertest.on_created env_locked fuel example_handler
          (created example_png) (example_world example_png)).1
       = OutOfFuel)
  ∧ (∀ fuel,
       (Scanner.on_created env_locked fuel example_handler
          (created example_png) (example_world example_png)).1
       = OutOfFuel).
Proof.
  assert (∀ n, access_fails env_locked n) as Ha
    by (intros n; by exists PermissionError).
  assert (∀ n, not_written env_locked n) as Hn by (intros n; by left).
  split; [exact Ha|]. split; [exact Hn|]. split; intros fuel.
  - by rewrite scannertest_on_created_waits.
  - by rewrite scanner_on_created_waits.
Qed.

(** ** C4: the image that loads at the last attempt *)

(** C4 at the input where the code fails it.  The image fails to load four
    times and loads at the fifth attempt; the engine would read a PO number
    on it.  The extractor of scannertest.py logs "max retries reached" and
    returns nothing without calling the engine, and the handler files the
    image in the error directory. *)
Theorem C4_image_loaded_at_last_attempt_is_dropped :
  (∀ t, (t < 4)%nat → load_fails env_loads_last t)
  ∧ image_open env_loads_last 4 = inr (Image 1)
  ∧ get_PO_number_from_text (u "Invoice for PO904821") = Some (u "PO904821")
  ∧ Scannertest.extract_po_number_from_image env_loads_last example_png
      (example_world example_png)
    = (Ret None,
       add_events (load_retries example_png 5 4
                   ++ [Ev_image_open example_png;
                       Ev_log ERROR (Max_retries_reached example_png)])
         (example_world example_png))
  ∧ count is_ocr
      (trace (Scannertest.extract_po_number_from_image env_loads_last
                example_png (example_world example_png)).2) = 0%nat
  ∧ files (Scannertest.on_created env_loads_last 1 example_handler
             (created example_png) (example_world example_png)).2
    !! u "/renamescans/wavesfinished/UncapturedPO/scan1.png"
    = Some example_content.
Proof.
  assert (∀ t, (t < 4)%nat → load_fails env_loads_last t) as Hf.
  { intros t Ht. exists OSError.
    destruct t as [|[|[|[|t]]]]; [by vm_compute..|lia]. }
  split; [exact Hf|]. split; [reflexivity|]. split; [reflexivity|].
  split;
    [apply (extract_loaded_last env_loads_last example_png _ (Image 1));
       [exact Hf | reflexivity]|].
  split; vm_compute; reflexivity.
Qed.

(** ** C5: what is caught *)

(** C5, as the code has it.  What is raised inside an extractor (by the
    loading of the image when it is no retried [IOError], by the engine)
    is caught there: the extractor returns nothing, and its last act is
    the entry of the log for that exception.  The handlers catch nothing
    else, but for the [PermissionError] that scannertest.py catches.  For
    a [.png] file that has passed the gate, is there, and whose
    destination is neither a directory nor the file itself, the handler
    of scanner.py ends as the filer does: it raises the exception that
    leaves [os.makedirs], called when the directory is missing, or that
    leaves [shutil.move] (the exception of [os.rename] when it is no
    [OSError]; else the one of the copy, or of [os.unlink] after it), and
    returns when there is none.  The handler of scannertest.py ends in the
    same way, except that it catches a [PermissionError], logs it and
    returns; it never raises one. *)
Theorem C5_extractor_and_permission_errors_are_caught
    E fuel self ev w b stem ext n m :
  is_directory ev = false →
  src_path ev = stem ++ ext → ext ∈ png_spellings →
  files w !! src_path ev = Some b →
  (∀ i, (i < n)%nat → access_fails E i) → open_for_append E n = None →
  (n < fuel)%nat →
  (∀ i, (i < m)%nat → not_written E i) → written E m → (m < fuel)%nat →
  (∀ w0, ∃ w1,
     Scannertest.extract_po_number_from_image E (src_path ev) w0
     = (Ret (Scannertest_answer E), w1)
     ∧ ends_with_log w1
     ∧ ∀ e, Scannertest_raised E = Some e →
            Scannertest_answer E = None
            ∧ last (trace w1)
              = Some (Ev_log ERROR
                        (Error_processing_image (src_path ev) e)))
  ∧ (∀ w0, ∃ w1,
       Scanner.extract_po_number_from_image E (src_path ev) w0
       = (Ret (Scanner_answer E), w1)
       ∧ ends_with_log w1
       ∧ ∀ e, Scanner_raised E = Some e →
              Scanner_answer E = None
              ∧ last (trace w1)
                = Some (Ev_log ERROR
                          (Error_processing_image (src_path ev) e)))
  ∧ (destination E self (src_path ev) (Scannertest_answer E) ∉ dirs w →
     src_path ev ≠ destination E self (src_path ev) (Scannertest_answer E) →
     match filing_error E
             (missing w (target_directory self (Scannertest_answer E))) with
     | Some e =>
         if isinstance_PermissionError e then
           (Scannertest.on_created E fuel self ev w).1 = Ret ()
           ∧ last (trace (Scannertest.on_created E fuel self ev w).2)
             = Some (Ev_log ERROR
                       (Permission_error_while_processing (src_path ev) e))
         else (Scannertest.on_created E fuel self ev w).1 = Raise e
     | None => (Scannertest.on_created E fuel self ev w).1 = Ret ()
     end)
  ∧ (destination E self (src_path ev) (Scanner_answer E) ∉ dirs w →
     src_path ev ≠ destination E self (src_path ev) (Scanner_answer E) →
     (Scanner.on_created E fuel self ev w).1
     = match filing_error E
               (missing w (target_directory self (Scanner_answer E))) with
       | Some e => Raise e
       | None => Ret ()
       end)
  ∧ ∀ fuel' self' ev' w',
      (Scannertest.on_created E fuel' self' ev' w').1 ≠ Raise PermissionError.
Proof.
  intros Hdir Hsrc Hext Hb Hfail Hopen Hn Hnot Hwritten Hm.
  split; [|split; [|split; [|split]]].
  - intros w0.
    destruct (scannertest_extract_total E (src_path ev) w0)
      as (r & w1 & Heq & _ & Hl).
    destruct (scannertest_extract_answer E (src_path ev) w0) as [w1' Ha].
    exists w1. rewrite Heq in Ha. injection Ha as -> <-.
    split; [done|]. split; [done|]. intros e He.
    destruct (scannertest_extract_caught E (src_path ev) w0 e He)
      as (w2 & Hc & Hlast).
    rewrite Heq in Hc. by injection Hc as -> <-.
  - intros w0.
    destruct (scanner_extract_total E (src_path ev) w0)
      as (r & w1 & Heq & _ & Hl).
    destruct (scanner_extract_answer E (src_path ev) w0) as [w1' Ha].
    exists w1. rewrite Heq in Ha. injection Ha as -> <-.
    split; [done|]. split; [done|]. intros e He.
    destruct (scanner_extract_caught E (src_path ev) w0 e He)
      as (w2 & Hc & Hlast).
    rewrite Heq in Hc. by injection Hc as -> <-.
  - intros Hd Hne.
    rewrite (scannertest_on_created_passes E n) by done.
    rewrite Hsrc in *.
    by apply (scannertest_classify_outcome E self stem ext b
                (add_events _ w)).
  - intros Hd Hne.
    rewrite (scanner_on_created_passes E m) by done.
    rewrite Hsrc in *.
    by apply (scanner_classify_outcome E self stem ext b (add_events _ w)).
  - intros fuel' self' ev' w' Hr.
    pose proof (scannertest_on_created_exits E fuel' self' ev' w') as H.
    rewrite Hr in H. by specialize (H PermissionError eq_refl).
Qed.

(** The finished directory is on another volume, which is full: in both
    programs the [OSError] of the copy leaves the handler.  The scanner
    still holds the file: the [PermissionError] of [os.unlink] leaves the
    handler of scanner.py, and is caught in scannertest.py. *)
Lemma C5_witness :
  (Scannertest.on_created env_disk_full 1 example_handler
     (created example_png) (example_world example_png)).1 = Raise OSError
  ∧ (Scanner.on_created env_disk_full 1 example_handler
       (created example_png) (example_world example_png)).1 = Raise OSError
  ∧ (Scannertest.on_created env_held 1 example_handler
       (created example_png) (example_world example_png)).1 = Ret ()
  ∧ (Scanner.on_created env_held 1 example_handler
       (created example_png) (example_world example_png)).1
    = Raise PermissionError.
Proof.
  assert (u ".png" ∈ png_spellings) as Hext
    by (apply (bool_decide_eq_true_1 (u ".png" ∈ png_spellings));
        vm_compute; reflexivity).
  assert (∀ E, observe E = (λ _, file_written) → written E 0) as Hw.
  { intros E HE. unfold written. rewrite HE. split; [reflexivity|].
    right. by exists 4. }
  destruct (C5_extractor_and_permission_errors_are_caught env_disk_full 1
              example_handler (created example_png)
              (example_world example_png) example_content
              (u "/renamescans/waves/scan1") (u ".png") 0 0)
    as (_ & _ & H1 & H2 & _);
    [ reflexivity | reflexivity | exact Hext | vm_compute; reflexivity
    | intros i Hi; lia | reflexivity | lia | intros i Hi; lia
    | apply Hw; reflexivity | lia | ].
  destruct (C5_extractor_and_permission_errors_are_caught env_held 1
              example_handler (created example_png)
              (example_world example_png) example_content
              (u "/renamescans/waves/scan1") (u ".png") 0 0)
    as (_ & _ & H3 & H4 & _);
    [ reflexivity | reflexivity | exact Hext | vm_compute; reflexivity
    | intros i Hi; lia | reflexivity | lia | intros i Hi; lia
    | apply Hw; reflexivity | lia | ].
  split; [apply H1; decide_false|]. split; [apply H2; decide_false|].
  split; [apply H3; decide_false | apply H4; decide_false].
Defined.

(** C5 fails as it is written.  The finished directory is on another
    volume, which is full: [os.rename] and then the copy raise [OSError],
    and it leaves the handler, in both programs.  In scanner.py the
    [PermissionError] of a file that the scanner holds leaves it too. *)
Lemma C5_counterexample_move_error_leaves_handler :
  (Scannertest.on_created env_disk_full 1 example_handler
     (created example_png) (example_world example_png)).1 = Raise OSError
  ∧ (Scanner.on_created env_disk_full 1 example_handler
       (created example_png) (example_world example_png)).1 = Raise OSError
  ∧ (Scanner.on_created env_held 1 example_handler
       (created example_png) (example_world example_png)).1
    = Raise PermissionError.
Proof. repeat split; vm_compute; reflexivity. Qed.

(** ** C6: the names *)



(** ** C7: the image that never loads *)

(** C7, as the code has it.  When each of the five attempts to load the
    image fails, the extractor of scannertest.py returns nothing and does
    not call the engine.  The attempts it makes are those that fail with
    an [IOError], each followed by an entry of the log and a sleep, and
    the first that fails otherwise, if there is one: after five attempts
    that fail with an [IOError] it logs that it gives up; an attempt that
    fails otherwise is the last, and the extractor logs its exception. *)
Theorem C7_extractor_gives_up_after_five_attempts E p w :
  (∀ t, (t < 5)%nat → ∃ e, image_open E t = inl e) →
  ∃ k events,
    (k ≤ 5)%nat
    ∧ (∀ t, (t < k)%nat → load_fails E t)
    ∧ Scannertest.extract_po_number_from_image E p w
      = (Ret None, add_events events w)
    ∧ (if bool_decide (k = 5%nat) then
         events = load_retries p 5 5 ++ [Ev_log ERROR (Max_retries_reached p)]
       else
         ∃ e, image_open E k = inl e ∧ isinstance_OSError e = false
              ∧ events
                = load_retries p 5 k
                  ++ [Ev_image_open p;
                      Ev_log ERROR (Error_processing_image p e)])
    ∧ count is_image_open events
      = (if bool_decide (k = 5%nat) then 5%nat else S k)
    ∧ count is_sleep events = k
    ∧ count is_ocr events = 0%nat.
Proof.
  intros Hf.
  destruct (count_load_retries p 5 5 0) as (Ho5 & Hs5 & Hc5).
  destruct (leading_failures E 5 Hf) as [Hall|(k & e & Hk & Hbefore & He & Hos)].
  - exists 5%nat, (load_retries p 5 5 ++ [Ev_log ERROR (Max_retries_reached p)]).
    split; [done|]. split; [done|].
    split; [by apply extract_all_fail|]. split; [done|].
    by repeat split.
  - exists k, (load_retries p 5 k
               ++ [Ev_image_open p; Ev_log ERROR (Error_processing_image p e)]).
    split; [lia|]. split; [done|].
    split; [by apply extract_load_raises|].
    rewrite bool_decide_eq_false_2 by lia.
    split; [by exists e|].
    destruct (count_load_retries p 5 k 0) as (Ho & Hs & Hc).
    unfold load_retries. rewrite !count_app, Ho, Hs, Hc.
    split; [change (k + 1 = S k)%nat; lia|].
    split; [change (k + 0 = k)%nat; lia | done].
Qed.

(** An image that never loads, each attempt failing with an [IOError]:
    five attempts. *)
Lemma C7_witness :
  (∀ t, (t < 5)%nat → ∃ e, image_open env_never_loads t = inl e)
  ∧ Scannertest.extract_po_number_from_image env_never_loads example_png
      (example_world example_png)
    = (Ret None,
       add_events (load_retries example_png 5 5
                   ++ [Ev_log ERROR (Max_retries_reached example_png)])
         (example_world example_png)).
Proof.
  assert (∀ t, (t < 5)%nat → ∃ e, image_open env_never_loads t = inl e)
    as Hf by (intros t _; by exists OSError).
  split; [exact Hf|].
  destruct (C7_extractor_gives_up_after_five_attempts env_never_loads
              example_png (example_world example_png) Hf)
    as (k & events & _ & _ & Heq & Hevents & _).
  rewrite Heq. destruct (bool_decide (k = 5%nat)).
  - by rewrite Hevents.
  - destruct Hevents as (e & He & Hos & _). by injection He as <-.
Defined.

(** C7 fails as it is written.  The image is too large, and the decoder
    raises an error that is no [IOError]: each attempt would fail, and the
    extractor returns nothing after the first, without a retry. *)
Lemma C7_counterexample_one_attempt :
  (∀ t, (t < 5)%nat → ∃ e, image_open env_image_too_large t = inl e)
  ∧ Scannertest.extract_po_number_from_image env_image_too_large example_png
      (example_world example_png)
    = (Ret None,
       add_events [Ev_image_open example_png;
                   Ev_log ERROR
                     (Error_processing_image example_png OtherException)]
         (example_world example_png))
  ∧ count is_image_open
      [Ev_image_open example_png;
       Ev_log ERROR (Error_processing_image example_png OtherException)]
    = 1%nat.
Proof.
  split; [intros t _; by exists OtherException|].
  split; [|reflexivity].
  by rewrite (extract_load_raises env_image_too_large example_png _ 0
                OtherException) by (done || lia).
Qed.

(** ** C8: the other extensions *)

(** C8.  For the event of a file whose path does not end in [.png], in
    whatever case, the handler does nothing but log, sleep and probe: it
    neither opens the image, nor calls the engine, nor creates a directory,
    nor moves the file, and the files are what they were.  Once the gate is
    passed it logs the file as unsupported and returns. *)
Theorem C8_other_extensions_are_left_in_place E self ev :
  is_directory ev = false →
  endswith (Unicode.lower (src_path ev)) (u ".png") = false →
  (∀ fuel w,
     quiet_since (trace w) (dirs w) (Scannertest.on_created E fuel self ev w).2
     ∧ quiet_since (trace w) (dirs w) (Scanner.on_created E fuel self ev w).2
     ∧ unmoved (files w) (history w) (Scanner.on_created E fuel self ev w).2
     ∧ (is_Some (files w !! src_path ev) →
        unmoved (files w) (history w)
          (Scannertest.on_created E fuel self ev w).2))
  ∧ (∀ n fuel w,
       (∀ i, (i < n)%nat → access_fails E i) → open_for_append E n = None →
       is_Some (files w !! src_path ev) → (n < fuel)%nat →
       Scannertest.on_created E fuel self ev w
       = (Ret (),
          add_events (settled (src_path ev) ++ access_waits (src_path ev) n
                      ++ [Ev_open_append (src_path ev);
                          Ev_log WARNING
                            (Unsupported_file_format (src_path ev))]) w))
  ∧ (∀ n fuel w,
       (∀ i, (i < n)%nat → not_written E i) → written E n → (n < fuel)%nat →
       Scanner.on_created E fuel self ev w
       = (Ret (),
          add_events (seen (src_path ev) ++ writing_waits (src_path ev) n
                      ++ [Ev_stat (src_path ev);
                          Ev_log WARNING
                            (Unsupported_file_format (src_path ev))]) w)).
Proof.
  intros Hd Hpng. split; [|split].
  - intros fuel w. split; [|split; [|split]].
    + by apply quiet_scannertest_on_created, quiet_since_start.
    + by apply quiet_scanner_on_created, quiet_since_start.
    + by apply stays_scanner_on_created.
    + intros [b Hb]. by eapply stays_scannertest_on_created.
  - intros n fuel w Hf Ho Hthere Hfuel.
    rewrite (scannertest_on_created_passes E n) by done.
    unfold Scannertest.classify_and_file. rewrite Hpng.
    unfold log, emit. rewrite add_events_add. by rewrite <- !app_assoc.
  - intros n fuel w Hf Ho Hfuel.
    rewrite (scanner_on_created_passes E n) by done.
    unfold Scanner.classify_and_file. rewrite Hpng.
    unfold log, emit. rewrite add_events_add. by rewrite <- !app_assoc.
Qed.

(** A text file that is locked for two probes. *)
Lemma C8_witness :
  is_directory (created example_txt) = false
  ∧ endswith (Unicode.lower (src_path (created example_txt))) (u ".png")
    = false
  ∧ Scannertest.on_created env_locked_twice 3 example_handler
      (created example_txt) (example_world example_txt)
    = (Ret (),
       add_events (settled example_txt ++ access_waits example_txt 2
                   ++ [Ev_open_append example_txt;
                       Ev_log WARNING (Unsupported_file_format example_txt)])
         (example_world example_txt))
  ∧ unmoved (files (example_world example_txt))
      (history (example_world example_txt))
      (Scannertest.on_created env_locked_twice 3 example_handler
         (created example_txt) (example_world example_txt)).2.
Proof.
  assert (endswith (Unicode.lower (src_path (created example_txt)))
            (u ".png") = false) as Hpng by (vm_compute; reflexivity).
  assert (is_Some (files (example_world example_txt)
                   !! src_path (created example_txt))) as Hthere
    by (eexists; vm_compute; reflexivity).
  destruct (C8_other_extensions_are_left_in_place env_locked_twice
              example_handler (created example_txt) eq_refl Hpng)
    as (H1 & H2 & _).
  split; [reflexivity|]. split; [exact Hpng|]. split.
  - apply (H2 2%nat); [|reflexivity|exact Hthere|lia].
    intros i Hi. exists PermissionError.
    destruct i as [|[|i]]; [by vm_compute..|lia].
  - by apply H1.
Defined.

(** C8 fails as it is written.  The gate comes before the test of the
    extension.  A text file that stays empty: whatever the number of turns
    allowed, the handler of scanner.py is still in the gate, and has
    logged nothing as unsupported.  So is the handler of scannertest.py
    for a text file that stays locked. *)
Lemma C8_counterexample_never_logged_as_unsupported :
  endswith (Unicode.lower (src_path (created example_txt))) (u ".png") = false
  ∧ (∀ fuel,
       Scanner.on_created env_empty_file fuel example_handler
         (created example_txt) (example_world example_txt)
       = (OutOfFuel,
          add_events (seen example_txt ++ writing_waits example_txt fuel)
            (example_world example_txt))
       ∧ count is_unsupported
           (seen example_txt ++ writing_waits example_txt fuel) = 0%nat)
  ∧ (∀ fuel,
       Scannertest.on_created env_locked fuel example_handler
         (created example_txt) (example_world example_txt)
       = (OutOfFuel,
          add_events (settled example_txt ++ access_waits example_txt fuel)
            (example_world example_txt))
       ∧ count is_unsupported
           (settled example_txt ++ access_waits example_txt fuel) = 0%nat).
Proof.
  split; [vm_compute; reflexivity|]. split; intros fuel.
  - split.
    + apply scanner_on_created_waits; [done|]. intros i _. right. done.
    + by rewrite count_app, count_writing_waits.
  - split.
    + apply scannertest_on_created_waits; [done|].
      intros i _. by exists PermissionError.
    + by rewrite count_app, count_access_waits.
Qed.

(** ** C9: the extractor returns *)

(** C9.  Whatever the image, the library and the engine do, the extractor
    returns: nothing, or a word of its pattern.  No exception leaves
    it. *)
Theorem C9_extractor_always_returns E p w :
  (∃ r w', Scannertest.extract_po_number_from_image E p w = (Ret r, w')
           ∧ token_or_None po_pattern r)
  ∧ (∃ r w', Scanner.extract_po_number_from_image E p w = (Ret r, w')
             ∧ token_or_None po_pattern_plain r).
Proof.
  split.
  - destruct (scannertest_extract_total E p w) as (r & w' & H & Ht & _).
    by exists r, w'.
  - destruct (scanner_extract_total E p w) as (r & w' & H & Ht & _).
    by exists r, w'.
Qed.

(** ** C10: the case of the extension *)

(** C10.  A path that ends in any of the eight spellings of [.png] passes
    the test of the handler, and once the gate is passed the first thing
    that happens to the file is that the extractor opens the image. *)
Theorem C10_extension_test_ignores_case E self ev stem ext :
  ext ∈ png_spellings → src_path ev = stem ++ ext →
  is_directory ev = false →
  endswith (Unicode.lower (src_path ev)) (u ".png") = true
  ∧ (∀ n fuel w,
       (∀ i, (i < n)%nat → access_fails E i) → open_for_append E n = None →
       is_Some (files w !! src_path ev) → (n < fuel)%nat →
       grown_from
         (trace w ++ settled (src_path ev) ++ access_waits (src_path ev) n
          ++ [Ev_open_append (src_path ev); Ev_image_open (src_path ev)])
         (Scannertest.on_created E fuel self ev w).2)
  ∧ (∀ n fuel w,
       (∀ i, (i < n)%nat → not_written E i) → written E n → (n < fuel)%nat →
       grown_from
         (trace w ++ seen (src_path ev) ++ writing_waits (src_path ev) n
          ++ [Ev_stat (src_path ev); Ev_image_open (src_path ev)])
         (Scanner.on_created E fuel self ev w).2).
Proof.
  intros Hext Hsrc Hd. split; [|split].
  - rewrite Hsrc. by apply spelling_is_png.
  - intros n fuel w Hf Ho Hthere Hfuel.
    rewrite (scannertest_on_created_passes E n) by done.
    rewrite Hsrc.
    pose proof (scannertest_classify_opens_image E self stem ext
                  (trace w ++ settled (stem ++ ext)
                   ++ access_waits (stem ++ ext) n
                   ++ [Ev_open_append (stem ++ ext)]) Hext) as H.
    rewrite <- !app_assoc in H. apply H. reflexivity.
  - intros n fuel w Hf Ho Hfuel.
    rewrite (scanner_on_created_passes E n) by done.
    rewrite Hsrc.
    pose proof (scanner_classify_opens_image E self stem ext
                  (trace w ++ seen (stem ++ ext)
                   ++ writing_waits (stem ++ ext) n
                   ++ [Ev_stat (stem ++ ext)]) Hext) as H.
    rewrite <- !app_assoc in H. apply H. reflexivity.
Qed.

(** A file named [scan2.PNG]. *)
Lemma C10_witness :
  u ".PNG" ∈ png_spellings
  ∧ src_path (created example_PNG) = u "/renamescans/waves/scan2" ++ u ".PNG"
  ∧ endswith (Unicode.lower (src_path (created example_PNG))) (u ".png")
    = true
  ∧ grown_from
      (trace (example_world example_PNG) ++ settled example_PNG
       ++ access_waits example_PNG 0
       ++ [Ev_open_append example_PNG; Ev_image_open example_PNG])
      (Scannertest.on_created env_fine 1 example_handler
         (created example_PNG) (example_world example_PNG)).2.
Proof.
  assert (u ".PNG" ∈ png_spellings) as Hext
    by (apply (bool_decide_eq_true_1 (u ".PNG" ∈ png_spellings));
        vm_compute; reflexivity).
  destruct (C10_extension_test_ignores_case env_fine example_handler
              (created example_PNG) (u "/renamescans/waves/scan2") (u ".PNG")
              Hext eq_refl eq_refl) as (H1 & H2 & _).
  split; [exact Hext|]. split; [reflexivity|]. split; [exact H1|].
  apply (H2 0%nat 1%nat); [intros i Hi; lia | reflexivity | | lia].
  eexists. vm_compute. reflexivity.
Defined.

(** * More of the code

    Properties of the parser, the names, the handlers and the start of the
    programs that the code shows by itself. *)

(** X1.  Both searches find a PO number exactly when the text holds "PO"
    with a decimal digit right after it. *)
Theorem X1_found_iff_PO_and_digit t :
  (is_Some (get_PO_number_from_text t) ↔ ∃ i, po_digit_at t i)
  ∧ (is_Some (plain_PO_number_from_text t) ↔ ∃ i, po_digit_at t i).
Proof. apply found_iff_po_digit_at. Qed.

(** X2.  What the parser returns is never empty, so that the handler's
    test [if po_number:] holds exactly when a token was found; and it is
    made of ASCII capitals and decimal digits only, at least three of
    them. *)
Theorem X2_token_is_truthy_capitals_and_digits t :
  truthy (get_PO_number_from_text t)
  = bool_decide (is_Some (get_PO_number_from_text t))
  ∧ truthy (plain_PO_number_from_text t)
    = bool_decide (is_Some (plain_PO_number_from_text t))
  ∧ ∀ m, get_PO_number_from_text t = Some m
         ∨ plain_PO_number_from_text t = Some m →
         (3 ≤ length m)%nat ∧ Forall (λ c, is_token_char c = true) m.
Proof.
  assert (∀ m, get_PO_number_from_text t = Some m
               ∨ plain_PO_number_from_text t = Some m →
               (3 ≤ length m)%nat ∧ Forall (λ c, is_token_char c = true) m)
    as Hshape.
  { intros m [Hm|Hm]; apply word_token_chars.
    - pose proof (get_PO_number_leftmost t) as H. rewrite Hm in H.
      by destruct H as (i & _ & Hl & _).
    - pose proof (plain_PO_number_leftmost t) as H. rewrite Hm in H.
      destruct H as (i & _ & Hl & _). by apply plain_word_is_word. }
  split; [|split; [|exact Hshape]].
  - destruct (get_PO_number_from_text t) as [m|] eqn:Hm; [|done].
    destruct (Hshape m (or_introl eq_refl)) as [Hlen _].
    rewrite bool_decide_eq_true_2 by (by eexists).
    destruct m; [simpl in Hlen; lia | done].
  - destruct (plain_PO_number_from_text t) as [m|] eqn:Hm; [|done].
    destruct (Hshape m (or_intror eq_refl)) as [Hlen _].
    rewrite bool_decide_eq_true_2 by (by eexists).
    destruct m; [simpl in Hlen; lia | done].
Qed.

(** X3.  Parsing is idempotent: the token found in a text is the token
    found in that token. *)
Theorem X3_parsing_a_token_returns_it t m :
  get_PO_number_from_text t = Some m → get_PO_number_from_text m = Some m.
Proof.
  intros Hm. pose proof (get_PO_number_leftmost t) as H. rewrite Hm in H.
  destruct H as (i & _ & Hl & _).
  pose proof (get_PO_number_leftmost m) as H'.
  destruct (get_PO_number_from_text m) as [m'|].
  - destruct H' as (i' & Ho' & Hl' & Hmin).
    destruct (Hmin 0%nat m (occurs_at_self m) Hl) as [Hlt|[-> Hlen]]; [lia|].
    f_equal. apply (occurs_at_inj m 0); [done | apply occurs_at_self |].
    pose proof (occurs_at_length _ _ _ Ho'). lia.
  - exfalso. by apply (H' 0%nat m (occurs_at_self m)).
Qed.

Lemma X3_witness :
  get_PO_number_from_text (u "Ref: 99 APO1023 see PO55") = Some (u "APO1023")
  ∧ get_PO_number_from_text (u "APO1023") = Some (u "APO1023").
Proof.
  assert (get_PO_number_from_text (u "Ref: 99 APO1023 see PO55")
          = Some (u "APO1023")) as H by reflexivity.
  split; [exact H|].
  exact (X3_parsing_a_token_returns_it _ _ H).
Defined.

(** X4.  The two programs find a PO number in the same texts, and the
    token of scannertest.py is the token of scanner.py with the capitals
    that stand right before it. *)
Theorem X4_scannertest_token_extends_scanner_token t :
  match get_PO_number_from_text t, plain_PO_number_from_text t with
  | Some m, Some m' =>
      ∃ r, m = r ++ m' ∧ Forall (λ c, Unicode.is_ascii_upper c = true) r
  | None, None => True
  | _, _ => False
  end.
Proof.
  pose proof (get_PO_number_leftmost t) as H.
  pose proof (plain_PO_number_leftmost t) as H'.
  pose proof (found_iff_po_digit_at t) as [H1 H2].
  destruct (get_PO_number_from_text t) as [m|],
           (plain_PO_number_from_text t) as [m'|]; try done.
  - destruct H as (i & Ho & Hl & Hmin). destruct H' as (j & Ho' & Hl' & Hmin').
    pose proof Hl as (r & c & d & -> & Hr & Hc & Hd)%lang_po_pattern_shape.
    exists r. split; [|done]. f_equal.
    set (w0 := chr_P :: chr_O :: c :: d) in *.
    assert (Re.lang po_pattern_plain w0) as Hw0
      by (apply lang_po_pattern_plain_shape; by exists c, d).
    pose proof (occurs_at_app _ _ _ _ Ho) as Ho0.
    destruct (Hmin' _ _ Ho0 Hw0) as [Hlt|[-> Hlen]].
    + exfalso.
      pose proof Hl' as (c' & d' & -> & Hc' & Hd')%lang_po_pattern_plain_shape.
      assert (i ≤ j)%nat as Hij.
      { destruct (Hmin j _ Ho' (plain_word_is_word _ Hl')); lia. }
      assert (t !! (j + 2)%nat = Some c') as Hj
        by (by apply (occurs_at_lookup _ _ _ _ _ Ho')).
      assert (Forall (λ x, Unicode.is_ascii_upper x = true)
                (r ++ [chr_P; chr_O])) as Hup
        by (apply Forall_app; split; [done | by repeat constructor]).
      destruct (lookup_lt_is_Some_2 (r ++ [chr_P; chr_O]) (j + 2 - i)%nat)
        as [x Hx]; [rewrite length_app; simpl; lia|].
      assert (t !! (i + (j + 2 - i))%nat = Some x) as Hx'.
      { apply (occurs_at_lookup _ _ _ _ _ Ho).
        replace (r ++ w0) with ((r ++ [chr_P; chr_O]) ++ c :: d)
          by (by rewrite <- app_assoc).
        by apply lookup_app_l_Some. }
      replace (i + (j + 2 - i))%nat with (j + 2)%nat in Hx' by lia.
      rewrite Hj in Hx'. inversion Hx'; subst x.
      rewrite Forall_lookup in Hup. specialize (Hup _ _ Hx).
      apply decimal_not_upper in Hc'. simpl in Hup. congruence.
    + symmetry. apply (occurs_at_inj t (i + length r)); [done..|].
      assert (occurs_at t i (r ++ m')) as Hrm.
      { destruct Ho as (post & Hd0 & Hi). destruct Ho' as (post' & Hd' & _).
        exists post'. split; [|done].
        rewrite <- drop_drop, Hd0, <- app_assoc, drop_app_length in Hd'.
        by rewrite Hd0, <- !app_assoc, Hd'. }
      assert (Re.lang po_pattern (r ++ m')) as Hlrm.
      { pose proof Hl' as (c' & d' & -> & Hc' & Hd')%lang_po_pattern_plain_shape.
        apply lang_po_pattern_shape. by exists r, c', d'. }
      destruct (Hmin _ _ Hrm Hlrm) as [?|[_ Hlen']]; [lia|].
      rewrite !length_app in Hlen'. lia.
  - destruct (proj2 H2 (proj1 H1 (ex_intro _ m eq_refl))) as [x Hx].
    discriminate.
  - destruct (proj2 H1 (proj1 H2 (ex_intro _ m' eq_refl))) as [x Hx].
    discriminate.
Qed.

(** X5.  The six characters of the name are the first three random bytes
    of the [uuid4] in hexadecimal: the bits that hold its version and its
    variant are not among them, so each of the [16^6] suffixes can occur,
    and two names for the same token and extension differ exactly when
    these three bytes differ. *)
Theorem X5_suffix_is_first_three_random_bytes E E' :
  name_suffix E = Uuid.hex_digits 6 (first_three_bytes (urandom16 E))
  ∧ first_three_bytes (urandom16 E) < 16 ^ 6
  ∧ (name_suffix E = name_suffix E'
     ↔ first_three_bytes (urandom16 E) = first_three_bytes (urandom16 E')).
Proof.
  assert (∀ F, name_suffix F
               = Uuid.hex_digits 6 (first_three_bytes (urandom16 F))) as Hs.
  { intros F. unfold name_suffix, Uuid.hex.
    rewrite (take_hex_digits 6 26). change (16 ^ N.of_nat 26) with (2 ^ 104).
    by rewrite uuid4_int_first_three_bytes. }
  split; [apply Hs|]. split; [apply first_three_bytes_bound|].
  rewrite !Hs. split; [|by intros ->].
  intros H%hex_digits_inj. change (16 ^ N.of_nat 6) with (16 ^ 6) in H.
  by rewrite !N.mod_small in H by apply first_three_bytes_bound.
Qed.

(** X6. The handlers' test [file_path.lower().endswith('.png')] accepts a
    path exactly when the path ends in one of the eight spellings of
    [.png] (each of the three letters in either case). *)
Theorem X6_accepted_paths_end_in_a_png_spelling (p : str) :
  endswith (Unicode.lower p) (u ".png") = true
  ↔ ∃ stem ext, p = stem ++ ext ∧ ext ∈ png_spellings.
Proof.
  split; [apply lower_is_png|].
  intros (stem & ext & -> & Hext). by apply spelling_is_png.
Qed.

(** X7. For an accepted path [stem ++ ext], [os.path.splitext], as
    [rename_and_move] calls it, cuts exactly before the spelling, which is
    kept in the case it was written in; unless the file name is made of
    dots only before it (a hidden file such as [.png]), where the
    extension is empty. *)
Theorem X7_extension_of_an_accepted_path (stem ext : str) :
  ext ∈ png_spellings →
  OsPath.splitext (stem ++ ext)
  = if OsPath.has_non_dot (OsPath.basename stem)
    then (stem, ext) else (stem ++ ext, []).
Proof. apply splitext_spelling. Qed.

Lemma X7_witness :
  u ".PnG" ∈ png_spellings
  ∧ OsPath.splitext (u "/scans/waves/a.b.PnG") = (u "/scans/waves/a.b", u ".PnG")
  ∧ OsPath.splitext (u "/scans/waves/..PnG") = (u "/scans/waves/..PnG", []).
Proof.
  assert (u ".PnG" ∈ png_spellings) as H
    by (apply (bool_decide_eq_true_1 (u ".PnG" ∈ png_spellings));
        vm_compute; reflexivity).
  split; [exact H|]. split.
  - exact (X7_extension_of_an_accepted_path (u "/scans/waves/a.b") (u ".PnG") H).
  - exact (X7_extension_of_an_accepted_path (u "/scans/waves/.") (u ".PnG") H).
Defined.

(** X8.  Whatever happens, each handler asks [shutil.move] only for moves
    of the file of the event, and only to two kinds of destination: the
    finished directory joined with a word of the extractor's pattern, an
    underscore, the six digits and the extension; or the error directory
    joined with the base name of the file.  The joined name is the base
    name of the destination: no text read from the image and no part of
    the intake path puts the file in another directory. *)
Theorem X8_handlers_move_only_the_new_file_into_their_directories
    E fuel self ev w :
  (∃ evs, trace (Scannertest.on_created E fuel self ev w).2 = trace w ++ evs
          ∧ ∀ s d, Ev_move s d ∈ evs →
                   handler_move E po_pattern self (src_path ev) s d)
  ∧ (∃ evs, trace (Scanner.on_created E fuel self ev w).2 = trace w ++ evs
            ∧ ∀ s d, Ev_move s d ∈ evs →
                     handler_move E po_pattern_plain self (src_path ev) s d).
Proof.
  assert (moves_within (handler_move E po_pattern self (src_path ev))
            (trace w) w
          ∧ moves_within (handler_move E po_pattern_plain self (src_path ev))
              (trace w) w) as [H1 H2].
  { split; exists []; (split; [by rewrite app_nil_r|]);
      intros s d Hin; by apply elem_of_nil in Hin. }
  split.
  - apply (λ Ht : triple
                       (moves_within
                          (handler_move E po_pattern self (src_path ev))
                          (trace w))
                       (Scannertest.on_created E fuel self ev)
                       (moves_within
                          (handler_move E po_pattern self (src_path ev))
                          (trace w)),
             Ht w H1).
    apply (kept_scannertest_on_created E _
      (λ ev', ∀ s d, ev' = Ev_move s d →
                     handler_move E po_pattern self (src_path ev) s d)
      (λ _, True));
      [ intros ev' w'; apply moves_within_ev | done
      | apply moves_within_files | apply moves_within_other | done | done
      | done | done | | ].
    + intros po Hpo s d [= <- <-]. by apply handler_move_token.
    + intros s d [= <- <-]. apply handler_move_no_token.
  - apply (λ Ht : triple
                       (moves_within
                          (handler_move E po_pattern_plain self (src_path ev))
                          (trace w))
                       (Scanner.on_created E fuel self ev)
                       (moves_within
                          (handler_move E po_pattern_plain self (src_path ev))
                          (trace w)),
             Ht w H2).
    apply (kept_scanner_on_created E _
      (λ ev', ∀ s d, ev' = Ev_move s d →
                     handler_move E po_pattern_plain self (src_path ev) s d)
      (λ _, True));
      [ intros ev' w'; apply moves_within_ev | done
      | apply moves_within_files | apply moves_within_other | done | done
      | done | done | | ].
    + intros po Hpo s d [= <- <-].
      apply handler_move_token; [apply plain_word_is_word | done].
    + intros s d [= <- <-]. apply handler_move_no_token.
Qed.

(** X9.  Neither handler removes a directory, and the only directories
    for which a handler calls [os.makedirs] are its finished directory and
    its error directory. *)
Theorem X9_handlers_make_only_their_two_directories E fuel self ev w :
  (dirs w ⊆ dirs (Scannertest.on_created E fuel self ev w).2
   ∧ makedirs_within {[finished_directory self; error_directory self]}
       (trace w) (Scannertest.on_created E fuel self ev w).2)
  ∧ (dirs w ⊆ dirs (Scanner.on_created E fuel self ev w).2
     ∧ makedirs_within {[finished_directory self; error_directory self]}
         (trace w) (Scanner.on_created E fuel self ev w).2).
Proof.
  set (allowed := ({[finished_directory self; error_directory self]}
                     : gset str)).
  pose proof (made_within_start (dirs w) allowed (trace w) w eq_refl eq_refl)
    as H0.
  assert (finished_directory self ∈ allowed) as Hfin
    by (apply elem_of_union; left; by apply elem_of_singleton).
  assert (error_directory self ∈ allowed) as Herr
    by (apply elem_of_union; right; by apply elem_of_singleton).
  enough (made_within (dirs w) allowed (trace w)
            (Scannertest.on_created E fuel self ev w).2
          ∧ made_within (dirs w) allowed (trace w)
              (Scanner.on_created E fuel self ev w).2)
    as [[[H1 _] H2] [[H3 _] H4]] by done.
  split.
  - apply (λ Ht : triple (made_within (dirs w) allowed (trace w))
                    (Scannertest.on_created E fuel self ev)
                    (made_within (dirs w) allowed (trace w)),
             Ht w H0).
    apply (kept_scannertest_on_created E _
             (λ ev', ∀ d, ev' = Ev_makedirs d → d ∈ allowed)
             (λ d, d ∈ allowed));
      [ intros ev' w'; apply made_within_ev
      | intros d w'; apply made_within_dir
      | apply made_within_files | apply made_within_other
      | done | done | by intros d [= <-] | by intros d [= <-]
      | done | done ].
  - apply (λ Ht : triple (made_within (dirs w) allowed (trace w))
                    (Scanner.on_created E fuel self ev)
                    (made_within (dirs w) allowed (trace w)),
             Ht w H0).
    apply (kept_scanner_on_created E _
             (λ ev', ∀ d, ev' = Ev_makedirs d → d ∈ allowed)
             (λ d, d ∈ allowed));
      [ intros ev' w'; apply made_within_ev
      | intros d w'; apply made_within_dir
      | apply made_within_files | apply made_within_other
      | done | done | by intros d [= <-] | by intros d [= <-]
      | done | done ].
Qed.

(** X10.  What each extractor returns is a function of what the image
    library and the engine answer, and of nothing else: in scanner.py the
    token of the text read in the image, and nothing when the image or the
    text cannot be had; in scannertest.py the same for an image that loads
    at one of the first four attempts, and nothing when the image loads at
    the fifth, at none, or the loading fails otherwise than with an
    [IOError]. *)
Theorem X10_extractors_return_their_answer E p w :
  (Scannertest.extract_po_number_from_image E p w).1
  = Ret (Scannertest_answer E)
  ∧ (Scanner.extract_po_number_from_image E p w).1 = Ret (Scanner_answer E).
Proof.
  split.
  - by destruct (scannertest_extract_answer E p w) as [w' ->].
  - by destruct (scanner_extract_answer E p w) as [w' ->].
Qed.

(** X11.  scannertest.py, from the event to the filed file.  For a new
    file with one of the spellings of [.png], whose probe succeeds at the
    attempt [n] after failing before, and when neither [os.makedirs] nor
    [os.rename] fails, the handler returns and the file has moved to its
    destination: the finished directory, under the new name, when the
    extractor has answered a token; the error directory, under its own
    name, in every other case (no token in the text, an image that cannot
    be read, an engine that fails).  The destination must not be a
    directory. *)
Theorem X11_scannertest_handler_delivers E fuel self ev w b stem ext n :
  is_directory ev = false →
  src_path ev = stem ++ ext → ext ∈ png_spellings →
  files w !! src_path ev = Some b →
  (∀ i, (i < n)%nat → access_fails E i) → open_for_append E n = None →
  (n < fuel)%nat →
  fault_makedirs E = None → fault_rename E = None →
  destination E self (src_path ev) (Scannertest_answer E) ∉ dirs w →
  ∃ w', Scannertest.on_created E fuel self ev w = (Ret (), w')
        ∧ files w' = moved (files w) (src_path ev)
                       (destination E self (src_path ev)
                          (Scannertest_answer E)) b.
Proof.
  intros Hdir Hp Hext Hb Hfail Hopen Hfuel Hmk Hrn Hd.
  rewrite (scannertest_on_created_passes E n) by done.
  rewrite Hp in *.
  by apply (scannertest_classify_ok E self stem ext b (add_events _ w)).
Qed.

(** X12.  scanner.py, from the event to the filed file: the same, for a
    file that the gate finds written at its look [n] and not before. *)
Theorem X12_scanner_handler_delivers E fuel self ev w b stem ext n :
  is_directory ev = false →
  src_path ev = stem ++ ext → ext ∈ png_spellings →
  files w !! src_path ev = Some b →
  (∀ i, (i < n)%nat → not_written E i) → written E n →
  (n < fuel)%nat →
  fault_makedirs E = None → fault_rename E = None →
  destination E self (src_path ev) (Scanner_answer E) ∉ dirs w →
  ∃ w', Scanner.on_created E fuel self ev w = (Ret (), w')
        ∧ files w' = moved (files w) (src_path ev)
                       (destination E self (src_path ev)
                          (Scanner_answer E)) b.
Proof.
  intros Hdir Hp Hext Hb Hfail Hopen Hfuel Hmk Hrn Hd.
  rewrite (scanner_on_created_passes E n) by done.
  rewrite Hp in *.
  by apply (scanner_classify_ok E self stem ext b (add_events _ w)).
Qed.

Lemma X11_witness :
  (∀ i, (i < 2)%nat → access_fails env_locked_twice i)
  ∧ open_for_append env_locked_twice 2 = None
  ∧ ∃ w', Scannertest.on_created env_locked_twice 3 example_handler
            (created example_PNG) (example_world example_PNG) = (Ret (), w')
          ∧ files w' !! u "/renamescans/wavesfinished/PO904821_abcdef.PNG"
            = Some example_content.
Proof.
  assert (∀ i, (i < 2)%nat → access_fails env_locked_twice i) as Hf.
  { intros i Hi. exists PermissionError.
    destruct i as [|[|i]]; [by vm_compute..|lia]. }
  assert (u ".PNG" ∈ png_spellings) as Hext
    by (apply (bool_decide_eq_true_1 (u ".PNG" ∈ png_spellings));
        vm_compute; reflexivity).
  split; [exact Hf|]. split; [reflexivity|].
  destruct (X11_scannertest_handler_delivers env_locked_twice 3
              example_handler (created example_PNG)
              (example_world example_PNG) example_content
              (u "/renamescans/waves/scan2") (u ".PNG") 2)
    as (w' & Heq & Hfiles);
    [reflexivity | reflexivity | exact Hext | vm_compute; reflexivity
    | exact Hf | reflexivity | lia | reflexivity | reflexivity
    | decide_false |].
  exists w'. split; [exact Heq|]. rewrite Hfiles. vm_compute. reflexivity.
Defined.

Lemma X12_witness :
  written env_ref 0
  ∧ ∃ w', Scanner.on_created env_ref 1 example_handler
            (created example_png) (example_world example_png) = (Ret (), w')
          ∧ files w' !! u "/renamescans/wavesfinished/PO1023_abcdef.png"
            = Some example_content.
Proof.
  assert (written env_ref 0) as Hw.
  { split; [reflexivity|]. right. by exists 4. }
  assert (u ".png" ∈ png_spellings) as Hext
    by (apply (bool_decide_eq_true_1 (u ".png" ∈ png_spellings));
        vm_compute; reflexivity).
  split; [exact Hw|].
  destruct (X12_scanner_handler_delivers env_ref 1
              example_handler (created example_png)
              (example_world example_png) example_content
              (u "/renamescans/waves/scan1") (u ".png") 0)
    as (w' & Heq & Hfiles);
    [reflexivity | reflexivity | exact Hext | vm_compute; reflexivity
    | intros i Hi; lia | exact Hw | lia | reflexivity | reflexivity
    | decide_false |].
  exists w'. split; [exact Heq|]. rewrite Hfiles. vm_compute. reflexivity.
Defined.

(** X13.  The error directory keeps one file for each base name.  When a
    file that got no token has been moved there and a new file arrives
    under the same intake path and gets no token either, the second move
    replaces the first file: the files are then as if the first file had
    never come, and its content is in neither place. *)
Theorem X13_second_unclassified_file_replaces_the_first
    E self p b1 b2 w :
  files w !! p = Some b1 →
  fault_makedirs E = None → fault_rename E = None →
  OsPath.basename p ≠ [] →
  OsPath.join (error_directory self) (OsPath.basename p) ∉ dirs w →
  ∃ w1 w2,
    handle_no_po_numbers E self p w = (Ret (), w1)
    ∧ files w1 !! OsPath.join (error_directory self) (OsPath.basename p)
      = Some b1
    ∧ handle_no_po_numbers E self p (put_files (<[p := b2]> (files w1)) w1)
      = (Ret (), w2)
    ∧ files w2
      = moved (files w) p
          (OsPath.join (error_directory self) (OsPath.basename p)) b2.
Proof.
  intros Hb Hmk Hrn Hne Hd.
  set (err := OsPath.join (error_directory self) (OsPath.basename p)) in *.
  assert (err ≠ error_directory self) as Herr
    by (apply join_name_ne; [apply basename_no_sep | done]).
  destruct (handle_no_po_numbers_ok E self p b1 w Hb Hmk Hrn Hd Herr)
    as (w1 & Heq1 & Hf1 & _).
  pose proof (handle_no_po_numbers_dirs E self p w) as Hd1.
  rewrite Heq1 in Hd1. simpl in Hd1.
  destruct (handle_no_po_numbers_ok E self p b2
              (put_files (<[p := b2]> (files w1)) w1))
    as (w2 & Heq2 & Hf2 & _); [by apply lookup_insert_eq | done | done | | done |].
  { simpl. fold err.
    intros [Hin|Hin%elem_of_singleton]%Hd1%elem_of_union; done. }
  exists w1, w2. split; [done|]. split.
  { rewrite Hf1. apply lookup_insert_eq. }
  split; [done|]. rewrite Hf2. simpl. rewrite Hf1. apply moved_again.
Qed.

Lemma X13_witness :
  files (example_world example_png) !! example_png = Some example_content
  ∧ ∃ w1 w2,
      handle_no_po_numbers env_fine example_handler example_png
        (example_world example_png) = (Ret (), w1)
      ∧ handle_no_po_numbers env_fine example_handler example_png
          (put_files (<[example_png := [Byte.x00]]> (files w1)) w1)
        = (Ret (), w2)
      ∧ files w2 !! u "/renamescans/wavesfinished/UncapturedPO/scan1.png"
        = Some [Byte.x00]
      ∧ files w2 !! example_png = None.
Proof.
  assert (files (example_world example_png) !! example_png
          = Some example_content) as Hb by (vm_compute; reflexivity).
  split; [exact Hb|].
  destruct (X13_second_unclassified_file_replaces_the_first env_fine
              example_handler example_png example_content [Byte.x00]
              (example_world example_png) Hb eq_refl eq_refl)
    as (w1 & w2 & H1 & _ & H2 & Hf); [decide_false..|].
  exists w1, w2. split; [exact H1|]. split; [exact H2|].
  rewrite Hf. split; vm_compute; reflexivity.
Defined.

(** X14.  When [check_dependencies] of scannertest.py returns, the
    command it has bound, in the global and in [pytesseract], is a file
    that exists, [TESSDATA_PREFIX] is a path that exists, the file system
    is as it was, and the log has one more entry, the one of the
    success. *)
Theorem X14_scannertest_check_binds_an_existing_tesseract
    sys tesseract_path tessdata_path s s' :
  ScannertestMain.check_dependencies sys tesseract_path tessdata_path s
  = (Startup.Done (), s') →
  ∃ cmd d,
    Startup.TESSERACT_CMD s' = Some cmd
    ∧ Startup.tesseract_cmd s' = Some cmd
    ∧ cmd ∈ Startup.regular_files s'
    ∧ Startup.TESSDATA_PREFIX s' = Some d
    ∧ (d ∈ Startup.regular_files s' ∨ d ∈ Startup.directories s')
    ∧ Startup.regular_files s' = Startup.regular_files s
    ∧ Startup.directories s' = Startup.directories s
    ∧ Startup.logged s'
      = Startup.logged s
        ++ [(INFO, Startup.Tesseract_successfully_loaded (Some cmd))].
Proof. apply scannertest_check_done. Qed.

Lemma X14_witness :
  ∃ s',
    ScannertestMain.check_dependencies example_system None None
      example_process = (Startup.Done (), s')
    ∧ Startup.tesseract_cmd s' = Some (u "/usr/bin/tesseract")
    ∧ Startup.TESSDATA_PREFIX s' = Some (u "/usr/bin/tessdata").
Proof.
  assert (ScannertestMain.check_dependencies example_system None None
            example_process
          = (Startup.Done (),
             (ScannertestMain.check_dependencies example_system None None
                example_process).2)) as Heq by (vm_compute; reflexivity).
  exists (ScannertestMain.check_dependencies example_system None None
            example_process).2.
  split; [exact Heq|].
  destruct (X14_scannertest_check_binds_an_existing_tesseract _ _ _ _ _ Heq)
    as (cmd & d & _ & Hcmd & _ & Hd & _).
  split; vm_compute; reflexivity.
Defined.

(** X15.  Tesseract is not on the PATH, the program is not a bundle, and
    the two paths are not both given.  Then [check_dependencies] of
    scannertest.py ends in the [TypeError] of [os.path.dirname(None)],
    with nothing logged: the test [TESSERACT_CMD is None] that follows,
    with its message and its exit, is never reached with [None].
    [check_dependencies] of scanner.py logs that Tesseract is not found
    and exits with status 1. *)
Theorem X15_missing_tesseract_ends_in_TypeError_or_exit
    sys tesseract_path tessdata_path s :
  truthy tesseract_path && truthy tessdata_path = false →
  Startup.frozen sys = false → Startup.which_tesseract sys = None →
  (ScannertestMain.check_dependencies sys tesseract_path tessdata_path s).1
  = Startup.Stop Startup.TypeError
  ∧ Startup.logged
      (ScannertestMain.check_dependencies sys tesseract_path tessdata_path
         s).2 = Startup.logged s
  ∧ (ScannerMain.check_dependencies sys s).1
    = Startup.Stop (Startup.SystemExit 1)
  ∧ Startup.logged (ScannerMain.check_dependencies sys s).2
    = Startup.logged s ++ [(ERROR, Startup.Tesseract_not_found)].
Proof.
  intros Hab Hfr Hwh.
  unfold ScannertestMain.check_dependencies, ScannerMain.check_dependencies.
  srun. by rewrite Hab, Hfr, Hwh.
Qed.

Lemma X15_witness :
  (ScannertestMain.check_dependencies system_without_tesseract
     (Some (u "/opt/tesseract")) None example_process).1
  = Startup.Stop Startup.TypeError
  ∧ (ScannerMain.check_dependencies system_without_tesseract
       example_process).1 = Startup.Stop (Startup.SystemExit 1).
Proof.
  destruct (X15_missing_tesseract_ends_in_TypeError_or_exit
              system_without_tesseract (Some (u "/opt/tesseract")) None
              example_process eq_refl eq_refl eq_refl) as (H1 & _ & H2 & _).
  split; [exact H1 | exact H2].
Defined.

(** X16.  [check_dependencies] of scanner.py looks at no path: in a
    bundle, or when Tesseract is on the PATH, it returns, with nothing
    logged, and [TESSDATA_PREFIX] is the directory of the command.  The
    two programs disagree on it: whenever [check_dependencies] of
    scannertest.py returns for the same machine (and no two paths given),
    it has bound the same command, and its [TESSDATA_PREFIX] is the
    [tessdata] directory inside the one of scanner.py. *)
Theorem X16_scanner_check_looks_at_no_path_and_prefixes_differ
    sys tesseract_path tessdata_path s :
  Startup.frozen sys = true ∨ is_Some (Startup.which_tesseract sys) →
  truthy tesseract_path && truthy tessdata_path = false →
  ∃ cmd,
    ScannerMain.check_dependencies sys s
    = (Startup.Done (),
       {| Startup.regular_files := Startup.regular_files s;
          Startup.directories := Startup.directories s;
          Startup.TESSERACT_CMD := Some cmd;
          Startup.TESSDATA_PREFIX := Some (Startup.dirname cmd);
          Startup.tesseract_cmd := Some cmd;
          Startup.logged := Startup.logged s |})
    ∧ ∀ s2,
        ScannertestMain.check_dependencies sys tesseract_path tessdata_path s
        = (Startup.Done (), s2) →
        Startup.tesseract_cmd s2 = Some cmd
        ∧ Startup.TESSDATA_PREFIX s2
          = Some (OsPath.join (Startup.dirname cmd) (u "tessdata")).
Proof.
  intros H Hab. destruct (scanner_check_done sys s H) as (cmd & Hcmd & Heq).
  exists cmd. split; [exact Heq|]. intros s2.
  unfold ScannertestMain.check_dependencies. rewrite Hab.
  destruct (Startup.frozen sys).
  - assert (Startup.dirname cmd
            = OsPath.join (Startup.MEIPASS sys) (u "Tesseract-OCR")) as ->.
    { rewrite Hcmd.
      destruct (join_prefix (Startup.MEIPASS sys)) as [a' Ha'].
      rewrite (Ha' (u "Tesseract-OCR")) by reflexivity.
      change (u "Tesseract-OCR") with (u "Tesseract-OC" ++ [82]).
      rewrite app_assoc. apply dirname_join_file; [done|].
      apply (bool_decide_eq_false_1 (_ ∈ _)). reflexivity. }
    rewrite <- Hcmd.
    generalize (OsPath.join
                  (OsPath.join (Startup.MEIPASS sys) (u "Tesseract-OCR"))
                  (u "tessdata")) as fdata. intros fdata.
    srun. simpl. repeat (case_bool_decide; simpl); try discriminate.
    all: by intros [= <-].
  - rewrite Hcmd. generalize (u "tessdata") as lit. intros lit.
    srun. simpl. repeat (case_bool_decide; simpl); try discriminate.
    all: by intros [= <-].
Qed.

Lemma X16_witness :
  ∃ s1 s2,
    ScannerMain.check_dependencies example_system example_process
    = (Startup.Done (), s1)
    ∧ ScannertestMain.check_dependencies example_system None None
        example_process = (Startup.Done (), s2)
    ∧ Startup.TESSDATA_PREFIX s1 = Some (u "/usr/bin")
    ∧ Startup.TESSDATA_PREFIX s2 = Some (u "/usr/bin/tessdata").
Proof.
  destruct (X16_scanner_check_looks_at_no_path_and_prefixes_differ
              example_system None None example_process)
    as (cmd & H1 & H2); [right; by eexists | reflexivity |].
  eexists _, _. split; [exact H1|].
  split; [vm_compute; reflexivity|].
  split; [|vm_compute; reflexivity].
  cbn [Startup.TESSDATA_PREFIX]. injection H1 as H1. rewrite <- H1.
  vm_compute. reflexivity.
Defined.



(** X18.  The directories are made after Tesseract is found, not before:
    when the [__main__] block of either program ends in [sys.exit] or in
    the [TypeError], no directory has been made.  And however it ends,
    it removes no directory, makes none but its four, and leaves the
    regular files as they are. *)
Theorem X18_no_directory_is_made_when_the_check_fails
    prog sys root s e s' :
  main_of prog sys root s = (Startup.Stop e, s') →
  (∀ x, e ≠ Startup.Raised x) →
  Startup.directories s' = Startup.directories s
  ∧ Startup.regular_files s' = Startup.regular_files s.
Proof.
  intros H Hne. pose proof (main_of_frame prog sys root s) as Hf.
  cbn zeta in Hf. rewrite H in Hf. simpl in Hf.
  destruct Hf as (H1 & _ & _ & H4 & _). split; [|done].
  by apply (H4 e).
Qed.

Lemma X18_witness :
  ∃ s',
    main_of scannertest_py system_without_tesseract (u "/renamescans")
      example_process = (Startup.Stop Startup.TypeError, s')
    ∧ Startup.directories s' = Startup.directories example_process.
Proof.
  assert (main_of scannertest_py system_without_tesseract (u "/renamescans")
            example_process
          = (Startup.Stop Startup.TypeError,
             (main_of scannertest_py system_without_tesseract
                (u "/renamescans") example_process).2)) as Heq
    by (vm_compute; reflexivity).
  eexists. split; [exact Heq|].
  exact (proj1 (X18_no_directory_is_made_when_the_check_fails _ _ _ _ _ _
                  Heq (λ x Hx, eq_ind Startup.TypeError
                                 (λ e, match e with
                                       | Startup.TypeError => True
                                       | _ => False
                                       end) Logic.I _ Hx))).
Defined.

(** X19.  The handler feeds no event back to itself.  With the layout of
    either program, no move that its handler asks for has a destination
    that is a file of the directory the observer watches (which it
    watches without its subdirectories). *)
Theorem X19_no_move_ends_in_the_watched_directory
    prog E root p s d name :
  handler_move E (pattern_of prog)
    (Startup.event_handler (layout_of prog root)) p s d →
  OsPath.sep ∉ name →
  d ≠ OsPath.join (Startup.waves_directory (layout_of prog root)) name.
Proof.
  intros (_ & n & Hn & Hd) Hname.
  destruct (layout_of_paths prog root) as (root' & Hw & Hf & He).
  rewrite Hw, Hf, He in *.
  assert (OsPath.sep ∉ n) as Hnsep by (rewrite <- Hn; apply basename_no_sep).
  change (u "waves") with (u "wave" ++ [115]).
  rewrite app_assoc, (join_after_letter _ 115 name) by done.
  destruct Hd as [[-> _]|[-> _]].
  - change (u "wavesfinished") with (u "wavesfinishe" ++ [100]).
    rewrite app_assoc, (join_after_letter _ 100 n) by done.
    rewrite <- !app_assoc. intros H%app_inv_head. simpl in H. discriminate.
  - destruct prog.
    + change (u "wavesfinished/UncapturedPO")
        with (u "wavesfinished/UncapturedP" ++ [79]).
      rewrite app_assoc, (join_after_letter _ 79 n) by done.
      rewrite <- !app_assoc. intros H%app_inv_head. simpl in H. discriminate.
    + change (u "waveserrors") with (u "waveserror" ++ [115]).
      rewrite app_assoc, (join_after_letter _ 115 n) by done.
      rewrite <- !app_assoc. intros H%app_inv_head. simpl in H. discriminate.
Qed.

Lemma X19_witness :
  handler_move env_fine (pattern_of scanner_py)
    (Startup.event_handler (layout_of scanner_py (u "/renamescans")))
    example_png example_png (u "/renamescans/waveserrors/scan1.png")
  ∧ u "/renamescans/waveserrors/scan1.png"
    ≠ OsPath.join
        (Startup.waves_directory (layout_of scanner_py (u "/renamescans")))
        (u "scan1.png").
Proof.
  assert (handler_move env_fine (pattern_of scanner_py)
            (Startup.event_handler (layout_of scanner_py (u "/renamescans")))
            example_png example_png (u "/renamescans/waveserrors/scan1.png"))
    as Hm by apply (handler_move_no_token env_fine po_pattern_plain
                      (Startup.event_handler
                         (layout_of scanner_py (u "/renamescans")))
                      example_png).
  split; [exact Hm|].
  apply (X19_no_move_ends_in_the_watched_directory scanner_py env_fine
           (u "/renamescans") example_png example_png _ (u "scan1.png") Hm).
  decide_false.
Defined.

(** X20.  The gate of scannertest.py opens the path for appending, which
    creates the file when it is not there.  So when the file of the event
    is gone before the probe that opens (the scanner has renamed or
    removed it), the handler makes an empty file of that name and files
    it: it returns, and an empty file is at the destination that the
    answer of the extractor gives, with nothing left at the intake path. *)
Theorem X20_gate_of_scannertest_creates_the_missing_file
    E fuel self ev w stem ext n :
  is_directory ev = false →
  src_path ev = stem ++ ext → ext ∈ png_spellings →
  files w !! src_path ev = None →
  (∀ i, (i < n)%nat → access_fails E i) → open_for_append E n = None →
  (n < fuel)%nat →
  fault_makedirs E = None → fault_rename E = None →
  destination E self (src_path ev) (Scannertest_answer E) ∉ dirs w →
  ∃ w', Scannertest.on_created E fuel self ev w = (Ret (), w')
        ∧ files w'
          = <[destination E self (src_path ev) (Scannertest_answer E) := []]>
              (files w).
Proof.
  intros Hdir Hp Hext Hb Hfail Hopen Hfuel Hmk Hrn Hd.
  rewrite scannertest_on_created_gate by done.
  rewrite bind_unfold. replace fuel with (n + S (fuel - S n))%nat by lia.
  rewrite wait_for_file_access_waits by (intros i Hi; apply Hfail; lia).
  rewrite wait_for_file_access_creates by done.
  cbn beta iota. rewrite Hp in *.
  match goal with
  | |- context [Scannertest.classify_and_file E self _ ?w1] =>
      destruct (scannertest_classify_ok E self stem ext [] w1)
        as (w' & -> & Hf);
        [done | apply lookup_insert_eq | done | done | done |]
  end.
  exists w'. split; [done|]. rewrite Hf. simpl. unfold moved.
  by rewrite delete_insert_eq, delete_id.
Qed.

Lemma X20_witness :
  files (initial_world ∅ (dirs (example_world example_png))) !! example_png
  = None
  ∧ ∃ w', Scannertest.on_created env_never_loads 1 example_handler
            (created example_png)
            (initial_world ∅ (dirs (example_world example_png)))
          = (Ret (), w')
          ∧ files w' !! u "/renamescans/wavesfinished/UncapturedPO/scan1.png"
            = Some [].
Proof.
  assert (u ".png" ∈ png_spellings) as Hext
    by (apply (bool_decide_eq_true_1 (u ".png" ∈ png_spellings));
        vm_compute; reflexivity).
  split; [reflexivity|].
  destruct (X20_gate_of_scannertest_creates_the_missing_file
              env_never_loads 1 example_handler (created example_png)
              (initial_world ∅ (dirs (example_world example_png)))
              (u "/renamescans/waves/scan1") (u ".png") 0)
    as (w' & Heq & Hfiles);
    [reflexivity | reflexivity | exact Hext | reflexivity
    | intros i Hi; lia | reflexivity | lia | reflexivity | reflexivity
    | decide_false |].
  exists w'. split; [exact Heq|]. rewrite Hfiles. vm_compute. reflexivity.
Defined.

(** X21.  The new name can be read back: two new names that give the same
    path in the finished directory have the same token, the same six
    digits and the same extension.  Files with different PO tokens never
    meet in the finished directory. *)
Theorem X21_new_name_determines_token_digits_and_extension
    E E' self p p' po po' :
  Re.lang po_pattern po → Re.lang po_pattern po' →
  OsPath.join (finished_directory self)
    (po ++ u "_" ++ name_suffix E ++ (OsPath.splitext p).2)
  = OsPath.join (finished_directory self)
      (po' ++ u "_" ++ name_suffix E' ++ (OsPath.splitext p').2) →
  po = po' ∧ name_suffix E = name_suffix E'
  ∧ (OsPath.splitext p).2 = (OsPath.splitext p').2.
Proof.
  intros Hpo Hpo' Heq.
  destruct (join_prefix (finished_directory self)) as [a' Ha'].
  rewrite !Ha' in Heq
    by (apply no_sep_not_startswith; by apply new_name_no_sep).
  apply app_inv_head in Heq.
  apply word_token_chars in Hpo as [_ Hpo], Hpo' as [_ Hpo'].
  apply app_cons_inj_first in Heq as [-> Heq].
  - split; [done|]. apply app_inj_1 in Heq; [done|].
    unfold name_suffix. by rewrite !(proj1 (suffix_six_hex _)).
  - eapply Forall_not_elem; [exact Hpo|].
    by intros H%token_char_not_underscore.
  - eapply Forall_not_elem; [exact Hpo'|].
    by intros H%token_char_not_underscore.
Qed.

Lemma X21_witness :
  Re.lang po_pattern (u "PO904821")
  ∧ (OsPath.splitext example_png).2
    = (OsPath.splitext (u "/renamescans/waves/scan9.png")).2.
Proof.
  assert (Re.lang po_pattern (u "PO904821")) as Hw.
  { apply lang_po_pattern_shape. exists [], 57, (u "04821").
    split; [reflexivity|]. split; [constructor|]. split; [reflexivity|].
    repeat constructor. }
  split; [exact Hw|].
  exact (proj2 (proj2 (X21_new_name_determines_token_digits_and_extension
                         env_fine env_ref example_handler example_png
                         (u "/renamescans/waves/scan9.png")
                         (u "PO904821") (u "PO904821") Hw Hw eq_refl))).
Defined.
